(** * The enrollment socket bundle: transport, protocol adapter, workflow client

    A shallow embedding of [object-socket.enrollment.bundle.js]: the
    [ObjectSocket] transport (request/response correlation, typed dispatch,
    reconnection), the [EnrollmentClient] encoder and decoder, and the
    workflow operations built on them.

    Conventions of the embedding.
    - A JavaScript string is the list of its UTF-16 code units ([list N]).
    - A JavaScript value is a [jsval]; objects keep their own data properties
      in insertion order.  The text handed to [ws.send] is
      [JSON.stringify body]; the embedding records [body].
    - Side effects (frames sent, futures settled, timers, lifecycle events)
      are appended, in program order, to the [trace] of the socket state. *)

From Stdlib Require Import ZArith NArith QArith Qround String Ascii Bool List Lia DecimalString.
From stdpp Require Import gmap list.
Import ListNotations.

Set Warnings "-register-all".

Close Scope Q_scope.
Local Open Scope N_scope.

(** ** Strings as code units *)

Abbreviation jstring := (list N).

Definition u (s : string) : jstring :=
  List.map N_of_ascii (list_ascii_of_string s).
Arguments u s%_string.

(** The code unit of the double quote, and a quoted JSON string literal. *)
Definition dquote : N := 34.
Definition quoted (s : jstring) : jstring := dquote :: s ++ [dquote].

Definition jstr_eqb (a b : jstring) : bool := bool_decide (a = b).

Fixpoint startsWith (p s : jstring) : bool :=
  match p, s with
  | [], _ => true
  | c :: p', d :: s' => (c =? d) && startsWith p' s'
  | _ :: _, [] => false
  end.

Definition endsWith (p s : jstring) : bool := startsWith (rev p) (rev s).

Definition slice_from (n : nat) (s : jstring) : jstring := drop n s.

(** [WhiteSpace] and [LineTerminator] of ECMAScript, the set [trim] strips. *)
Definition is_js_space (c : N) : bool :=
  (c =? 9) || (c =? 10) || (c =? 11) || (c =? 12) || (c =? 13) || (c =? 32)
  || (c =? 160) || (c =? 5760) || ((8192 <=? c) && (c <=? 8202))
  || (c =? 8232) || (c =? 8233) || (c =? 8239) || (c =? 8287)
  || (c =? 12288) || (c =? 65279).

Fixpoint trim_start (s : jstring) : jstring :=
  match s with
  | c :: r => if is_js_space c then trim_start r else s
  | [] => []
  end.

Definition trim (s : jstring) : jstring := rev (trim_start (rev (trim_start s))).

(** [toUpperCase], one code unit at a time.  ASCII and Latin-1 letters are
    mapped as Unicode maps them, and so is every other code unit whose
    upper-case form contains an ASCII letter; the remaining code units are
    left as they are (their upper-case forms contain no ASCII unit, and the
    program only compares upper-cased text with ASCII markers). *)
Definition upper_unit (c : N) : jstring :=
  if (97 <=? c) && (c <=? 122) then [c - 32]
  else if c <? 128 then [c]
  else if c =? 181 then [924]
  else if c =? 223 then [83; 83]
  else if (224 <=? c) && (c <=? 254) && negb (c =? 247) then [c - 32]
  else if c =? 255 then [376]
  else if c =? 305 then [73]
  else if c =? 329 then [700; 78]
  else if c =? 383 then [83]
  else if c =? 496 then [74; 780]
  else if c =? 7830 then [72; 817]
  else if c =? 7831 then [84; 776]
  else if c =? 7832 then [87; 778]
  else if c =? 7833 then [89; 778]
  else if c =? 7834 then [65; 702]
  else if c =? 64256 then [70; 70]
  else if c =? 64257 then [70; 73]
  else if c =? 64258 then [70; 76]
  else if c =? 64259 then [70; 70; 73]
  else if c =? 64260 then [70; 70; 76]
  else if (c =? 64261) || (c =? 64262) then [83; 84]
  else [c].

Definition toUpperCase (s : jstring) : jstring := concat (List.map upper_unit s).

Definition is_digit (c : N) : bool := (48 <=? c) && (c <=? 57).

Definition is_hex (c : N) : bool :=
  is_digit c || ((97 <=? c) && (c <=? 102)) || ((65 <=? c) && (c <=? 70)).

Definition hex_val (c : N) : N :=
  if is_digit c then c - 48
  else if (97 <=? c) && (c <=? 102) then c - 87
  else c - 55.

(** The regular expression [/^[0-9a-fA-F]{64}$/]. *)
Definition test_hex64 (s : jstring) : bool :=
  (length s =? 64)%nat && forallb is_hex s.

(** ** Numbers

    A finite number is kept as the decimal [mant * 10 ^ exp10] it was written
    as.  The program only asks of a number whether it is zero, positive or
    negative; its double is zero exactly when the decimal is zero or rounds
    to zero, that is, is at most [2 ^ -1075] in magnitude. *)

Inductive jsnumber :=
| NaN
| Infinity (negative : bool)
| Dec (mant exp10 : Z).

Inductive numclass := CNaN | CZero | CPos | CNeg.

Definition is_zero (c : numclass) : bool :=
  match c with CZero => true | _ => false end.

Definition is_positive (c : numclass) : bool :=
  match c with CPos => true | _ => false end.

Definition underflows (m e : Z) : bool :=
  ((e <? 0) && (Z.abs m * 2 ^ 1075 <=? 10 ^ (- e)))%Z.

Definition class_of (n : jsnumber) : numclass :=
  match n with
  | NaN => CNaN
  | Infinity neg => if neg then CNeg else CPos
  | Dec m e =>
      if (m =? 0)%Z || underflows m e then CZero
      else if (0 <? m)%Z then CPos else CNeg
  end.

(** ** Values *)

Inductive jsval :=
| JUndefined
| JNull
| JBool (b : bool)
| JNum (n : jsnumber)
| JStr (s : jstring)
| JArr (l : list jsval)
| JObj (o : list (jstring * jsval)).

Abbreviation props := (list (jstring * jsval)).

(** Own property lookup, and a data property written as [o[k] = v] writes
    it: an existing key keeps its place. *)
Fixpoint obj_get (o : props) (k : jstring) : option jsval :=
  match o with
  | [] => None
  | (k', v) :: r => if jstr_eqb k' k then Some v else obj_get r k
  end.

Fixpoint obj_set (o : props) (k : jstring) (v : jsval) : props :=
  match o with
  | [] => [(k, v)]
  | (k', v') :: r => if jstr_eqb k' k then (k, v) :: r else (k', v') :: obj_set r k v
  end.

(** [ToBoolean]. *)
Definition truthy (v : jsval) : bool :=
  match v with
  | JUndefined | JNull => false
  | JBool b => b
  | JNum n => match class_of n with CPos | CNeg => true | _ => false end
  | JStr s => negb (jstr_eqb s [])
  | JArr _ | JObj _ => true
  end.

Inductive jstype := TyUndefined | TyObject | TyBoolean | TyNumber | TyString.

Definition typeof (v : jsval) : jstype :=
  match v with
  | JUndefined => TyUndefined
  | JNull | JArr _ | JObj _ => TyObject
  | JBool _ => TyBoolean
  | JNum _ => TyNumber
  | JStr _ => TyString
  end.

Definition nullish (v : jsval) : bool :=
  match v with JUndefined | JNull => true | _ => false end.

Definition is_string (v : jsval) : bool :=
  match v with JStr _ => true | _ => false end.

(** Exceptions the embedded code can raise. *)
Inductive exn :=
| SyntaxError
| TypeError
| Error (message : jstring)
| ProtocolError (message code details : jsval).

Inductive result (A : Type) :=
| Ok (a : A)
| Throw (e : exn).
Arguments Ok {A} a.
Arguments Throw {A} e.

#[global] Instance result_ret : MRet result := fun A a => Ok a.

#[global] Instance result_bind : MBind result := fun A B k r =>
  match r with
  | Ok a => k a
  | Throw e => Throw e
  end.

(** [v.k] for one of the property names the program reads
    ([ParticipantsEnrolled], [Message], [type], [replyTo], ...): none of them
    is defined on a built-in prototype, on an array or on a primitive, so
    only a plain object can carry it.  Reading a property of [null] or
    [undefined] throws. *)
Definition prop (v : jsval) (k : jstring) : result jsval :=
  match v with
  | JUndefined | JNull => Throw TypeError
  | JObj o => Ok (default JUndefined (obj_get o k))
  | _ => Ok JUndefined
  end.

(** [v?.k]. *)
Definition prop_opt (v : jsval) (k : jstring) : jsval :=
  match v with
  | JObj o => default JUndefined (obj_get o k)
  | _ => JUndefined
  end.

(** ** [JSON.parse] *)

Definition is_json_ws (c : N) : bool :=
  (c =? 32) || (c =? 9) || (c =? 10) || (c =? 13).

Fixpoint skip_ws (s : jstring) : jstring :=
  match s with
  | c :: r => if is_json_ws c then skip_ws r else s
  | [] => []
  end.

(** Reads a run of decimal digits after [acc]: the number read, how many
    digits it took, and what follows. *)
Fixpoint span_digits (s : jstring) (acc : Z) : Z * nat * jstring :=
  match s with
  | c :: r =>
      if is_digit c then
        let '(v, n, rest) := span_digits r (acc * 10 + Z.of_N (c - 48)) in
        (v, S n, rest)
      else (acc, O, s)
  | [] => (acc, O, [])
  end.

Definition parse_int_part (s : jstring) : option (Z * jstring) :=
  match s with
  | c :: r =>
      if c =? 48 then Some (0%Z, r)
      else if is_digit c then let '(v, _, rest) := span_digits s 0 in Some (v, rest)
      else None
  | [] => None
  end.

Definition parse_frac (s : jstring) (m : Z) : option (Z * Z * jstring) :=
  match s with
  | c :: r =>
      if c =? 46 then
        let '(v, n, rest) := span_digits r m in
        match n with
        | O => None
        | S _ => Some (v, (- Z.of_nat n)%Z, rest)
        end
      else Some (m, 0%Z, s)
  | [] => Some (m, 0%Z, [])
  end.

(** [ExponentPart], optional: [e] or [E], a sign, at least one digit. *)
Definition parse_exp (s : jstring) : option (Z * jstring) :=
  match s with
  | c :: r =>
      if (c =? 101) || (c =? 69) then
        let '(neg, r1) :=
          match r with
          | d :: r' => if d =? 45 then (true, r') else if d =? 43 then (false, r') else (false, r)
          | [] => (false, r)
          end in
        let '(v, n, rest) := span_digits r1 0 in
        match n with
        | O => None
        | S _ => Some (if neg then (- v)%Z else v, rest)
        end
      else Some (0%Z, s)
  | [] => Some (0%Z, [])
  end.

Definition parse_number (s : jstring) : option (jsnumber * jstring) :=
  let '(neg, s1) :=
    match s with
    | c :: r => if c =? 45 then (true, r) else (false, s)
    | [] => (false, s)
    end in
  '(i, s2) ← parse_int_part s1;
  '(m, adj, s3) ← parse_frac s2 i;
  '(e, s4) ← parse_exp s3;
  Some (Dec (if neg then (- m)%Z else m) (e + adj), s4).

Definition escape_unit (e : N) : option N :=
  if (e =? 34) || (e =? 92) || (e =? 47) then Some e
  else if e =? 98 then Some 8
  else if e =? 102 then Some 12
  else if e =? 110 then Some 10
  else if e =? 114 then Some 13
  else if e =? 116 then Some 9
  else None.

(** The characters of a string literal after its opening quote. *)
Fixpoint parse_chars (s : jstring) (acc : jstring) : option (jstring * jstring) :=
  match s with
  | [] => None
  | c :: r =>
      if c =? 34 then Some (rev acc, r)
      else if c =? 92 then
        match r with
        | [] => None
        | e :: r' =>
            if e =? 117 then
              match r' with
              | h1 :: h2 :: h3 :: h4 :: r'' =>
                  if is_hex h1 && is_hex h2 && is_hex h3 && is_hex h4 then
                    parse_chars r''
                      ((((hex_val h1 * 16 + hex_val h2) * 16 + hex_val h3) * 16 + hex_val h4) :: acc)
                  else None
              | _ => None
              end
            else
              match escape_unit e with
              | Some x => parse_chars r' (x :: acc)
              | None => None
              end
        end
      else if c <? 32 then None
      else parse_chars r (c :: acc)
  end.

Fixpoint parse_value (fuel : nat) (s : jstring) : option (jsval * jstring) :=
  match fuel with
  | O => None
  | S f =>
      match skip_ws s with
      | [] => None
      | c :: r =>
          if c =? 123 then
            match skip_ws r with
            | d :: r' => if d =? 125 then Some (JObj [], r') else parse_members f r []
            | [] => None
            end
          else if c =? 91 then
            match skip_ws r with
            | d :: r' => if d =? 93 then Some (JArr [], r') else parse_elements f r []
            | [] => None
            end
          else if c =? 34 then
            '(str, rest) ← parse_chars r []; Some (JStr str, rest)
          else if startsWith (u "true") (c :: r) then Some (JBool true, drop 4 (c :: r))
          else if startsWith (u "false") (c :: r) then Some (JBool false, drop 5 (c :: r))
          else if startsWith (u "null") (c :: r) then Some (JNull, drop 4 (c :: r))
          else '(n, rest) ← parse_number (c :: r); Some (JNum n, rest)
      end
  end
with parse_elements (fuel : nat) (s : jstring) (acc : list jsval) : option (jsval * jstring) :=
  match fuel with
  | O => None
  | S f =>
      '(v, rest) ← parse_value f s;
      match skip_ws rest with
      | c :: r =>
          if c =? 44 then parse_elements f r (v :: acc)
          else if c =? 93 then Some (JArr (rev (v :: acc)), r)
          else None
      | [] => None
      end
  end
with parse_members (fuel : nat) (s : jstring) (acc : props) : option (jsval * jstring) :=
  match fuel with
  | O => None
  | S f =>
      match skip_ws s with
      | c :: r =>
          if c =? 34 then
            '(k, r1) ← parse_chars r [];
            match skip_ws r1 with
            | d :: r2 =>
                if d =? 58 then
                  '(v, r3) ← parse_value f r2;
                  match skip_ws r3 with
                  | e :: r4 =>
                      if e =? 44 then parse_members f r4 (obj_set acc k v)
                      else if e =? 125 then Some (JObj (obj_set acc k v), r4)
                      else None
                  | [] => None
                  end
                else None
            | [] => None
            end
          else None
      | [] => None
      end
  end.

(** [JSON.parse text]; [None] stands for its [SyntaxError]. *)
Definition JSON_parse (s : jstring) : option jsval :=
  '(v, rest) ← parse_value (2 * length s + 2) s;
  match skip_ws rest with
  | [] => Some v
  | _ :: _ => None
  end.

(** ** Conversions used by [==] and [>]

    [StringToNumber], as the class of its result. *)

Fixpoint span_radix (ok : N -> bool) (s : jstring) (nonzero : bool) : option bool :=
  match s with
  | [] => Some nonzero
  | c :: r => if ok c then span_radix ok r (nonzero || negb (c =? 48)) else None
  end.

Definition radix_class (ok : N -> bool) (digits : jstring) : numclass :=
  match digits with
  | [] => CNaN
  | _ :: _ =>
      match span_radix ok digits false with
      | Some nz => if nz then CPos else CZero
      | None => CNaN
      end
  end.

Definition str_decimal_class (neg : bool) (s : jstring) : numclass :=
  if jstr_eqb s (u "Infinity") then (if neg then CNeg else CPos)
  else
    let '(i, ni, s1) := span_digits s 0 in
    let '(m, nf, s2) :=
      match s1 with
      | c :: r => if c =? 46 then span_digits r i else (i, O, s1)
      | [] => (i, O, s1)
      end in
    match (ni + nf)%nat with
    | O => CNaN
    | S _ =>
        match parse_exp s2 with
        | Some (e, []) => class_of (Dec (if neg then (- m)%Z else m) (e - Z.of_nat nf))
        | _ => CNaN
        end
    end.

Definition str_class (s : jstring) : numclass :=
  match trim s with
  | [] => CZero
  | c :: r =>
      if c =? 45 then str_decimal_class true r
      else if c =? 43 then str_decimal_class false r
      else
        match r with
        | d :: digits =>
            if (c =? 48) && ((d =? 120) || (d =? 88)) then radix_class is_hex digits
            else if (c =? 48) && ((d =? 111) || (d =? 79)) then
              radix_class (fun x => (48 <=? x) && (x <=? 55)) digits
            else if (c =? 48) && ((d =? 98) || (d =? 66)) then
              radix_class (fun x => (48 <=? x) && (x <=? 49)) digits
            else str_decimal_class false (c :: r)
        | [] => str_decimal_class false (c :: r)
        end
  end.

(** [ToPrimitive] of a value that came out of [JSON.parse].  A plain object
    converts through the inherited [toString] unless an own (and so not
    callable) [toString] property hides it, in which case the conversion
    throws; an array converts through [join], which converts its elements. *)
Fixpoint tostring_throws (v : jsval) : bool :=
  match v with
  | JObj o => bool_decide (is_Some (obj_get o (u "toString")))
  | JArr l => existsb tostring_throws l
  | _ => false
  end.

(** The class of [ToNumber] of the text an array element contributes to
    [join]: nothing for [null], its own text otherwise. *)
Fixpoint elem_class (v : jsval) : numclass :=
  match v with
  | JUndefined | JNull => CZero
  | JBool _ => CNaN
  | JNum n => class_of n
  | JStr s => str_class s
  | JObj _ => CNaN
  | JArr l =>
      match l with
      | [] => CZero
      | [x] => elem_class x
      | _ :: _ :: _ => CNaN
      end
  end.

Definition to_number_class (v : jsval) : result numclass :=
  if tostring_throws v then Throw TypeError
  else
    Ok match v with
       | JUndefined => CNaN
       | JNull => CZero
       | JBool b => if b then CPos else CZero
       | JNum n => class_of n
       | JStr s => str_class s
       | JObj _ => CNaN
       | JArr _ => elem_class v
       end.

(** [v == 0]. *)
Definition loose_eq_zero (v : jsval) : result bool :=
  match v with
  | JUndefined | JNull => Ok false
  | _ => c ← to_number_class v; Ok (is_zero c)
  end.

(** [v === 0]. *)
Definition strict_eq_zero (v : jsval) : bool :=
  match v with
  | JNum n => is_zero (class_of n)
  | _ => false
  end.

(** [v > 0]. *)
Definition greater_than_zero (v : jsval) : result bool :=
  c ← to_number_class v; Ok (is_positive c).

(** ** The protocol adapter of [EnrollmentClient] *)

Definition is_object (v : jsval) : bool :=
  match typeof v with TyObject => true | _ => false end.

(** The object literal [{ type: t, payload: p }]. *)
Definition envelope (t : jstring) (p : jsval) : jsval :=
  JObj [(u "type", JStr t); (u "payload", p)].

(** The object literal [{ Message: text }]. *)
Definition message_of (text : jstring) : jsval := JObj [(u "Message", JStr text)].

(** [Object.assign(target, source)] for the sources the encoder can meet:
    the own enumerable properties of an object, the elements of an array and
    the characters of a string under their indices.  (The place JavaScript
    gives integer-like keys among the others is not modelled: frames are
    read through their properties.) *)
Definition index_key (i : nat) : jstring :=
  u (NilZero.string_of_uint (Nat.to_uint i)).

Definition own_props (v : jsval) : props :=
  match v with
  | JObj o => o
  | JArr l => imap (fun i x => (index_key i, x)) l
  | JStr s => imap (fun i c => (index_key i, JStr [c])) s
  | _ => []
  end.

Definition Object_assign (target : props) (source : jsval) : props :=
  fold_left (fun o kv => obj_set o kv.1 kv.2) (own_props source) target.

(** [encode], up to the final [JSON.stringify]: the value it serialises. *)
Definition encode (env : jsval) : jsval :=
  let coordinator :=
    if truthy env then
      match prop_opt env (u "type") with
      | JStr t =>
          if jstr_eqb t (u "Info_ManagerForEnroll") || jstr_eqb t (u "Enrollment")
             || jstr_eqb t (u "Info_Enrollment")
          then Some t else None
      | _ => None
      end
    else None in
  match coordinator with
  | Some t =>
      let payload := prop_opt env (u "payload") in
      JObj (Object_assign [(u "Method", JStr t)] (if truthy payload then payload else JObj []))
  | None =>
      if truthy env then
        let payload := prop_opt env (u "payload") in
        if truthy payload then payload else env
      else env
  end.

(** The first part of [decode]: the tolerant parse of a text frame.  (A
    binary frame is first turned into text by [TextDecoder]; the embedding
    starts from the text.) *)
Definition tolerant_parse (rawStr : jstring) : jsval :=
  let msg :=
    match JSON_parse rawStr with
    | Some v => v
    | None => message_of rawStr
    end in
  match msg with
  | JStr str =>
      if truthy msg then
        let s := trim str in
        if (startsWith (u "{") s && endsWith (u "}") s)
           || (startsWith (u "[") s && endsWith (u "]") s)
        then
          match JSON_parse s with
          | Some v => v
          | None => message_of s
          end
        else message_of s
      else msg
  | _ => msg
  end.

Definition has_serial (msg : jsval) : bool :=
  match prop_opt msg (u "SerialNumber") with
  | JStr s => negb (jstr_eqb s [])
  | _ => false
  end.

Definition decode (raw : jstring) : result jsval :=
  let msg := tolerant_parse raw in
  info ←
    (if truthy msg && is_object msg
     then pe ← prop msg (u "ParticipantsEnrolled"); loose_eq_zero pe
     else Ok false);
  if info : bool then Ok (envelope (u "MANAGER_INFO") msg)
  else
    pe ← prop msg (u "ParticipantsEnrolled");
    enrolling ← greater_than_zero pe;
    if enrolling : bool then Ok (envelope (u "ENROLLMENT_STATUS") msg)
    else
      let m :=
        match prop_opt msg (u "Message") with
        | JStr t => trim t
        | _ => []
        end in
      let mUpper := toUpperCase m in
      let hex := if startsWith (u "0x") m then slice_from 2 m else m in
      let is64Hex := test_hex64 hex in
      let hasTxField :=
        truthy (prop_opt msg (u "TxHash")) || truthy (prop_opt msg (u "txHash"))
        || truthy (prop_opt msg (u "txid")) || truthy (prop_opt msg (u "TxId"))
        || truthy (prop_opt msg (u "TransactionId")) in
      if jstr_eqb mUpper (u "SUCCESS.ENROLL") then Ok (envelope (u "ENROLLMENT_RESULT") msg)
      else if jstr_eqb mUpper (u "SUCCESS.SIGNATURE_ADDED") then Ok (envelope (u "SIGN_RESULT") msg)
      else if jstr_eqb mUpper (u "SUCCESS.SIGNATURE_ENDED") then Ok (envelope (u "SIGN_RESULT") msg)
      else if is64Hex || hasTxField then Ok (envelope (u "SIGN_RESULT") msg)
      else if has_serial msg then Ok (envelope (u "SUCCESS.PIN_SERIAL") msg)
      else if
        negb (jstr_eqb m [])
        && negb (jstr_eqb mUpper (u "ERROR.WRONG_PIN"))
        && negb (startsWith (u "SUCCESS.SIGNATURE_") mUpper)
        && negb (jstr_eqb mUpper (u "SUCCESS.ENROLL"))
        && negb is64Hex
      then
        Ok (envelope (u "SUCCESS.PIN_SERIAL")
              (JObj [(u "SerialNumber", JStr m); (u "Message", JStr m)]))
      else if jstr_eqb mUpper (u "ERROR.WRONG_PIN") then Ok (envelope (u "ERROR.WRONG_PIN") msg)
      else Ok (envelope (u "UNKNOWN") msg).

(** ** The classification rules, as a specification

    The tagged variant of a classified event, the type string under which
    the decoder delivers each tag, and an ordered chain of predicate-to-tag
    rules of which the first that matches wins. *)

Inductive event_tag :=
| ManagerInfo
| EnrollmentStatus
| EnrollmentResult
| SignResult
| PinSerial
| WrongPin
| Unknown.

Definition type_of_tag (t : event_tag) : jstring :=
  match t with
  | ManagerInfo => u "MANAGER_INFO"
  | EnrollmentStatus => u "ENROLLMENT_STATUS"
  | EnrollmentResult => u "ENROLLMENT_RESULT"
  | SignResult => u "SIGN_RESULT"
  | PinSerial => u "SUCCESS.PIN_SERIAL"
  | WrongPin => u "ERROR.WRONG_PIN"
  | Unknown => u "UNKNOWN"
  end.

Abbreviation rule := ((jsval -> bool) * event_tag)%type.

Definition first_match (rules : list rule) (msg : jsval) : event_tag :=
  match List.find (fun r : rule => r.1 msg) rules with
  | Some r => r.2
  | None => Unknown
  end.

Definition participants (msg : jsval) : jsval := prop_opt msg (u "ParticipantsEnrolled").

(** The message text: trimmed, and compared without regard to case. *)
Definition message_text (msg : jsval) : jstring :=
  match prop_opt msg (u "Message") with
  | JStr t => trim t
  | _ => []
  end.

Definition text_equals (marker : jstring) (msg : jsval) : bool :=
  jstr_eqb (toUpperCase (message_text msg)) marker.

Definition text_is_hex64 (msg : jsval) : bool :=
  let m := message_text msg in
  test_hex64 (if startsWith (u "0x") m then slice_from 2 m else m).

Definition tx_fields : list jstring :=
  [u "TxHash"; u "txHash"; u "txid"; u "TxId"; u "TransactionId"].

Definition has_field (msg : jsval) (k : jstring) : bool :=
  match msg with
  | JObj o => bool_decide (is_Some (obj_get o k))
  | _ => false
  end.

Definition or_false (r : result bool) : bool :=
  match r with
  | Ok b => b
  | Throw _ => false
  end.

Definition is_signature_marker (msg : jsval) : bool :=
  text_equals (u "SUCCESS.SIGNATURE_ADDED") msg || text_equals (u "SUCCESS.SIGNATURE_ENDED") msg.

(** The nine rules as the specification words them: rule 1 with strict
    equality, rule 5 on the presence of a transaction-hash field, rule 7
    excluding the two signature-success markers. *)
Definition stated_rules : list rule :=
  [ (fun msg => strict_eq_zero (participants msg), ManagerInfo);
    (fun msg => or_false (greater_than_zero (participants msg)), EnrollmentStatus);
    (text_equals (u "SUCCESS.ENROLL"), EnrollmentResult);
    (is_signature_marker, SignResult);
    (fun msg => text_is_hex64 msg
                || existsb (has_field msg) tx_fields,
     SignResult);
    (has_serial, PinSerial);
    (fun msg => negb (jstr_eqb (message_text msg) [])
                && negb (text_equals (u "ERROR.WRONG_PIN") msg)
                && negb (is_signature_marker msg)
                && negb (text_equals (u "SUCCESS.ENROLL") msg)
                && negb (text_is_hex64 msg),
     PinSerial);
    (text_equals (u "ERROR.WRONG_PIN"), WrongPin) ].

(** The same chain with the three rules read as the decoder has them:
    rule 1 with the loose comparison [== 0], rule 5 on a transaction-hash
    field that is truthy, rule 7 excluding every text that starts with
    [SUCCESS.SIGNATURE_]. *)
Definition decoder_rules : list rule :=
  [ (fun msg => or_false (loose_eq_zero (participants msg)), ManagerInfo);
    (fun msg => or_false (greater_than_zero (participants msg)), EnrollmentStatus);
    (text_equals (u "SUCCESS.ENROLL"), EnrollmentResult);
    (is_signature_marker, SignResult);
    (fun msg => text_is_hex64 msg || existsb (fun k => truthy (prop_opt msg k)) tx_fields,
     SignResult);
    (has_serial, PinSerial);
    (fun msg => negb (jstr_eqb (message_text msg) [])
                && negb (text_equals (u "ERROR.WRONG_PIN") msg)
                && negb (startsWith (u "SUCCESS.SIGNATURE_") (toUpperCase (message_text msg)))
                && negb (text_equals (u "SUCCESS.ENROLL") msg)
                && negb (text_is_hex64 msg),
     PinSerial);
    (text_equals (u "ERROR.WRONG_PIN"), WrongPin) ].

(** The tag a decoded envelope carries, if the decoder returned one. *)
Definition decoded_type (r : result jsval) : option jstring :=
  match r with
  | Ok env =>
      match prop_opt env (u "type") with
      | JStr t => Some t
      | _ => None
      end
  | Throw _ => None
  end.

(** A frame holding the one-property object [{ "k": v }], [v] given as JSON
    text, and lower-case hexadecimal text. *)
Definition frame1 (k v : jstring) : jstring := u "{" ++ quoted k ++ u ":" ++ v ++ u "}".

Definition frame2 (k1 v1 k2 v2 : jstring) : jstring :=
  u "{" ++ quoted k1 ++ u ":" ++ v1 ++ u "," ++ quoted k2 ++ u ":" ++ v2 ++ u "}".

Definition is_lower_hex (c : N) : bool := is_digit c || ((97 <=? c) && (c <=? 102)).

Definition lower_hex64 (s : jstring) : Prop := length s = 64%nat ∧ forallb is_lower_hex s = true.

(** Two texts of sixty-four hexadecimal characters: one with letters, one
    whose characters are all decimal digits. *)
Definition sample_hex : jstring :=
  u "9f86d081884c7d659a2feaa0c55ad015a3bf4f1b2b0b822cd15d6c15b0f00a08".

Definition digits_hex : jstring :=
  u "1111111111111111111111111111111111111111111111111111111111111111".


(** ** Reconnection backoff

    [random] is the number [Math.random()] returns, [0 <= random < 1];
    the arithmetic is exact. *)
Definition defaultBackoff (attempt : N) (random : Q) : Z :=
  let base := (500 * 2 ^ Z.of_N attempt)%Z in
  let jitter := Qfloor (random * 250) in
  (Z.min 30000 base + jitter)%Z.

(** ** Request identifiers *)

Definition digit36 (d : N) : N := if d <? 10 then 48 + d else 87 + d.

Fixpoint to_radix36 (fuel : nat) (n : N) (acc : jstring) : jstring :=
  match fuel with
  | O => acc
  | S f =>
      let acc' := digit36 (n mod 36) :: acc in
      if n / 36 =? 0 then acc' else to_radix36 f (n / 36) acc'
  end.

(** [n.toString(36)] for a non-negative integer. *)
Definition toString36 (n : N) : jstring :=
  to_radix36 (S (N.to_nat (N.log2 n))) n [].

(** Reading base 36 back. *)
Definition val36 (d : N) : N := if d <? 58 then d - 48 else d - 87.

Definition of36 (l : jstring) : N := fold_left (fun acc d => acc * 36 + val36 d) l 0.

(** [Date.now().toString(36) + '-' + counter.toString(36)]. *)
Definition make_id (now counter : N) : jstring :=
  toString36 now ++ u "-" ++ toString36 counter.

(** ** The transport: [ObjectSocket]

    Futures, timers and handlers are closures and opaque handles in the
    program.  The embedding names each after the call that creates it:
    the future and the timer of a request after its id, those of a
    [connect], [waitFor] or [_sendAndWait] call after the number of the call.
    [setTimeout] never hands out a handle twice, and neither do these names
    as long as ids and call numbers are not reused. *)

Inductive ready_state := CONNECTING | OPEN | CLOSING | CLOSED.

Inductive future :=
| FConnect (n : nat)
| FRequest (id : jstring)
| FWait (n : nat).

Inductive timer :=
| TRequest (id type : jstring)
| TWait (n : nat)
| TReconnect (n : nat)
| THeartbeat (n : nat).

Inductive handler :=
| HUser (k : nat)
| HStatus (n : nat)
| HResult (n : nat)
| HExpect (n i : nat).

#[global] Instance ready_state_eq_dec : EqDecision ready_state.
Proof. solve_decision. Defined.
#[global] Instance future_eq_dec : EqDecision future.
Proof. solve_decision. Defined.
#[global] Instance timer_eq_dec : EqDecision timer.
Proof. solve_decision. Defined.
#[global] Instance handler_eq_dec : EqDecision handler.
Proof. solve_decision. Defined.

Inductive outcome :=
| Resolved (v : jsval)
| Rejected (e : exn).

Inductive lifecycle :=
| Connected
| Disconnected
| Reconnecting (attempt : N) (inMs : Z)
| ErrorEvent.

Inductive effect :=
| Sent (body : jsval)                      (* ws.send(encode(env)) *)
| Settle (f : future) (o : outcome)        (* a call of resolve or reject *)
| Emit (ev : lifecycle)                    (* _emit(name, ...) *)
| SetTimer (t : timer) (delay : Z)         (* setTimeout, setInterval *)
| Cleared (t : timer)                      (* clearTimeout/clearInterval of a live timer *)
| Fired (t : timer)                        (* a timer ran its callback *)
| Deleted (id : jstring)                   (* _pending.delete(id) removed an entry *)
| Subscribed (type : jstring) (h : handler)
| Unsubscribed (type : jstring) (h : handler)
| Called (h : handler).                    (* a subscribed handler was invoked *)

(** How a handler supplied by the user of the socket completes.  The
    embedding takes such a handler, and a listener of a lifecycle event, to
    act on the socket through nothing else: a method of the socket that user
    code calls is an event of its own. *)
Inductive completion :=
| Returns
| Throws
| Rejects (e : jsval).

(** What a [waitFor] or [_sendAndWait] closure has captured. *)
Inductive wait_info :=
| WaitFor (predicate : jsval -> result bool)
| SendAndWait (expectList : list jstring).

Record PendingRequest := { settles : future; timeout : timer }.

(** The options of a socket that stay fixed. *)
Record options := {
  maxReconnects : option N;                 (* [None] is [Infinity] *)
  backoff : N -> Q -> Z;                    (* the delay, given the draw of [Math.random] *)
  heartbeat_intervalMs : Z;
  heartbeat_pingType : option jstring;
  opt_encode : jsval -> jsval;
  opt_decode : jstring -> result jsval;
  tolerantDecode : bool;
  user_handler : nat -> jsval -> completion
}.

Record ObjectSocket := mkSocket {
  autoReconnect : bool;                     (* _opts.autoReconnect *)
  _ws : option ready_state;                 (* _ws with its readyState; [None] is null *)
  ws_owner : nat;                           (* the connect call whose promise _ws.onopen resolves *)
  _connected : bool;
  _reconnectAttempts : N;
  _heartbeatTimer : option nat;              (* the interval [THeartbeat n], if one is set *)
  _pending : gmap jstring PendingRequest;
  _handlers : gmap jstring (list handler);
  _idCounter : N;
  timers : list timer;                      (* the timers that are set *)
  calls : nat;                              (* calls that created closures so far *)
  waits : gmap nat wait_info;
  rejections : list (jsval * jsval);        (* rejected handler promises whose catch has not run *)
  trace : list effect
}.

Definition set_autoReconnect (v : bool) (s : ObjectSocket) : ObjectSocket :=
  mkSocket v (_ws s) (ws_owner s) (_connected s) (_reconnectAttempts s) (_heartbeatTimer s) (_pending s)
    (_handlers s) (_idCounter s) (timers s) (calls s) (waits s) (rejections s) (trace s).

Definition set_ws (v : option ready_state) (s : ObjectSocket) : ObjectSocket :=
  mkSocket (autoReconnect s) v (ws_owner s) (_connected s) (_reconnectAttempts s) (_heartbeatTimer s) (_pending s)
    (_handlers s) (_idCounter s) (timers s) (calls s) (waits s) (rejections s) (trace s).

Definition set_ws_owner (v : nat) (s : ObjectSocket) : ObjectSocket :=
  mkSocket (autoReconnect s) (_ws s) v (_connected s) (_reconnectAttempts s) (_heartbeatTimer s) (_pending s)
    (_handlers s) (_idCounter s) (timers s) (calls s) (waits s) (rejections s) (trace s).

Definition set_connected (v : bool) (s : ObjectSocket) : ObjectSocket :=
  mkSocket (autoReconnect s) (_ws s) (ws_owner s) v (_reconnectAttempts s) (_heartbeatTimer s) (_pending s)
    (_handlers s) (_idCounter s) (timers s) (calls s) (waits s) (rejections s) (trace s).

Definition set_reconnectAttempts (v : N) (s : ObjectSocket) : ObjectSocket :=
  mkSocket (autoReconnect s) (_ws s) (ws_owner s) (_connected s) v (_heartbeatTimer s) (_pending s)
    (_handlers s) (_idCounter s) (timers s) (calls s) (waits s) (rejections s) (trace s).

Definition set_heartbeatTimer (v : option nat) (s : ObjectSocket) : ObjectSocket :=
  mkSocket (autoReconnect s) (_ws s) (ws_owner s) (_connected s) (_reconnectAttempts s) v (_pending s)
    (_handlers s) (_idCounter s) (timers s) (calls s) (waits s) (rejections s) (trace s).

Definition set_pending (v : gmap jstring PendingRequest) (s : ObjectSocket) : ObjectSocket :=
  mkSocket (autoReconnect s) (_ws s) (ws_owner s) (_connected s) (_reconnectAttempts s) (_heartbeatTimer s) v
    (_handlers s) (_idCounter s) (timers s) (calls s) (waits s) (rejections s) (trace s).

Definition set_handlers (v : gmap jstring (list handler)) (s : ObjectSocket) : ObjectSocket :=
  mkSocket (autoReconnect s) (_ws s) (ws_owner s) (_connected s) (_reconnectAttempts s) (_heartbeatTimer s) (_pending s)
    v (_idCounter s) (timers s) (calls s) (waits s) (rejections s) (trace s).

Definition set_idCounter (v : N) (s : ObjectSocket) : ObjectSocket :=
  mkSocket (autoReconnect s) (_ws s) (ws_owner s) (_connected s) (_reconnectAttempts s) (_heartbeatTimer s) (_pending s)
    (_handlers s) v (timers s) (calls s) (waits s) (rejections s) (trace s).

Definition set_timers (v : list timer) (s : ObjectSocket) : ObjectSocket :=
  mkSocket (autoReconnect s) (_ws s) (ws_owner s) (_connected s) (_reconnectAttempts s) (_heartbeatTimer s) (_pending s)
    (_handlers s) (_idCounter s) v (calls s) (waits s) (rejections s) (trace s).

Definition set_calls (v : nat) (s : ObjectSocket) : ObjectSocket :=
  mkSocket (autoReconnect s) (_ws s) (ws_owner s) (_connected s) (_reconnectAttempts s) (_heartbeatTimer s) (_pending s)
    (_handlers s) (_idCounter s) (timers s) v (waits s) (rejections s) (trace s).

Definition set_waits (v : gmap nat wait_info) (s : ObjectSocket) : ObjectSocket :=
  mkSocket (autoReconnect s) (_ws s) (ws_owner s) (_connected s) (_reconnectAttempts s) (_heartbeatTimer s) (_pending s)
    (_handlers s) (_idCounter s) (timers s) (calls s) v (rejections s) (trace s).

Definition set_rejections (v : list (jsval * jsval)) (s : ObjectSocket) : ObjectSocket :=
  mkSocket (autoReconnect s) (_ws s) (ws_owner s) (_connected s) (_reconnectAttempts s) (_heartbeatTimer s) (_pending s)
    (_handlers s) (_idCounter s) (timers s) (calls s) (waits s) v (trace s).

Definition set_trace (v : list effect) (s : ObjectSocket) : ObjectSocket :=
  mkSocket (autoReconnect s) (_ws s) (ws_owner s) (_connected s) (_reconnectAttempts s) (_heartbeatTimer s) (_pending s)
    (_handlers s) (_idCounter s) (timers s) (calls s) (waits s) (rejections s) v.

(** [new ObjectSocket(url, options)]. *)
Definition new_socket (auto : bool) : ObjectSocket :=
  mkSocket auto None 0 false 0 None ∅ ∅ 0 [] 0 ∅ [] [].

(** *** Platform primitives *)

Definition log (e : effect) (s : ObjectSocket) : ObjectSocket :=
  set_trace (trace s ++ [e]) s.

Definition ws_open (s : ObjectSocket) : bool := bool_decide (_ws s = Some OPEN).

(** [this._ws.send(body)] on an open socket. *)
Definition ws_send (body : jsval) (s : ObjectSocket) : ObjectSocket := log (Sent body) s.

Definition resolve (f : future) (v : jsval) (s : ObjectSocket) : ObjectSocket :=
  log (Settle f (Resolved v)) s.

Definition reject (f : future) (e : exn) (s : ObjectSocket) : ObjectSocket :=
  log (Settle f (Rejected e)) s.

Definition setTimeout (t : timer) (delay : Z) (s : ObjectSocket) : ObjectSocket :=
  log (SetTimer t delay) (set_timers (timers s ++ [t]) s).

Definition clearTimeout (t : timer) (s : ObjectSocket) : ObjectSocket :=
  if bool_decide (t ∈ timers s)
  then log (Cleared t) (set_timers (filter (λ x, x ≠ t) (timers s)) s)
  else s.

(** [this._pending.delete(id)]. *)
Definition pending_delete (id : jstring) (s : ObjectSocket) : ObjectSocket :=
  match _pending s !! id with
  | Some _ => log (Deleted id) (set_pending (delete id (_pending s)) s)
  | None => s
  end.

Definition handlers_of (s : ObjectSocket) (type : jstring) : list handler :=
  default [] (_handlers s !! type).

Definition CHECKPIN_TIMEOUT : Z := 300000.
Definition SENDSTATUS_TIMEOUT : Z := 10000.
Definition DEFAULT_ENROLL_WAITFOR_TIMEOUT : Z := 300000.
Definition SIGNATURE_TIMEOUT : Z := 300000.

Section Transport.

Variable opts : options.

(** *** Subscriptions and lifecycle events *)

Definition onType (type : jstring) (h : handler) (s : ObjectSocket) : ObjectSocket :=
  let set := handlers_of s type in
  if bool_decide (h ∈ set) then s
  else log (Subscribed type h) (set_handlers (<[type := set ++ [h]]> (_handlers s)) s).

Definition offType (type : jstring) (h : handler) (s : ObjectSocket) : ObjectSocket :=
  match _handlers s !! type with
  | Some set =>
      if bool_decide (h ∈ set)
      then log (Unsubscribed type h)
             (set_handlers (<[type := filter (λ x, x ≠ h) set]> (_handlers s)) s)
      else s
  | None => s
  end.

(** Listeners are callbacks of the user, run inside a [try]; the embedding
    records that the event was emitted. *)
Definition _emit (ev : lifecycle) (s : ObjectSocket) : ObjectSocket := log (Emit ev) s.

(** *** Heartbeat *)

Definition ping_envelope : jsval :=
  JObj [(u "type", JStr (default (u "PING") (heartbeat_pingType opts)))].

Definition _startHeartbeat (s : ObjectSocket) : ObjectSocket :=
  let intervalMs := heartbeat_intervalMs opts in
  if (intervalMs =? 0)%Z then s
  else
    let n := calls s in
    set_heartbeatTimer (Some n) (setTimeout (THeartbeat n) intervalMs (set_calls (S n) s)).

Definition _clearHeartbeat (s : ObjectSocket) : ObjectSocket :=
  set_heartbeatTimer None
    match _heartbeatTimer s with
    | Some n => clearTimeout (THeartbeat n) s
    | None => s
    end.

(** *** Requests *)

Definition _nextId (now : N) (s : ObjectSocket) : jstring * ObjectSocket :=
  let s' := set_idCounter (_idCounter s + 1) s in
  (make_id now (_idCounter s'), s').

Definition fail_one (err : exn) (s : ObjectSocket) (entry : jstring * PendingRequest)
  : ObjectSocket :=
  pending_delete entry.1 (reject (settles entry.2) err (clearTimeout (timeout entry.2) s)).

(** [_pending.forEach] visits each entry once; a JavaScript [Map] does so in
    insertion order, [map_to_list] in an order of its own. *)
Definition _failAllPending (err : exn) (s : ObjectSocket) : ObjectSocket :=
  fold_left (fail_one err) (map_to_list (_pending s)) s.

Definition request_timeout_error (type id : jstring) : exn :=
  Error (u "request timeout for " ++ type ++ u " (" ++ id ++ u ")").

Definition send (type : jstring) (payload : jsval) (s : ObjectSocket) : result ObjectSocket :=
  if negb (ws_open s) then Throw (Error (u "socket not open"))
  else
    let env := JObj [(u "type", JStr type); (u "payload", payload)] in
    Ok (ws_send (opt_encode opts env) s).

(** [request(type, payload, timeoutMs)]; [timeoutMs] is [None] when the
    argument is not a number, [now] is what [Date.now()] returns. *)
Definition request (type : jstring) (payload : jsval) (timeoutMs : option Z) (now : N)
    (s : ObjectSocket) : result (future * ObjectSocket) :=
  if negb (ws_open s) then Throw (Error (u "socket not open"))
  else
    let '(id, s1) := _nextId now s in
    let env := JObj [(u "type", JStr type); (u "id", JStr id); (u "payload", payload)] in
    let raw := opt_encode opts env in
    let to := default 15000%Z timeoutMs in
    let t := TRequest id type in
    let s2 := setTimeout t to s1 in
    let s3 := set_pending (<[id := {| settles := FRequest id; timeout := t |}]> (_pending s2)) s2 in
    Ok (FRequest id, ws_send raw s3).

(** *** Replies to the peer *)

Definition _sendReply (to payload error : jsval) (s : ObjectSocket) : ObjectSocket :=
  if negb (truthy (prop_opt to (u "id"))) then s
  else if negb (ws_open s) then s
  else
    let type :=
      match prop_opt to (u "type") with
      | JStr t => t ++ u ":REPLY"
      | _ => u ":REPLY"
      end in
    let env :=
      JObj [(u "type", JStr type); (u "replyTo", prop_opt to (u "id"));
            (u "payload", payload); (u "error", error)] in
    ws_send (opt_encode opts env) s.

(** [ctx.replyError(message)]. *)
Definition replyError (env message : jsval) (s : ObjectSocket) : ObjectSocket :=
  _sendReply env JUndefined
    (JObj [(u "message", message); (u "code", JUndefined); (u "details", JUndefined)]) s.

(** *** The first-wins waits of the workflow client *)

(** The types a wait has subscribed to, with its handler for each. *)
Definition subscriptions (n : nat) (w : wait_info) : list (jstring * handler) :=
  match w with
  | WaitFor _ => [(u "ENROLLMENT_STATUS", HStatus n); (u "ENROLLMENT_RESULT", HResult n)]
  | SendAndWait expectList => imap (fun i t => (t, HExpect n i)) expectList
  end.

(** [off()] of [waitFor] and [cleanup()] of [_sendAndWait]. *)
Definition release (n : nat) (w : wait_info) (s : ObjectSocket) : ObjectSocket :=
  fold_left (fun s' sub => offType sub.1 sub.2 s') (subscriptions n w) (clearTimeout (TWait n) s).

Definition join_or (l : list jstring) : jstring :=
  match l with
  | [] => []
  | t :: r => t ++ concat (List.map (fun x => u " or " ++ x) r)
  end.

(** The callback of the timer of a wait. *)
Definition wait_timeout (n : nat) (s : ObjectSocket) : ObjectSocket :=
  match waits s !! n with
  | Some (WaitFor p) =>
      reject (FWait n) (Error (u "waitFor timeout")) (release n (WaitFor p) s)
  | Some (SendAndWait l) =>
      reject (FWait n) (Error (u "timeout waiting for " ++ join_or l)) (release n (SendAndWait l) s)
  | None => s
  end.

(** *** Dispatch *)

(** [handler(env.payload, ctx)]: the state after the call and how the call
    completed. *)
Definition invoke (h : handler) (env : jsval) (s : ObjectSocket) : ObjectSocket * completion :=
  let p := prop_opt env (u "payload") in
  match h with
  | HUser k => (s, user_handler opts k p)
  | HStatus n =>
      match waits s !! n with
      | Some (WaitFor predicate) =>
          match predicate p with
          | Ok true => (resolve (FWait n) p (release n (WaitFor predicate) s), Returns)
          | _ => (s, Returns)
          end
      | _ => (s, Returns)
      end
  | HResult n =>
      match waits s !! n with
      | Some (WaitFor predicate) => (resolve (FWait n) p (release n (WaitFor predicate) s), Returns)
      | _ => (s, Returns)
      end
  | HExpect n i =>
      match waits s !! n with
      | Some (SendAndWait l) =>
          let isMulti := (1 <? length l)%nat in
          let t := default [] (l !! i) in
          let value := if isMulti then JObj [(u "type", JStr t); (u "payload", p)] else p in
          (resolve (FWait n) value (release n (SendAndWait l) s), Returns)
      | _ => (s, Returns)
      end
  end.

(** The body of the [forEach] callback of [_handleMessage]. *)
Definition deliver (h : handler) (env : jsval) (s : ObjectSocket) : ObjectSocket :=
  let '(s', c) := invoke h env (log (Called h) s) in
  match c with
  | Returns => s'
  | Throws => replyError env (JStr (u "handler threw")) s'
  | Rejects e => set_rejections (rejections s' ++ [(env, e)]) s'
  end.

(** [set.forEach]: the handlers in the order they were added, skipping one
    that was removed before its turn. *)
Fixpoint dispatch (set : list handler) (type : jstring) (env : jsval) (s : ObjectSocket)
  : ObjectSocket :=
  match set with
  | [] => s
  | h :: rest =>
      dispatch rest type env
        (if bool_decide (h ∈ handlers_of s type) then deliver h env s else s)
  end.

(** The [catch] callback of a handler promise that rejected with [e]. *)
Definition handler_rejected (env e : jsval) (s : ObjectSocket) : ObjectSocket :=
  let message :=
    if truthy e && truthy (prop_opt e (u "message")) then prop_opt e (u "message")
    else JStr (u "handler error") in
  replyError env message s.

(** [new Error(env.error.message)] with its [code] and [details]. *)
Definition reply_error (env : jsval) : exn :=
  let error := prop_opt env (u "error") in
  ProtocolError (prop_opt error (u "message")) (prop_opt error (u "code"))
    (prop_opt error (u "details")).

Definition _handleMessage (data : jstring) (s : ObjectSocket) : result ObjectSocket :=
  match opt_decode opts data with
  | Throw e => if tolerantDecode opts then Ok (_emit ErrorEvent s) else Throw e
  | Ok env =>
      if negb (truthy env) || negb (is_string (prop_opt env (u "type"))) then Ok s
      else if truthy (prop_opt env (u "replyTo")) then
        match prop_opt env (u "replyTo") with
        | JStr replyTo =>
            match _pending s !! replyTo with
            | Some pending =>
                let s1 := clearTimeout (timeout pending) s in
                let s2 := pending_delete replyTo s1 in
                if truthy (prop_opt env (u "error"))
                then Ok (reject (settles pending) (reply_error env) s2)
                else Ok (resolve (settles pending) (prop_opt env (u "payload")) s2)
            | None => Ok s
            end
        | _ => Ok s
        end
      else
        match prop_opt env (u "type") with
        | JStr type => Ok (dispatch (handlers_of s type) type env s)
        | _ => Ok s
        end
  end.

(** *** Connection *)

Definition _scheduleReconnect (random : Q) (s : ObjectSocket) : ObjectSocket :=
  if match maxReconnects opts with
     | Some bound => bound <=? _reconnectAttempts s
     | None => false
     end
  then s
  else
    let attempt := _reconnectAttempts s in
    let s1 := set_reconnectAttempts (attempt + 1) s in
    let delay := backoff opts attempt random in
    let s2 := _emit (Reconnecting attempt delay) s1 in
    setTimeout (TReconnect (calls s2)) delay (set_calls (S (calls s2)) s2).

(** [connect()], once the URL is built: [ctor] tells whether creating the
    socket threw. *)
Definition connect (ctor : result unit) (s : ObjectSocket) : future * ObjectSocket :=
  let n := calls s in
  let s1 := set_calls (S n) s in
  match ctor with
  | Ok _ => (FConnect n, set_ws_owner n (set_ws (Some CONNECTING) s1))
  | Throw err => (FConnect n, reject (FConnect n) err s1)
  end.

Definition ws_onopen (s : ObjectSocket) : ObjectSocket :=
  let s1 := set_reconnectAttempts 0 (set_connected true s) in
  let s2 := _emit Connected s1 in
  let s3 := _startHeartbeat s2 in
  resolve (FConnect (ws_owner s3)) JUndefined s3.

Definition ws_onerror (s : ObjectSocket) : ObjectSocket := _emit ErrorEvent s.

Definition ws_onclose (random : Q) (s : ObjectSocket) : ObjectSocket :=
  let wasConnected := _connected s in
  let s1 := set_connected false s in
  let s2 := _clearHeartbeat s1 in
  let s3 := _emit Disconnected s2 in
  let s4 := if wasConnected then _failAllPending (Error (u "socket closed")) s3 else s3 in
  if autoReconnect s4 then _scheduleReconnect random s4 else s4.

(** [close(code, reason)]: the socket, if it is not closed yet, starts its
    closing handshake. *)
Definition close (s : ObjectSocket) : ObjectSocket :=
  let s1 := set_autoReconnect false s in
  let s2 :=
    match _ws s1 with
    | Some CONNECTING | Some OPEN => set_ws (Some CLOSING) s1
    | _ => s1
    end in
  _clearHeartbeat s2.

Definition heartbeat_tick (s : ObjectSocket) : ObjectSocket :=
  if negb (ws_open s) then s else ws_send (opt_encode opts ping_envelope) s.

(** *** The workflow client *)

Definition subscribe_all (subs : list (jstring * handler)) (s : ObjectSocket) : ObjectSocket :=
  fold_left (fun s' sub => onType sub.1 sub.2 s') subs s.

Definition _sendAndWait (type : jstring) (payload : jsval) (expectList : list jstring)
    (timeoutMs : Z) (s : ObjectSocket) : result (future * ObjectSocket) :=
  s1 ← send type payload s;
  let n := calls s1 in
  let w := SendAndWait expectList in
  let s2 := set_waits (<[n := w]> (waits s1)) (set_calls (S n) s1) in
  let s3 := setTimeout (TWait n) timeoutMs s2 in
  Ok (FWait n, subscribe_all (subscriptions n w) s3).

Definition waitFor (predicate : jsval -> result bool) (timeoutMs : option Z)
    (s : ObjectSocket) : future * ObjectSocket :=
  let n := calls s in
  let w := WaitFor predicate in
  let s1 := set_waits (<[n := w]> (waits s)) (set_calls (S n) s) in
  let s2 := setTimeout (TWait n) (default DEFAULT_ENROLL_WAITFOR_TIMEOUT timeoutMs) s1 in
  (FWait n, subscribe_all (subscriptions n w) s2).

(** *** The socket as a machine

    What can happen to a socket: calls of its methods and of those of the
    workflow client, the callbacks of its WebSocket, its timers, and the
    late rejection of a handler promise. *)

Inductive event :=
| Connect (ctor : result unit)
| WsOpen
| WsMessage (data : jstring)
| WsError
| WsClose (random : Q)
| Close
| Send (type : jstring) (payload : jsval)
| Request (type : jstring) (payload : jsval) (timeoutMs : option Z) (now : N)
| OnType (type : jstring) (k : nat)
| OffType (type : jstring) (k : nat)
| WaitForCall (predicate : jsval -> result bool) (timeoutMs : option Z)
| SendAndWaitCall (type : jstring) (payload : jsval) (expectList : list jstring) (timeoutMs : Z)
| TimerFires (t : timer) (ctor : result unit)
| HandlerRejected (i : nat).

Definition timer_callback (t : timer) (ctor : result unit) (s : ObjectSocket) : ObjectSocket :=
  match t with
  | TRequest id type => reject (FRequest id) (request_timeout_error type id) (pending_delete id s)
  | TWait n => wait_timeout n s
  | TReconnect _ => (connect ctor s).2
  | THeartbeat _ => heartbeat_tick s
  end.

(** A timeout leaves the table of timers when it fires, an interval stays. *)
Definition fire (t : timer) (ctor : result unit) (s : ObjectSocket) : ObjectSocket :=
  let s1 :=
    match t with
    | THeartbeat _ => s
    | _ => set_timers (filter (λ x, x ≠ t) (timers s)) s
    end in
  timer_callback t ctor (log (Fired t) s1).

(** A call that throws leaves the socket as it was. *)
Definition handle (ev : event) (s : ObjectSocket) : ObjectSocket :=
  match ev with
  | Connect ctor => (connect ctor s).2
  | WsOpen => ws_onopen (set_ws (Some OPEN) s)
  | WsMessage data =>
      match _handleMessage data s with
      | Ok s' => s'
      | Throw _ => s
      end
  | WsError => ws_onerror s
  | WsClose random => ws_onclose random (set_ws (Some CLOSED) s)
  | Close => close s
  | Send type payload =>
      match send type payload s with
      | Ok s' => s'
      | Throw _ => s
      end
  | Request type payload timeoutMs now =>
      match request type payload timeoutMs now s with
      | Ok r => r.2
      | Throw _ => s
      end
  | OnType type k => onType type (HUser k) s
  | OffType type k => offType type (HUser k) s
  | WaitForCall predicate timeoutMs => (waitFor predicate timeoutMs s).2
  | SendAndWaitCall type payload expectList timeoutMs =>
      match _sendAndWait type payload expectList timeoutMs s with
      | Ok r => r.2
      | Throw _ => s
      end
  | TimerFires t ctor => fire t ctor s
  | HandlerRejected i =>
      match rejections s !! i with
      | Some (env, e) => handler_rejected env e (set_rejections (delete i (rejections s)) s)
      | None => s
      end
  end.

(** What the environment does and does not do: a WebSocket opens once,
    delivers messages while it is open and closes once; a timer fires only
    while it is set; [connect] is called, by the user or by the reconnect
    timer, only when no socket is alive. *)
Definition no_live_socket (s : ObjectSocket) : bool :=
  match _ws s with
  | None | Some CLOSED => true
  | _ => false
  end.

Definition enabled (ev : event) (s : ObjectSocket) : bool :=
  match ev with
  | Connect _ => no_live_socket s
  | WsOpen => bool_decide (_ws s = Some CONNECTING)
  | WsMessage _ => ws_open s
  | WsError | WsClose _ => negb (no_live_socket s)
  | TimerFires t _ =>
      bool_decide (t ∈ timers s)
      && match t with
         | TReconnect _ => no_live_socket s
         | _ => true
         end
  | HandlerRejected i => bool_decide (i < length (rejections s))%nat
  | _ => true
  end.

Fixpoint run (evs : list event) (s : ObjectSocket) : option ObjectSocket :=
  match evs with
  | [] => Some s
  | ev :: rest => if enabled ev s then run rest (handle ev s) else None
  end.

Definition reachable (s : ObjectSocket) : Prop :=
  ∃ auto evs, run evs (new_socket auto) = Some s.

End Transport.

(** The options [EnrollmentClient] builds its socket with; the user supplies
    none of the handlers of such a socket. *)
Definition enrollment_options : options :=
  {| maxReconnects := None;
     backoff := defaultBackoff;
     heartbeat_intervalMs := 0;
     heartbeat_pingType := None;
     opt_encode := encode;
     opt_decode := decode;
     tolerantDecode := true;
     user_handler := fun _ _ => Returns |}.

(** The options of a socket created without any: JSON in both directions. *)
Definition default_options (handlers : nat -> jsval -> completion) : options :=
  {| maxReconnects := None;
     backoff := defaultBackoff;
     heartbeat_intervalMs := 25000;
     heartbeat_pingType := Some (u "PING");
     opt_encode := fun env => env;
     opt_decode := fun raw =>
       match JSON_parse raw with
       | Some v => Ok v
       | None => Throw SyntaxError
       end;
     tolerantDecode := true;
     user_handler := handlers |}.

(** The five operations.  An operation fails where [_sendAndWait] throws;
    [requestManagerInfo], an [async] function, then returns a future that is
    already rejected with what was thrown. *)
Inductive operation := requestManagerInfo | enroll | sign | checkPIN | sendStatus.

Definition run_operation (op : operation) (params : jsval) (s : ObjectSocket)
  : result (future * ObjectSocket) :=
  match op with
  | requestManagerInfo =>
      _sendAndWait enrollment_options (u "Info_Enrollment") params [u "MANAGER_INFO"] 60000 s
  | enroll =>
      _sendAndWait enrollment_options (u "Enrollment") params [u "ENROLLMENT_RESULT"] 200000 s
  | sign =>
      _sendAndWait enrollment_options (u "Sign") params
        [u "SIGN_RESULT"; u "SUCCESS.SIGNATURE_ADDED"; u "SUCCESS.SIGNATURE_ENDED"]
        SIGNATURE_TIMEOUT s
  | sendStatus =>
      _sendAndWait enrollment_options (u "Info_Enrollment") params [u "ENROLLMENT_STATUS"]
        SENDSTATUS_TIMEOUT s
  | checkPIN =>
      _sendAndWait enrollment_options (u "CheckPIN") params
        [u "SUCCESS.PIN_SERIAL"; u "ERROR.WRONG_PIN"] CHECKPIN_TIMEOUT s
  end.

(** The reply the transport synthesises for a handler that failed on
    envelope [to]. *)
Definition error_reply (to message : jsval) : jsval :=
  JObj [(u "type",
         JStr (match prop_opt to (u "type") with
               | JStr t => t ++ u ":REPLY"
               | _ => u ":REPLY"
               end));
        (u "replyTo", prop_opt to (u "id"));
        (u "payload", JUndefined);
        (u "error",
         JObj [(u "message", message); (u "code", JUndefined); (u "details", JUndefined)])].

(** What the [catch] of a rejected handler promise reports. *)
Definition rejection_message (e : jsval) : jsval :=
  if truthy e && truthy (prop_opt e (u "message")) then prop_opt e (u "message")
  else JStr (u "handler error").

Definition is_user_handler (h : handler) : bool :=
  match h with HUser _ => true | _ => false end.

(** *** Reading a trace *)

Definition settles_of (f : future) (tr : list effect) : list outcome :=
  omap (fun e => match e with
                 | Settle g o => if bool_decide (g = f) then Some o else None
                 | _ => None
                 end) tr.

Definition sent_frames (tr : list effect) : list jsval :=
  omap (fun e => match e with Sent body => Some body | _ => None end) tr.

Definition called (tr : list effect) : list handler :=
  omap (fun e => match e with Called h => Some h | _ => None end) tr.

Definition emitted (tr : list effect) : list lifecycle :=
  omap (fun e => match e with Emit ev => Some ev | _ => None end) tr.

(** For the request [id]: the times its timer was set, its future was
    settled, its entry left the table, and its timer was released, that is,
    cancelled while set or fired. *)
Definition count (P : effect -> bool) (tr : list effect) : nat :=
  length (filter (λ e, P e = true) tr).

Definition is_issue (id : jstring) (e : effect) : bool :=
  match e with
  | SetTimer (TRequest id' _) _ => bool_decide (id' = id)
  | _ => false
  end.

Definition is_deletion (id : jstring) (e : effect) : bool :=
  match e with
  | Deleted id' => bool_decide (id' = id)
  | _ => false
  end.

Definition is_timer_release (id : jstring) (e : effect) : bool :=
  match e with
  | Cleared (TRequest id' _) | Fired (TRequest id' _) => bool_decide (id' = id)
  | _ => false
  end.

Definition issues (id : jstring) (tr : list effect) : nat := count (is_issue id) tr.
Definition settlements (id : jstring) (tr : list effect) : nat :=
  length (settles_of (FRequest id) tr).
Definition deletions (id : jstring) (tr : list effect) : nat := count (is_deletion id) tr.
Definition timer_releases (id : jstring) (tr : list effect) : nat :=
  count (is_timer_release id) tr.

(** For a wait: the releases of its timer and the removals of one of its
    subscriptions. *)
Definition is_release (t : timer) (e : effect) : bool :=
  match e with
  | Cleared t' | Fired t' => bool_decide (t' = t)
  | _ => false
  end.

Definition is_unsubscription (type : jstring) (h : handler) (e : effect) : bool :=
  match e with
  | Unsubscribed type' h' => bool_decide (type' = type ∧ h' = h)
  | _ => false
  end.

Definition releases_of (t : timer) (tr : list effect) : nat := count (is_release t) tr.

Definition unsubscriptions_of (type : jstring) (h : handler) (tr : list effect) : nat :=
  count (is_unsubscription type h) tr.

(** *** Invariants of the request table

    An id is issued by the socket from its counter.  While its entry is in
    the table, a request has its own future and its own timer, set, and
    nothing about it has happened yet; once the entry is gone, so is the
    timer, and settlement, deletion and release have each happened as often
    as the request was issued: once. *)
Definition issued_id (s : ObjectSocket) (id : jstring) : Prop :=
  ∃ now c, id = make_id now c ∧ c <= _idCounter s.

Definition request_ok (s : ObjectSocket) (id : jstring) : Prop :=
  (0 < issues id (trace s) -> issued_id s id)%nat
  ∧ match _pending s !! id with
    | Some p =>
        settles p = FRequest id
        ∧ (∃ ty, timeout p = TRequest id ty ∧ ∀ ty', TRequest id ty' ∈ timers s <-> ty' = ty)
        ∧ issues id (trace s) = 1%nat
        ∧ settlements id (trace s) = 0%nat
        ∧ deletions id (trace s) = 0%nat
        ∧ timer_releases id (trace s) = 0%nat
    | None =>
        (∀ ty, TRequest id ty ∉ timers s)
        ∧ (issues id (trace s) <= 1)%nat
        ∧ settlements id (trace s) = issues id (trace s)
        ∧ deletions id (trace s) = issues id (trace s)
        ∧ timer_releases id (trace s) = issues id (trace s)
    end.

Definition requests_ok (s : ObjectSocket) : Prop := ∀ id, request_ok s id.


(** The part of a socket that requests live in. *)
Definition is_request_timer (t : timer) : bool :=
  match t with TRequest _ _ => true | _ => false end.

Definition is_request_effect (e : effect) : bool :=
  match e with
  | Settle (FRequest _) _ | Deleted _ => true
  | SetTimer t _ | Cleared t | Fired t => is_request_timer t
  | _ => false
  end.

Definition request_view (s : ObjectSocket)
  : gmap jstring PendingRequest * list timer * list effect * N :=
  (_pending s,
   filter (λ t, is_request_timer t = true) (timers s),
   filter (λ e, is_request_effect e = true) (trace s),
   _idCounter s).

(** The same with the state of the connection. *)
Definition core_view (s : ObjectSocket) :=
  (request_view s, _ws s, _connected s).

(** *** Invariants of a first-wins wait

    The wait a handler belongs to, the effects that concern wait [n], and
    the relation between two states of a socket that differ in nothing wait
    [n] can see. *)
Definition owner (h : handler) : option nat :=
  match h with
  | HUser _ => None
  | HStatus n | HResult n | HExpect n _ => Some n
  end.

Definition is_wait_effect (n : nat) (e : effect) : bool :=
  match e with
  | Settle (FWait m) _ | SetTimer (TWait m) _ | Cleared (TWait m) | Fired (TWait m) =>
      bool_decide (m = n)
  | Subscribed _ h | Unsubscribed _ h => bool_decide (owner h = Some n)
  | _ => false
  end.

Definition same_wait (n : nat) (s s' : ObjectSocket) : Prop :=
  waits s' !! n = waits s !! n
  ∧ (TWait n ∈ timers s' <-> TWait n ∈ timers s)
  ∧ (∀ t h, owner h = Some n -> (h ∈ handlers_of s' t <-> h ∈ handlers_of s t))
  ∧ filter (λ e, is_wait_effect n e = true) (trace s')
    = filter (λ e, is_wait_effect n e = true) (trace s)
  ∧ (calls s <= calls s')%nat.

(** A wait is live, with its timer set and its handlers subscribed and
    nothing released, or it is done: settled once, with outcome [o], its
    timer released once and each subscription removed once. *)
Definition wait_live (n : nat) (w : wait_info) (s : ObjectSocket) : Prop :=
  TWait n ∈ timers s
  ∧ (∀ sub, sub ∈ subscriptions n w -> sub.2 ∈ handlers_of s sub.1)
  ∧ settles_of (FWait n) (trace s) = []
  ∧ releases_of (TWait n) (trace s) = 0%nat
  ∧ (∀ sub, sub ∈ subscriptions n w -> unsubscriptions_of sub.1 sub.2 (trace s) = 0%nat).

Definition wait_done (n : nat) (w : wait_info) (o : outcome) (s : ObjectSocket) : Prop :=
  (TWait n ∉ timers s)
  ∧ (∀ t h, owner h = Some n -> h ∉ handlers_of s t)
  ∧ settles_of (FWait n) (trace s) = [o]
  ∧ releases_of (TWait n) (trace s) = 1%nat
  ∧ (∀ sub, sub ∈ subscriptions n w -> unsubscriptions_of sub.1 sub.2 (trace s) = 1%nat).

Definition wait_ok (n : nat) (w : wait_info) (s : ObjectSocket) : Prop :=
  (n < calls s)%nat
  ∧ waits s !! n = Some w
  ∧ (∀ t h, owner h = Some n -> h ∈ handlers_of s t -> (t, h) ∈ subscriptions n w)
  ∧ (wait_live n w s ∨ ∃ o, wait_done n w o s).

(** A number that no wait has been given yet, and the numbering of a
    socket: waits are numbered from the counter of calls. *)
Definition fresh_wait (n : nat) (s : ObjectSocket) : Prop :=
  waits s !! n = None
  ∧ (TWait n ∉ timers s)
  ∧ (∀ t h, owner h = Some n -> h ∉ handlers_of s t)
  ∧ filter (λ e, is_wait_effect n e = true) (trace s) = [].

Definition numbered (s : ObjectSocket) : Prop :=
  ∀ n, (calls s <= n)%nat -> fresh_wait n s.

(** The event an inbound frame is dispatched as, if it is: its type and its
    payload.  A frame that does not decode, or decodes to something without
    a type, or is a reply, is not dispatched. *)
Definition inbound_event (opts : options) (data : jstring) : option (jstring * jsval) :=
  match opt_decode opts data with
  | Ok env =>
      if truthy env && negb (truthy (prop_opt env (u "replyTo"))) then
        match prop_opt env (u "type") with
        | JStr type => Some (type, prop_opt env (u "payload"))
        | _ => None
        end
      else None
  | Throw _ => None
  end.

(** What an event of type [t] with payload [p] resolves a wait with, if it
    is one the wait is waiting for: for [waitFor], a result or a status that
    satisfies the predicate; for an operation, an event of a listed type. *)
Definition resolution (w : wait_info) (t : jstring) (p : jsval) : option jsval :=
  match w with
  | WaitFor predicate =>
      if bool_decide (t = u "ENROLLMENT_RESULT") then Some p
      else if bool_decide (t = u "ENROLLMENT_STATUS") then
        match predicate p with
        | Ok true => Some p
        | _ => None
        end
      else None
  | SendAndWait expectList =>
      if bool_decide (t ∈ expectList) then
        Some (if (1 <? length expectList)%nat
              then JObj [(u "type", JStr t); (u "payload", p)]
              else p)
      else None
  end.

Definition timeout_error (w : wait_info) : exn :=
  match w with
  | WaitFor _ => Error (u "waitFor timeout")
  | SendAndWait expectList => Error (u "timeout waiting for " ++ join_or expectList)
  end.

(** First wins: from [s1] on, wait [n] is live or done, and stays done with
    the outcome it has; while it is live its timer rejects it, an event it
    is waiting for resolves it, and nothing else touches it. *)
Definition first_wins (opts : options) (n : nat) (w : wait_info) (s1 : ObjectSocket) : Prop :=
  ∀ evs s2, run opts evs s1 = Some s2 ->
    (wait_live n w s2 ∨ ∃ o, wait_done n w o s2)
    ∧ ∀ ev, enabled ev s2 = true ->
        let s3 := handle opts ev s2 in
        (∀ o, wait_done n w o s2 -> wait_done n w o s3)
        ∧ (wait_live n w s2 ->
           match ev with
           | TimerFires (TWait m) _ =>
               if bool_decide (m = n) then wait_done n w (Rejected (timeout_error w)) s3
               else wait_live n w s3
           | WsMessage data =>
               match inbound_event opts data with
               | Some (t, p) =>
                   match resolution w t p with
                   | Some v => wait_done n w (Resolved v) s3
                   | None => wait_live n w s3
                   end
               | None => wait_live n w s3
               end
           | _ => wait_live n w s3
           end).



(** *** Sample sockets

    A socket with JSON in both directions whose handler 0 throws and whose
    other handlers reject. *)
Definition failing_handlers : options :=
  default_options (fun k _ => match k with O => Throws | _ => Rejects JNull end).

(** A socket of the workflow client that has connected and is open. *)
Definition open_socket : ObjectSocket :=
  handle enrollment_options WsOpen
    (handle enrollment_options (Connect (Ok ())) (new_socket true)).

Definition request_frame (id : jstring) : jstring :=
  frame2 (u "type") (quoted (u "X")) (u "id") (quoted id).

(** ** Reconnection, heartbeat and subscriptions

    The part of a socket that reconnection and the heartbeat live in: the
    flags and counters of the connection, the reconnect and heartbeat timers
    that are set, and the reconnects scheduled so far. *)
Definition is_link_timer (t : timer) : bool :=
  match t with
  | TReconnect _ | THeartbeat _ => true
  | _ => false
  end.

Definition is_reconnect_effect (e : effect) : bool :=
  match e with
  | Emit (Reconnecting _ _) | SetTimer (TReconnect _) _ => true
  | _ => false
  end.

Definition link_view (s : ObjectSocket) :=
  (autoReconnect s, _ws s, _connected s, _reconnectAttempts s, _heartbeatTimer s,
   filter (λ t, is_link_timer t = true) (timers s),
   filter (λ e, is_reconnect_effect e = true) (trace s)).

(** What the bound on reconnects needs of a socket. *)
Definition retry_view (s : ObjectSocket) :=
  (_reconnectAttempts s, filter (λ e, is_reconnect_effect e = true) (trace s)).

(** The attempts stay within [maxReconnects], and every reconnect announced
    had an attempt number below it. *)
Definition retries_ok (opts : options) (s : ObjectSocket) : Prop :=
  ∀ bound, maxReconnects opts = Some bound ->
           _reconnectAttempts s <= bound
           ∧ ∀ attempt inMs, Emit (Reconnecting attempt inMs) ∈ trace s -> attempt < bound.

(** The heartbeat timer that is set is the one the socket remembers, and it
    is set only on an open socket and for an interval that is not 0. *)
Definition heartbeat_ok (opts : options) (s : ObjectSocket) : Prop :=
  (∀ n, THeartbeat n ∈ timers s <-> _heartbeatTimer s = Some n)
  ∧ (is_Some (_heartbeatTimer s) ->
     _ws s = Some OPEN ∧ heartbeat_intervalMs opts ≠ 0%Z).

Definition link_ok (opts : options) (s : ObjectSocket) : Prop :=
  retries_ok opts s ∧ heartbeat_ok opts s.

(** A set of handlers holds each handler once. *)
Definition handlers_ok (s : ObjectSocket) : Prop := ∀ type, NoDup (handlers_of s type).


(** A socket with the default options, JSON in both directions, whose
    handlers all return. *)
Definition json_options : options := default_options (fun _ _ => Returns).

Definition json_socket : ObjectSocket :=
  handle json_options WsOpen (handle json_options (Connect (Ok ())) (new_socket true)).

(** ** The workflow client and its status polling

    [EnrollmentClient] owns one socket, remembers the future of its last
    operation in [response] and the interval of its status polling in
    [_statusTimer].  [intervals] are the intervals that are set and not
    cleared, each with its period and the parameters its callback sends;
    [interval_ids] counts the ids [setInterval] has handed out, which start
    at 1 and so are truthy. *)
Definition STATUS_POLLING_INTERVAL : Z := 5000.

Record EnrollmentClient := mkClient {
  sock : ObjectSocket;
  response : option future;
  _statusTimer : option nat;
  intervals : list (nat * Z * jsval);
  interval_ids : nat
}.

Definition new_client (auto : bool) : EnrollmentClient :=
  {| sock := new_socket auto; response := None; _statusTimer := None;
     intervals := []; interval_ids := 0 |}.

Definition set_sock (v : ObjectSocket) (c : EnrollmentClient) : EnrollmentClient :=
  {| sock := v; response := response c; _statusTimer := _statusTimer c;
     intervals := intervals c; interval_ids := interval_ids c |}.

Definition set_response (v : option future) (c : EnrollmentClient) : EnrollmentClient :=
  {| sock := sock c; response := v; _statusTimer := _statusTimer c;
     intervals := intervals c; interval_ids := interval_ids c |}.

Definition clearInterval (id : nat) (c : EnrollmentClient) : EnrollmentClient :=
  {| sock := sock c; response := response c; _statusTimer := _statusTimer c;
     intervals := filter (λ i, i.1.1 ≠ id) (intervals c); interval_ids := interval_ids c |}.

(** An operation called on the client: all but [requestManagerInfo] store
    the future they return in [response]. *)
Definition client_operation (op : operation) (params : jsval) (c : EnrollmentClient)
  : result (future * EnrollmentClient) :=
  match run_operation op params (sock c) with
  | Ok (f, s) =>
      Ok (f, match op with
             | requestManagerInfo => set_sock s c
             | _ => set_response (Some f) (set_sock s c)
             end)
  | Throw e => Throw e
  end.

Definition stopStatusPolling (c : EnrollmentClient) : EnrollmentClient :=
  let c1 := match _statusTimer c with
            | Some id => clearInterval id c
            | None => c
            end in
  {| sock := sock c1; response := response c1; _statusTimer := None;
     intervals := intervals c1; interval_ids := interval_ids c1 |}.

(** [startStatusPolling(params, everyMs)]; [everyMs] is [None] when the
    argument is null or undefined. *)
Definition startStatusPolling (params : jsval) (everyMs : option Z) (c : EnrollmentClient)
  : EnrollmentClient :=
  let everyMs := match everyMs with
                 | None => STATUS_POLLING_INTERVAL
                 | Some ms => ms
                 end in
  let c1 := stopStatusPolling c in
  let id := S (interval_ids c1) in
  {| sock := sock c1; response := response c1; _statusTimer := Some id;
     intervals := (id, everyMs, params) :: intervals c1; interval_ids := id |}.

(** The callback of the polling interval. *)
Definition poll_tick (params : jsval) (c : EnrollmentClient) : result EnrollmentClient :=
  if _connected (sock c) then
    match client_operation sendStatus params c with
    | Ok (_, c') => Ok c'
    | Throw e => Throw e
    end
  else Ok c.

(** What happens to a client: an event of its socket, an operation, a call
    that starts or stops the polling (the function [startStatusPolling]
    returns is [stopStatusPolling]), or an interval that fires. *)
Inductive client_event :=
  | Transport (ev : event)
  | Operation (op : operation) (params : jsval)
  | StartStatusPolling (params : jsval) (everyMs : option Z)
  | StopStatusPolling
  | IntervalFires (id : nat).

Definition interval_params (id : nat) (c : EnrollmentClient) : option jsval :=
  match filter (λ i, i.1.1 = id) (intervals c) with
  | (_, _, params) :: _ => Some params
  | [] => None
  end.

(** A call or a callback that throws leaves the client as it was. *)
Definition client_handle (ev : client_event) (c : EnrollmentClient) : EnrollmentClient :=
  match ev with
  | Transport ev => set_sock (handle enrollment_options ev (sock c)) c
  | Operation op params =>
      match client_operation op params c with
      | Ok r => r.2
      | Throw _ => c
      end
  | StartStatusPolling params everyMs => startStatusPolling params everyMs c
  | StopStatusPolling => stopStatusPolling c
  | IntervalFires id =>
      match interval_params id c with
      | Some params =>
          match poll_tick params c with
          | Ok c' => c'
          | Throw _ => c
          end
      | None => c
      end
  end.

(** An interval fires only while it is set. *)
Definition client_enabled (ev : client_event) (c : EnrollmentClient) : bool :=
  match ev with
  | Transport ev => enabled ev (sock c)
  | IntervalFires id => bool_decide (is_Some (interval_params id c))
  | _ => true
  end.

Fixpoint client_run (evs : list client_event) (c : EnrollmentClient) : option EnrollmentClient :=
  match evs with
  | [] => Some c
  | ev :: rest => if client_enabled ev c then client_run rest (client_handle ev c) else None
  end.

Definition client_reachable (c : EnrollmentClient) : Prop :=
  ∃ auto evs, client_run evs (new_client auto) = Some c.

(** A client that has connected, started to poll the status of participant
    [p1] and then called [close]: the socket is closing and still counts as
    connected. *)
Definition polling_client : EnrollmentClient :=
  client_handle (StartStatusPolling (JObj [(u "ID", JStr (u "p1"))]) None)
    (client_handle (Transport WsOpen)
       (client_handle (Transport (Connect (Ok ()))) (new_client true))).


(** The polling interval the client remembers is the only interval set. *)
Definition polling_ok (c : EnrollmentClient) : Prop :=
  match _statusTimer c with
  | Some id => ∃ everyMs params, intervals c = [(id, everyMs, params)]
  | None => intervals c = []
  end.

(** * Properties

    ** Reconnection backoff *)




(** ** The decoder *)

Lemma prop_participants msg :
  nullish msg = false -> prop msg (u "ParticipantsEnrolled") = Ok (participants msg).
Proof. destruct msg; simpl; intros; try discriminate; reflexivity. Qed.

Lemma loose_eq_zero_throws v :
  tostring_throws v = true -> loose_eq_zero v = Throw TypeError.
Proof.
  intros H. destruct v; simpl in H; try discriminate;
    unfold loose_eq_zero, to_number_class; simpl; rewrite H; reflexivity.
Qed.

Lemma loose_eq_zero_total v :
  tostring_throws v = false -> loose_eq_zero v = Ok (or_false (loose_eq_zero v)).
Proof.
  intros H. destruct v; try reflexivity;
    unfold loose_eq_zero, to_number_class; rewrite H; reflexivity.
Qed.

Lemma greater_than_zero_total v :
  tostring_throws v = false -> greater_than_zero v = Ok (or_false (greater_than_zero v)).
Proof.
  intros H. unfold greater_than_zero, to_number_class. rewrite H. reflexivity.
Qed.

Lemma participants_of_primitive msg :
  nullish msg = false -> truthy msg && is_object msg = false -> participants msg = JUndefined.
Proof. destruct msg; simpl; intros; try discriminate; reflexivity. Qed.

Lemma decode_of_parse raw :
  let msg := tolerant_parse raw in
  if nullish msg || tostring_throws (participants msg)
  then decode raw = Throw TypeError
  else decoded_type (decode raw) = Some (type_of_tag (first_match decoder_rules msg)).
Proof.
  intros msg. unfold decode. fold msg. generalize msg. clear msg raw. intros msg.
  cbv zeta. fold (message_text msg).
  set (m := message_text msg). set (mUpper := toUpperCase m).
  set (hex := test_hex64 (if startsWith (u "0x") m then slice_from 2 m else m)).
  destruct (nullish msg) eqn:Hn.
  { destruct msg; try discriminate; reflexivity. }
  rewrite (prop_participants _ Hn). rewrite orb_false_l.
  destruct (tostring_throws (participants msg)) eqn:Ht.
  { destruct (truthy msg && is_object msg) eqn:Hg.
    - cbn [mbind result_bind]. rewrite (loose_eq_zero_throws _ Ht). reflexivity.
    - rewrite (participants_of_primitive _ Hn Hg) in Ht. discriminate. }
  assert (Hinfo :
    (if truthy msg && is_object msg
     then Ok (participants msg) ≫= (λ pe, loose_eq_zero pe) else Ok false)
    = Ok (or_false (loose_eq_zero (participants msg)))).
  { destruct (truthy msg && is_object msg) eqn:Hg.
    - cbn [mbind result_bind]. apply loose_eq_zero_total, Ht.
    - rewrite (participants_of_primitive _ Hn Hg). reflexivity. }
  rewrite Hinfo. clear Hinfo.
  unfold first_match, decoder_rules. cbn [List.find fst snd].
  cbn [mbind result_bind].
  destruct (or_false (loose_eq_zero (participants msg))); [reflexivity | ].
  rewrite (greater_than_zero_total _ Ht). cbn [mbind result_bind].
  destruct (or_false (greater_than_zero (participants msg))); [reflexivity | ].
  unfold text_equals, is_signature_marker, text_is_hex64, text_equals.
  fold m. fold mUpper. fold hex.
  destruct (jstr_eqb mUpper (u "SUCCESS.ENROLL")) eqn:E1; [reflexivity | ].
  destruct (jstr_eqb mUpper (u "SUCCESS.SIGNATURE_ADDED")) eqn:E2; [reflexivity | ].
  destruct (jstr_eqb mUpper (u "SUCCESS.SIGNATURE_ENDED")) eqn:E3; [reflexivity | ].
  cbn [orb existsb tx_fields].
  destruct hex; [reflexivity | ].
  cbn [orb negb andb].
  destruct (truthy (prop_opt msg (u "TxHash"))); [reflexivity | ].
  destruct (truthy (prop_opt msg (u "txHash"))); [reflexivity | ].
  destruct (truthy (prop_opt msg (u "txid"))); [reflexivity | ].
  destruct (truthy (prop_opt msg (u "TxId"))); [reflexivity | ].
  destruct (truthy (prop_opt msg (u "TransactionId"))); [reflexivity | ].
  cbn [orb].
  destruct (has_serial msg); [reflexivity | ].
  destruct (jstr_eqb m []); cbn [negb andb].
  - destruct (jstr_eqb mUpper (u "ERROR.WRONG_PIN")); reflexivity.
  - destruct (jstr_eqb mUpper (u "ERROR.WRONG_PIN")); cbn [negb andb]; [reflexivity | ].
    rewrite andb_true_r.
    destruct (startsWith (u "SUCCESS.SIGNATURE_") mUpper); reflexivity.
Qed.

(** Facts about lower-case hexadecimal text. *)

Lemma lower_hex_cases c :
  is_lower_hex c = true -> (48 <= c <= 57) \/ (97 <= c <= 102).
Proof.
  unfold is_lower_hex, is_digit. intros H.
  apply orb_true_iff in H as [H | H]; apply andb_true_iff in H as [H1 H2];
    apply N.leb_le in H1, H2; lia.
Qed.

Lemma lower_hex_not_space c : is_lower_hex c = true -> is_js_space c = false.
Proof.
  intros H. apply lower_hex_cases in H. unfold is_js_space.
  repeat (apply orb_false_iff; split);
    try (apply N.eqb_neq; lia);
    apply andb_false_iff; left; apply N.leb_gt; lia.
Qed.

Lemma lower_hex_is_hex c : is_lower_hex c = true -> is_hex c = true.
Proof.
  unfold is_lower_hex, is_hex. intros H.
  apply orb_true_iff in H as [H | H]; rewrite H; [reflexivity | ].
  rewrite orb_true_r. reflexivity.
Qed.

Lemma lower_hex_upper_unit c : is_lower_hex c = true -> length (upper_unit c) = 1%nat.
Proof.
  intros H. apply lower_hex_cases in H. unfold upper_unit.
  destruct ((97 <=? c) && (c <=? 122)); [reflexivity | ].
  assert (Hlt : (c <? 128) = true) by (apply N.ltb_lt; lia).
  rewrite Hlt. reflexivity.
Qed.

Lemma trim_start_id s :
  forallb (fun c => negb (is_js_space c)) s = true -> trim_start s = s.
Proof.
  destruct s as [|c r]; [reflexivity | ]. simpl. intros H.
  apply andb_true_iff in H as [H _]. apply negb_true_iff in H. rewrite H. reflexivity.
Qed.

Lemma trim_id s :
  forallb (fun c => negb (is_js_space c)) s = true -> trim s = s.
Proof.
  intros H. unfold trim. rewrite (trim_start_id s H).
  rewrite trim_start_id; [apply rev_involutive | ].
  rewrite forallb_forall in *. intros c Hc. apply H. apply in_rev. exact Hc.
Qed.

Lemma lower_hex_no_space s :
  forallb is_lower_hex s = true -> forallb (fun c => negb (is_js_space c)) s = true.
Proof.
  rewrite !forallb_forall. intros H c Hc. apply negb_true_iff, lower_hex_not_space, H, Hc.
Qed.

Lemma toUpperCase_length_hex s :
  forallb is_lower_hex s = true -> length (toUpperCase s) = length s.
Proof.
  unfold toUpperCase. induction s as [|c r IH]; [reflexivity | ].
  simpl. intros H. apply andb_true_iff in H as [Hc Hr].
  rewrite length_app, (lower_hex_upper_unit c Hc), (IH Hr). reflexivity.
Qed.

Lemma jstr_eqb_length a b : length a ≠ length b -> jstr_eqb a b = false.
Proof.
  intros H. unfold jstr_eqb. apply bool_decide_eq_false. intros E. apply H. now rewrite E.
Qed.

Lemma hex64_not_prefixed s :
  lower_hex64 s -> startsWith (u "0x") s = false.
Proof.
  intros [Hlen Hall].
  destruct s as [|a [|b r]]; try discriminate.
  simpl in Hall. apply andb_true_iff in Hall as [_ Hall].
  apply andb_true_iff in Hall as [Hb _]. apply lower_hex_cases in Hb.
  change (startsWith (u "0x") (a :: b :: r)) with ((48 =? a) && ((120 =? b) && true)).
  assert (Hx : (120 =? b) = false) by (apply N.eqb_neq; lia).
  rewrite Hx. apply andb_false_r.
Qed.

Lemma hex64_test s : lower_hex64 s -> test_hex64 s = true.
Proof.
  intros [Hlen Hall]. unfold test_hex64. rewrite Hlen. simpl.
  rewrite forallb_forall in *. intros c Hc. apply lower_hex_is_hex, Hall, Hc.
Qed.

(** A frame that is wrapped as [{ Message: h }], [h] being 64 lower-case
    hexadecimal characters, is a sign result. *)
Lemma hex64_message_classified h :
  lower_hex64 h -> first_match decoder_rules (message_of h) = SignResult.
Proof.
  intros Hh. pose proof Hh as [Hlen Hall].
  assert (Htrim : trim h = h) by (apply trim_id, lower_hex_no_space, Hall).
  assert (Hup : length (toUpperCase h) = 64%nat) by (rewrite toUpperCase_length_hex; assumption).
  unfold first_match, decoder_rules. cbn [List.find fst snd].
  change (participants (message_of h)) with JUndefined.
  change (or_false (loose_eq_zero JUndefined)) with false.
  change (or_false (greater_than_zero JUndefined)) with false.
  cbv iota.
  unfold is_signature_marker, text_equals, text_is_hex64.
  change (message_text (message_of h)) with (trim h). rewrite Htrim.
  rewrite !jstr_eqb_length by (rewrite Hup; cbn; lia).
  cbn [orb]. cbv iota.
  rewrite (hex64_not_prefixed h Hh), (hex64_test h Hh). reflexivity.
Qed.

Lemma parse_chars_plain h rest acc :
  forallb is_lower_hex h = true ->
  parse_chars (h ++ dquote :: rest) acc = Some (rev acc ++ h, rest).
Proof.
  revert acc. induction h as [|c r IH]; intros acc H.
  - simpl. rewrite app_nil_r. reflexivity.
  - simpl in H. apply andb_true_iff in H as [Hc Hr].
    apply lower_hex_cases in Hc.
    cbn [app parse_chars].
    assert (H34 : (c =? 34) = false) by (apply N.eqb_neq; lia).
    assert (H92 : (c =? 92) = false) by (apply N.eqb_neq; lia).
    assert (H32 : (c <? 32) = false) by (apply N.ltb_ge; lia).
    rewrite H34, H92, H32. rewrite (IH (c :: acc) Hr).
    simpl. rewrite <- app_assoc. reflexivity.
Qed.

Lemma JSON_parse_quoted_hex h :
  forallb is_lower_hex h = true -> JSON_parse (quoted h) = Some (JStr h).
Proof.
  intros H. unfold JSON_parse, quoted.
  replace (2 * length (dquote :: h ++ [dquote]) + 2)%nat
    with (S (2 * length (dquote :: h ++ [dquote]) + 1))%nat by lia.
  cbn [parse_value skip_ws is_json_ws dquote N.eqb Pos.eqb orb].
  rewrite (parse_chars_plain h [] [] H). reflexivity.
Qed.

Lemma tolerant_parse_quoted_hex h :
  lower_hex64 h -> tolerant_parse (quoted h) = message_of h.
Proof.
  intros Hh. pose proof Hh as [Hlen Hall].
  unfold tolerant_parse. rewrite (JSON_parse_quoted_hex h Hall).
  assert (Htrim : trim h = h) by (apply trim_id, lower_hex_no_space, Hall).
  rewrite Htrim.
  destruct h as [|c r]; [discriminate | ].
  simpl in Hall. apply andb_true_iff in Hall as [Hc _]. apply lower_hex_cases in Hc.
  assert (Hb : startsWith (u "{") (c :: r) = false).
  { change (startsWith (u "{") (c :: r)) with ((123 =? c) && true).
    assert (E : (123 =? c) = false) by (apply N.eqb_neq; lia). rewrite E. reflexivity. }
  assert (Hk : startsWith (u "[") (c :: r) = false).
  { change (startsWith (u "[") (c :: r)) with ((91 =? c) && true).
    assert (E : (91 =? c) = false) by (apply N.eqb_neq; lia). rewrite E. reflexivity. }
  rewrite Hb, Hk. reflexivity.
Qed.

Lemma decode_classified raw tag :
  nullish (tolerant_parse raw) = false ->
  tostring_throws (participants (tolerant_parse raw)) = false ->
  first_match decoder_rules (tolerant_parse raw) = tag ->
  decoded_type (decode raw) = Some (type_of_tag tag).
Proof.
  intros Hn Ht Hm. pose proof (decode_of_parse raw) as H. cbv zeta in H.
  rewrite Hn, Ht in H. simpl in H. rewrite H, Hm. reflexivity.
Qed.

Lemma decode_bare_hex h :
  lower_hex64 h -> JSON_parse h = None ->
  decoded_type (decode h) = Some (type_of_tag SignResult).
Proof.
  intros Hh Hp.
  assert (E : tolerant_parse h = message_of h) by (unfold tolerant_parse; rewrite Hp; reflexivity).
  apply decode_classified; rewrite E; [reflexivity | reflexivity | ].
  apply hex64_message_classified, Hh.
Qed.

Lemma decode_quoted_hex h :
  lower_hex64 h -> decoded_type (decode (quoted h)) = Some (type_of_tag SignResult).
Proof.
  intros Hh.
  apply decode_classified; rewrite (tolerant_parse_quoted_hex h Hh); [reflexivity | reflexivity | ].
  apply hex64_message_classified, Hh.
Qed.

(** C2, amended: on every raw frame the decoder either throws a [TypeError],
    which it does when the tolerantly parsed message is [null] or its
    [ParticipantsEnrolled] cannot be converted to a number, or returns the
    type of the first of the nine rules of [decoder_rules] that the message
    matches.  The rules are those of the specification, in its order, with
    rule 1 comparing loosely ([== 0]), rule 7 excluding every text that
    starts with [SUCCESS.SIGNATURE_], and the transaction fields tested for
    truthiness.  The eight golden inputs get the stated types; for sixty-four
    lower-case hexadecimal digits this holds of the quoted string always and
    of the bare text when it is not itself JSON. *)
Theorem decode_applies_rules :
  (∀ raw,
     let msg := tolerant_parse raw in
     if nullish msg || tostring_throws (participants msg)
     then decode raw = Throw TypeError
     else decoded_type (decode raw) = Some (type_of_tag (first_match decoder_rules msg)))
  ∧ decoded_type (decode (frame1 (u "ParticipantsEnrolled") (u "0")))
    = Some (type_of_tag ManagerInfo)
  ∧ decoded_type (decode (frame1 (u "ParticipantsEnrolled") (u "3")))
    = Some (type_of_tag EnrollmentStatus)
  ∧ decoded_type (decode (u "SUCCESS.ENROLL")) = Some (type_of_tag EnrollmentResult)
  ∧ decoded_type (decode (u "SUCCESS.SIGNATURE_ADDED")) = Some (type_of_tag SignResult)
  ∧ (∀ h, lower_hex64 h -> JSON_parse h = None ->
          decoded_type (decode h) = Some (type_of_tag SignResult))
  ∧ (∀ h, lower_hex64 h -> decoded_type (decode (quoted h)) = Some (type_of_tag SignResult))
  ∧ decoded_type (decode (frame1 (u "SerialNumber") (quoted (u "ABC123"))))
    = Some (type_of_tag PinSerial)
  ∧ decoded_type (decode (u "ERROR.WRONG_PIN")) = Some (type_of_tag WrongPin)
  ∧ decoded_type (decode (frame1 (u "foo") (quoted (u "bar")))) = Some (type_of_tag Unknown).
Proof.
  split; [exact decode_of_parse | ].
  split; [vm_compute; reflexivity | ].
  split; [vm_compute; reflexivity | ].
  split; [vm_compute; reflexivity | ].
  split; [vm_compute; reflexivity | ].
  split; [exact decode_bare_hex | ].
  split; [exact decode_quoted_hex | ].
  split; [vm_compute; reflexivity | ].
  split; vm_compute; reflexivity.
Qed.

Lemma decode_applies_rules_witness :
  lower_hex64 sample_hex ∧ JSON_parse sample_hex = None
  ∧ decoded_type (decode sample_hex) = Some (type_of_tag SignResult)
  ∧ decoded_type (decode (quoted sample_hex)) = Some (type_of_tag SignResult).
Proof.
  assert (Hh : lower_hex64 sample_hex) by (split; reflexivity).
  assert (Hp : JSON_parse sample_hex = None) by (vm_compute; reflexivity).
  pose proof decode_applies_rules as (_ & _ & _ & _ & _ & Hbare & Hquoted & _).
  split; [exact Hh | split; [exact Hp | split]].
  - exact (Hbare sample_hex Hh Hp).
  - exact (Hquoted sample_hex Hh).
Defined.

(** Five frames on which the decoder and the rules as they are worded part:
    a count sent as the string ["0"], a text that only starts like a
    signature marker, a frame that parses to [null], an empty transaction
    hash, and sixty-four hexadecimal digits that are all decimal. *)
Lemma decode_departs_from_stated_rules :
  (decoded_type (decode (frame1 (u "ParticipantsEnrolled") (quoted (u "0"))))
     = Some (type_of_tag ManagerInfo)
   ∧ first_match stated_rules (tolerant_parse (frame1 (u "ParticipantsEnrolled") (quoted (u "0"))))
     = Unknown)
  ∧ (decoded_type (decode (u "SUCCESS.SIGNATURE_FOO")) = Some (type_of_tag Unknown)
     ∧ first_match stated_rules (tolerant_parse (u "SUCCESS.SIGNATURE_FOO")) = PinSerial)
  ∧ (decode (u "null") = Throw TypeError
     ∧ first_match stated_rules (tolerant_parse (u "null")) = Unknown)
  ∧ (decoded_type (decode (frame1 (u "TxHash") (quoted []))) = Some (type_of_tag Unknown)
     ∧ first_match stated_rules (tolerant_parse (frame1 (u "TxHash") (quoted []))) = SignResult)
  ∧ (lower_hex64 digits_hex
     ∧ decoded_type (decode digits_hex) = Some (type_of_tag Unknown)).
Proof.
  split; [split; vm_compute; reflexivity | ].
  split; [split; vm_compute; reflexivity | ].
  split; [split; vm_compute; reflexivity | ].
  split; [split; vm_compute; reflexivity | ].
  split; [split; reflexivity | vm_compute; reflexivity].
Qed.

(** ** The encoder *)










(** ** The transport *)

Arguments settles_of : simpl never.
Arguments sent_frames : simpl never.
Arguments called : simpl never.
Arguments emitted : simpl never.

Lemma settles_of_app f a b : settles_of f (a ++ b) = settles_of f a ++ settles_of f b.
Proof. apply omap_app. Qed.

Lemma sent_frames_app a b : sent_frames (a ++ b) = sent_frames a ++ sent_frames b.
Proof. apply omap_app. Qed.

Lemma called_app a b : called (a ++ b) = called a ++ called b.
Proof. apply omap_app. Qed.

Lemma emitted_app a b : emitted (a ++ b) = emitted a ++ emitted b.
Proof. apply omap_app. Qed.

Lemma settles_of_one f e :
  settles_of f [e] =
  match e with
  | Settle g o => if bool_decide (g = f) then [o] else []
  | _ => []
  end.
Proof. destruct e; try reflexivity. unfold settles_of. cbn. case_bool_decide; reflexivity. Qed.

Lemma sent_frames_one e :
  sent_frames [e] = match e with Sent body => [body] | _ => [] end.
Proof. destruct e; reflexivity. Qed.

Lemma called_one e : called [e] = match e with Called h => [h] | _ => [] end.
Proof. destruct e; reflexivity. Qed.

Lemma emitted_one e : emitted [e] = match e with Emit ev => [ev] | _ => [] end.
Proof. destruct e; reflexivity. Qed.

(** Reads the effects appended at the end of a trace. *)
Ltac read_trace :=
  repeat rewrite ?settles_of_app, ?sent_frames_app, ?called_app, ?emitted_app,
    ?settles_of_one, ?sent_frames_one, ?called_one, ?emitted_one;
  cbv iota; rewrite ?bool_decide_eq_true_2 by reflexivity; rewrite ?app_nil_r.

Lemma null_frame_parse raw : JSON_parse raw = Some JNull -> tolerant_parse raw = JNull.
Proof. intros H. unfold tolerant_parse. rewrite H. reflexivity. Qed.

(** C10: a frame whose text parses as JSON to [null] makes the decoder throw
    a [TypeError]; the socket of the workflow client, which decodes
    tolerantly, then emits the [error] lifecycle event and nothing else
    happens: no handler is called, not even one subscribed to [UNKNOWN], and
    no subscription changes. *)
Theorem null_frame_is_an_error (raw : jstring) (s : ObjectSocket) :
  JSON_parse raw = Some JNull ->
  decode raw = Throw TypeError
  ∧ _handleMessage enrollment_options raw s = Ok (_emit ErrorEvent s)
  ∧ trace (handle enrollment_options (WsMessage raw) s) = trace s ++ [Emit ErrorEvent]
  ∧ called (trace (handle enrollment_options (WsMessage raw) s)) = called (trace s)
  ∧ _handlers (handle enrollment_options (WsMessage raw) s) = _handlers s.
Proof.
  intros H.
  assert (Hd : decode raw = Throw TypeError).
  { pose proof (decode_of_parse raw) as Hp. cbv zeta in Hp.
    rewrite (null_frame_parse raw H) in Hp. exact Hp. }
  assert (Hm : _handleMessage enrollment_options raw s = Ok (_emit ErrorEvent s)).
  { unfold _handleMessage. cbn [opt_decode enrollment_options tolerantDecode]. rewrite Hd. reflexivity. }
  split; [exact Hd | split; [exact Hm | ]].
  cbn [handle]. rewrite Hm. cbn.
  rewrite called_app. cbn. rewrite app_nil_r. auto.
Qed.

Lemma null_frame_is_an_error_witness :
  JSON_parse (u "null") = Some JNull
  ∧ trace (handle enrollment_options (WsMessage (u "null")) (new_socket true)) = [Emit ErrorEvent].
Proof.
  assert (H : JSON_parse (u "null") = Some JNull) by (vm_compute; reflexivity).
  split; [exact H | ].
  exact (proj1 (proj2 (proj2 (null_frame_is_an_error (u "null") (new_socket true) H)))).
Defined.

(** C3, amended: [connect] returns a future of its own.  When the socket
    opens, the future is resolved, the counter of reconnect attempts is 0,
    [connected] is emitted, and the heartbeat timer is set if the interval
    configured is not 0.  The future is rejected when creating the socket
    throws.  An [error] event of the socket before it opened only emits the
    [error] lifecycle event: the future is left as it was. *)
Theorem connect_settles_on_open (opts : options) (s : ObjectSocket) :
  let n := calls s in
  let s1 := (connect (Ok ()) s).2 in
  let s2 := handle opts WsOpen s1 in
  (connect (Ok ()) s).1 = FConnect n
  ∧ trace s1 = trace s
  ∧ settles_of (FConnect n) (trace s2) = settles_of (FConnect n) (trace s) ++ [Resolved JUndefined]
  ∧ _reconnectAttempts s2 = 0
  ∧ emitted (trace s2) = emitted (trace s) ++ [Connected]
  ∧ (if (heartbeat_intervalMs opts =? 0)%Z
     then _heartbeatTimer s2 = _heartbeatTimer s ∧ timers s2 = timers s
     else _heartbeatTimer s2 = Some (S n)
          ∧ timers s2 = timers s ++ [THeartbeat (S n)])
  ∧ (∀ err, (connect (Throw err) s).1 = FConnect n
            ∧ settles_of (FConnect n) (trace (connect (Throw err) s).2)
              = settles_of (FConnect n) (trace s) ++ [Rejected err])
  ∧ trace (handle opts WsError s1) = trace s ++ [Emit ErrorEvent]
  ∧ settles_of (FConnect n) (trace (handle opts WsError s1)) = settles_of (FConnect n) (trace s).
Proof.
  cbv zeta. split; [reflexivity | ]. split; [reflexivity | ].
  cbn [handle connect snd]. unfold ws_onopen, _startHeartbeat.
  destruct (heartbeat_intervalMs opts =? 0)%Z eqn:Hb; cbn;
    (repeat split; intros; cbn; read_trace; reflexivity).
Qed.

(** A socket that errors and closes before it ever opened: the future
    returned by [connect] is left unsettled. *)
Lemma connect_error_does_not_reject :
  let s := handle enrollment_options (Connect (Ok ())) (new_socket false) in
  let s' := handle enrollment_options (WsClose 0%Q) (handle enrollment_options WsError s) in
  run enrollment_options [Connect (Ok ()); WsError; WsClose 0%Q] (new_socket false) = Some s'
  ∧ (connect (Ok ()) (new_socket false)).1 = FConnect 0
  ∧ emitted (trace s') = [ErrorEvent; Disconnected]
  ∧ settles_of (FConnect 0) (trace s') = [].
Proof. cbv zeta. repeat split; vm_compute; reflexivity. Qed.

(** *** Dispatch to the subscribed handlers *)

Lemma sendReply_handlers opts to p e s : _handlers (_sendReply opts to p e s) = _handlers s.
Proof.
  unfold _sendReply. destruct (negb (truthy _)); [reflexivity | ].
  destruct (negb (ws_open s)); reflexivity.
Qed.

Lemma sendReply_sent opts to message s :
  sent_frames (trace (replyError opts to message s)) =
  sent_frames (trace s)
  ++ (if truthy (prop_opt to (u "id")) && ws_open s
      then [opt_encode opts (error_reply to message)] else []).
Proof.
  unfold replyError, _sendReply.
  destruct (truthy (prop_opt to (u "id"))); cbn [negb andb]; [ | now rewrite app_nil_r ].
  destruct (ws_open s); cbn [negb]; [ | now rewrite app_nil_r ].
  cbn. read_trace. reflexivity.
Qed.

Lemma sendReply_called opts to p e s :
  called (trace (_sendReply opts to p e s)) = called (trace s).
Proof.
  unfold _sendReply. destruct (negb (truthy _)); [reflexivity | ].
  destruct (negb (ws_open s)); [reflexivity | ]. cbn. read_trace. reflexivity.
Qed.

Lemma deliver_user opts k env s :
  let s' := deliver opts (HUser k) env s in
  _handlers s' = _handlers s
  ∧ called (trace s') = called (trace s) ++ [HUser k].
Proof.
  cbv zeta. unfold deliver. cbn [invoke].
  destruct (user_handler opts k _); cbn.
  - read_trace. auto.
  - unfold replyError. rewrite sendReply_handlers, sendReply_called. cbn. read_trace. auto.
  - read_trace. auto.
Qed.

Lemma dispatch_users opts type env set :
  ∀ s, Forall (λ h, is_user_handler h = true ∧ h ∈ handlers_of s type) set ->
       called (trace (dispatch opts set type env s)) = called (trace s) ++ set.
Proof.
  induction set as [|h rest IH]; intros s Hall.
  - cbn. now rewrite app_nil_r.
  - inversion Hall as [|? ? [Hu Hin] Hrest]; subst.
    cbn [dispatch]. rewrite bool_decide_eq_true_2 by exact Hin.
    destruct h as [k| | |]; try discriminate.
    pose proof (deliver_user opts k env s) as [Hh Hc]. cbv zeta in Hh, Hc.
    rewrite IH.
    + rewrite Hc, <- app_assoc. reflexivity.
    + eapply Forall_impl; [exact Hrest | ]. intros h [Hu' Hin']. split; [exact Hu' | ].
      unfold handlers_of in *. rewrite Hh. exact Hin'.
Qed.

(** C8, amended: when an envelope is dispatched to handlers of the user, each
    of the handlers subscribed to its type is called, in the order of
    subscription, whatever the earlier ones did.  For a handler that throws,
    an error reply is sent if and only if the envelope carries a truthy [id]
    and the socket is open at that moment; for a handler whose promise
    rejects nothing is sent at the call, and when the rejection is handled
    an error reply is sent if and only if the [id] is truthy and the socket
    is open then; for a handler that returns nothing is sent. *)
Theorem handler_failures_are_contained (opts : options) (s : ObjectSocket)
    (type : jstring) (env : jsval) :
  (Forall (λ h, is_user_handler h = true) (handlers_of s type) ->
   called (trace (dispatch opts (handlers_of s type) type env s))
   = called (trace s) ++ handlers_of s type)
  ∧ (∀ k, user_handler opts k (prop_opt env (u "payload")) = Throws ->
       sent_frames (trace (deliver opts (HUser k) env s))
       = sent_frames (trace s)
         ++ (if truthy (prop_opt env (u "id")) && ws_open s
             then [opt_encode opts (error_reply env (JStr (u "handler threw")))] else []))
  ∧ (∀ k e, user_handler opts k (prop_opt env (u "payload")) = Rejects e ->
       sent_frames (trace (deliver opts (HUser k) env s)) = sent_frames (trace s)
       ∧ rejections (deliver opts (HUser k) env s) = rejections s ++ [(env, e)])
  ∧ (∀ e, sent_frames (trace (handler_rejected opts env e s))
       = sent_frames (trace s)
         ++ (if truthy (prop_opt env (u "id")) && ws_open s
             then [opt_encode opts (error_reply env (rejection_message e))] else []))
  ∧ (∀ k, user_handler opts k (prop_opt env (u "payload")) = Returns ->
       sent_frames (trace (deliver opts (HUser k) env s)) = sent_frames (trace s)).
Proof.
  split; [ | split; [ | split; [ | split]]].
  - intros Hall. apply dispatch_users.
    rewrite Forall_forall in *. intros h Hh. split; [apply Hall, Hh | exact Hh].
  - intros k Hk. unfold deliver. cbn [invoke]. rewrite Hk.
    rewrite sendReply_sent. cbn. read_trace. reflexivity.
  - intros k e Hk. unfold deliver. cbn [invoke]. rewrite Hk. cbn. read_trace. auto.
  - intros e. unfold handler_rejected. fold (rejection_message e). apply sendReply_sent.
  - intros k Hk. unfold deliver. cbn [invoke]. rewrite Hk. cbn. read_trace. reflexivity.
Qed.

Lemma handler_failures_are_contained_witness :
  let s := handle failing_handlers (OnType (u "X") 1)
             (handle failing_handlers (OnType (u "X") 0)
                (handle failing_handlers WsOpen
                   (handle failing_handlers (Connect (Ok ())) (new_socket false)))) in
  let env := JObj [(u "type", JStr (u "X")); (u "id", JStr (u "7"))] in
  Forall (λ h, is_user_handler h = true) (handlers_of s (u "X"))
  ∧ user_handler failing_handlers 0 (prop_opt env (u "payload")) = Throws
  ∧ called (trace (dispatch failing_handlers (handlers_of s (u "X")) (u "X") env s))
    = [HUser 0; HUser 1]
  ∧ sent_frames (trace (deliver failing_handlers (HUser 0) env s))
    = [error_reply env (JStr (u "handler threw"))].
Proof.
  cbv zeta.
  set (s := handle failing_handlers (OnType (u "X") 1) _).
  set (env := JObj _).
  assert (Hall : Forall (λ h, is_user_handler h = true) (handlers_of s (u "X"))).
  { subst s. vm_compute. repeat constructor. }
  assert (Hk : user_handler failing_handlers 0 (prop_opt env (u "payload")) = Throws)
    by reflexivity.
  pose proof (handler_failures_are_contained failing_handlers s (u "X") env)
    as (Hcalled & Hthrow & _).
  split; [exact Hall | split; [exact Hk | split]].
  - rewrite (Hcalled Hall). subst s. vm_compute. reflexivity.
  - rewrite (Hthrow 0%nat Hk). subst s env. vm_compute. reflexivity.
Defined.

(** An envelope that carries an id gets no reply when the handler promise
    rejects after the socket has closed, nor when the id is the empty string. *)
Lemma no_reply_despite_id :
  JSON_parse (request_frame (u "7"))
  = Some (JObj [(u "type", JStr (u "X")); (u "id", JStr (u "7"))])
  ∧ option_map (λ s, (called (trace s), sent_frames (trace s)))
      (run failing_handlers
         [Connect (Ok ()); WsOpen; OnType (u "X") 1; WsMessage (request_frame (u "7"));
          WsClose 0%Q; HandlerRejected 0] (new_socket false))
    = Some ([HUser 1], [])
  ∧ JSON_parse (request_frame [])
    = Some (JObj [(u "type", JStr (u "X")); (u "id", JStr [])])
  ∧ option_map (λ s, (called (trace s), sent_frames (trace s)))
      (run failing_handlers
         [Connect (Ok ()); WsOpen; OnType (u "X") 0; WsMessage (request_frame [])]
         (new_socket false))
    = Some ([HUser 0], []).
Proof.
  split; [vm_compute; reflexivity | ].
  split; [vm_compute; reflexivity | ].
  split; vm_compute; reflexivity.
Qed.

(** *** Operations that leave the requests alone *)

Lemma filter_snoc_false {A} (P : A -> Prop) `{∀ x, Decision (P x)} (l : list A) x :
  ¬ P x -> filter P (l ++ [x]) = filter P l.
Proof.
  intros Hx. rewrite filter_app, (filter_cons_False P x []) by exact Hx.
  rewrite filter_nil. apply app_nil_r.
Qed.

Lemma filter_remove_other {A} `{EqDecision A} (P : A -> Prop) `{∀ x, Decision (P x)} (l : list A) (t : A) :
  ¬ P t -> filter P (filter (λ x, x ≠ t) l) = filter P l.
Proof.
  intros Ht. rewrite list_filter_filter. apply list_filter_iff.
  intros x. split; [tauto | ]. intros Hx. split; [exact Hx | ]. intros ->. tauto.
Qed.

Lemma core_log e s :
  is_request_effect e = false -> core_view (log e s) = core_view s.
Proof.
  intros He. unfold core_view, request_view. cbn.
  rewrite filter_snoc_false by (rewrite He; discriminate). reflexivity.
Qed.

Lemma core_setTimeout t d s :
  is_request_timer t = false -> core_view (setTimeout t d s) = core_view s.
Proof.
  intros Ht. unfold setTimeout. rewrite core_log by exact Ht.
  unfold core_view, request_view. cbn.
  rewrite filter_snoc_false by (rewrite Ht; discriminate). reflexivity.
Qed.

Lemma core_clearTimeout t s :
  is_request_timer t = false -> core_view (clearTimeout t s) = core_view s.
Proof.
  intros Ht. unfold clearTimeout. case_bool_decide; [ | reflexivity ].
  rewrite core_log by exact Ht. unfold core_view, request_view. cbn.
  rewrite filter_remove_other by (rewrite Ht; discriminate). reflexivity.
Qed.

Lemma core_resolve f v s :
  (∀ id, f ≠ FRequest id) -> core_view (resolve f v s) = core_view s.
Proof.
  intros Hf. apply core_log. destruct f; try reflexivity. exfalso. eapply Hf. reflexivity.
Qed.

Lemma core_reject f e s :
  (∀ id, f ≠ FRequest id) -> core_view (reject f e s) = core_view s.
Proof.
  intros Hf. apply core_log. destruct f; try reflexivity. exfalso. eapply Hf. reflexivity.
Qed.

Lemma core_ws_send body s : core_view (ws_send body s) = core_view s.
Proof. apply core_log. reflexivity. Qed.

Lemma core_emit ev s : core_view (_emit ev s) = core_view s.
Proof. apply core_log. reflexivity. Qed.

Lemma core_onType type h s : core_view (onType type h s) = core_view s.
Proof.
  unfold onType. case_bool_decide; [reflexivity | ].
  rewrite core_log by reflexivity. reflexivity.
Qed.

Lemma core_offType type h s : core_view (offType type h s) = core_view s.
Proof.
  unfold offType. destruct (_handlers s !! type); [ | reflexivity ].
  case_bool_decide; [ | reflexivity ].
  rewrite core_log by reflexivity. reflexivity.
Qed.

Lemma core_fold {A} (f : ObjectSocket -> A -> ObjectSocket) l :
  (∀ s x, core_view (f s x) = core_view s) ->
  ∀ s, core_view (fold_left f l s) = core_view s.
Proof.
  intros Hf. induction l as [|x r IH]; intros s; [reflexivity | ].
  cbn. rewrite IH. apply Hf.
Qed.

Lemma core_release n w s : core_view (release n w s) = core_view s.
Proof.
  unfold release. rewrite core_fold by (intros; apply core_offType).
  apply core_clearTimeout. reflexivity.
Qed.

Lemma core_subscribe_all subs s : core_view (subscribe_all subs s) = core_view s.
Proof. unfold subscribe_all. apply core_fold. intros. apply core_onType. Qed.

Lemma core_wait_timeout n s : core_view (wait_timeout n s) = core_view s.
Proof.
  unfold wait_timeout. destruct (waits s !! n) as [[p|l]|]; [ | | reflexivity ];
    (rewrite core_reject by discriminate); apply core_release.
Qed.

Lemma core_sendReply opts to p e s : core_view (_sendReply opts to p e s) = core_view s.
Proof.
  unfold _sendReply. destruct (negb (truthy _)); [reflexivity | ].
  destruct (negb (ws_open s)); [reflexivity | ]. apply core_ws_send.
Qed.

Lemma core_invoke opts h env s : core_view (invoke opts h env s).1 = core_view s.
Proof.
  unfold invoke. destruct h as [k|n|n|n i]; [reflexivity | | | ];
    destruct (waits s !! n) as [[p|l]|]; try reflexivity; cbn [fst].
  - destruct (p _) as [[|]|]; try reflexivity. cbn [fst].
    rewrite core_resolve by discriminate. apply core_release.
  - rewrite core_resolve by discriminate. apply core_release.
  - rewrite core_resolve by discriminate. apply core_release.
Qed.

Lemma core_deliver opts h env s : core_view (deliver opts h env s) = core_view s.
Proof.
  unfold deliver.
  pose proof (core_invoke opts h env (log (Called h) s)) as Hv.
  destruct (invoke opts h env (log (Called h) s)) as [s' c]. cbn [fst] in Hv.
  rewrite core_log in Hv by reflexivity.
  destruct c; [exact Hv | | exact Hv].
  unfold replyError. rewrite core_sendReply. exact Hv.
Qed.

Lemma core_dispatch opts set type env :
  ∀ s, core_view (dispatch opts set type env s) = core_view s.
Proof.
  induction set as [|h rest IH]; intros s; [reflexivity | ].
  cbn [dispatch]. rewrite IH. case_bool_decide; [apply core_deliver | reflexivity].
Qed.

Lemma core_handler_rejected opts env e s :
  core_view (handler_rejected opts env e s) = core_view s.
Proof. unfold handler_rejected, replyError. apply core_sendReply. Qed.

Lemma core_startHeartbeat opts s : core_view (_startHeartbeat opts s) = core_view s.
Proof.
  unfold _startHeartbeat. destruct (_ =? _)%Z; [reflexivity | ].
  change (core_view (set_heartbeatTimer ?v ?x)) with (core_view x).
  rewrite core_setTimeout by reflexivity. reflexivity.
Qed.

Lemma core_clearHeartbeat s : core_view (_clearHeartbeat s) = core_view s.
Proof.
  unfold _clearHeartbeat.
  change (core_view (set_heartbeatTimer ?v ?x)) with (core_view x).
  destruct (_heartbeatTimer s); [ | reflexivity ]. apply core_clearTimeout. reflexivity.
Qed.

Lemma core_scheduleReconnect opts r s :
  core_view (_scheduleReconnect opts r s) = core_view s.
Proof.
  unfold _scheduleReconnect.
  match goal with |- context [if ?c then _ else _] => destruct c end; [reflexivity | ].
  rewrite core_setTimeout by reflexivity.
  change (core_view (set_calls ?v ?x)) with (core_view x).
  rewrite core_emit. reflexivity.
Qed.

Lemma core_send opts type payload s s' :
  send opts type payload s = Ok s' -> core_view s' = core_view s.
Proof.
  unfold send. destruct (negb (ws_open s)); [discriminate | ].
  intros [= <-]. apply core_ws_send.
Qed.

Lemma core_waitFor p tmo s : core_view (waitFor p tmo s).2 = core_view s.
Proof.
  unfold waitFor. cbn [snd]. rewrite core_subscribe_all.
  rewrite core_setTimeout by reflexivity. reflexivity.
Qed.

Lemma core_sendAndWait opts type payload l tmo s r :
  _sendAndWait opts type payload l tmo s = Ok r -> core_view r.2 = core_view s.
Proof.
  unfold _sendAndWait. destruct (send opts type payload s) as [s1|] eqn:Hs; [ | discriminate ].
  cbn [mbind result_bind]. intros [= <-]. cbn [snd].
  rewrite core_subscribe_all. rewrite core_setTimeout by reflexivity.
  change (core_view (set_waits ?v (set_calls ?c ?x))) with (core_view x).
  eapply core_send, Hs.
Qed.

Lemma core_heartbeat_tick opts s : core_view (heartbeat_tick opts s) = core_view s.
Proof.
  unfold heartbeat_tick. destruct (negb (ws_open s)); [reflexivity | apply core_ws_send].
Qed.

Lemma core_request s s' : core_view s' = core_view s -> request_view s' = request_view s.
Proof. unfold core_view. congruence. Qed.

Lemma view_connect ctor s : request_view (connect ctor s).2 = request_view s.
Proof.
  unfold connect. destruct ctor; cbn [snd]; [reflexivity | ].
  apply core_request. rewrite core_reject by discriminate. reflexivity.
Qed.

Lemma view_ws_onopen opts s : request_view (ws_onopen opts s) = request_view s.
Proof.
  unfold ws_onopen.
  etransitivity; [apply core_request, core_resolve; discriminate | ].
  rewrite (core_request _ _ (core_startHeartbeat _ _)), (core_request _ _ (core_emit _ _)).
  reflexivity.
Qed.

Lemma view_close s : request_view (close s) = request_view s.
Proof.
  unfold close. rewrite (core_request _ _ (core_clearHeartbeat _)).
  destruct (_ws (set_autoReconnect false s)) as [[| | |]|]; reflexivity.
Qed.

(** *** Request ids are never reused *)

Lemma val36_digit36 d : d < 36 -> val36 (digit36 d) = d.
Proof.
  intros H. unfold val36, digit36. destruct (d <? 10) eqn:E.
  - apply N.ltb_lt in E. assert (E' : (48 + d <? 58) = true) by (apply N.ltb_lt; lia).
    rewrite E'. lia.
  - apply N.ltb_ge in E. assert (E' : (87 + d <? 58) = false) by (apply N.ltb_ge; lia).
    rewrite E'. lia.
Qed.

Lemma digit36_not_dash d : d < 36 -> digit36 d ≠ 45.
Proof. unfold digit36. destruct (d <? 10) eqn:E; [apply N.ltb_lt in E | apply N.ltb_ge in E]; lia. Qed.

Lemma to_radix36_acc fuel : ∀ n acc, to_radix36 fuel n acc = to_radix36 fuel n [] ++ acc.
Proof.
  induction fuel as [|f IH]; intros n acc; [reflexivity | ].
  cbn [to_radix36]. destruct (n / 36 =? 0); [reflexivity | ].
  rewrite (IH _ (_ :: acc)), (IH _ [_]). rewrite <- app_assoc. reflexivity.
Qed.

Lemma of36_snoc l d : of36 (l ++ [d]) = of36 l * 36 + val36 d.
Proof. unfold of36. rewrite fold_left_app. reflexivity. Qed.

Lemma of36_to_radix36 fuel : ∀ n, n < 2 ^ N.of_nat fuel -> of36 (to_radix36 fuel n []) = n.
Proof.
  induction fuel as [|f IH]; intros n Hn.
  - cbn in *. lia.
  - cbn [to_radix36].
    assert (Hmod : n mod 36 < 36) by (apply N.mod_lt; lia).
    destruct (n / 36 =? 0) eqn:E.
    + apply N.eqb_eq in E. cbn. rewrite val36_digit36 by exact Hmod.
      rewrite (N.div_mod n 36) at 2 by lia. lia.
    + rewrite to_radix36_acc, of36_snoc, val36_digit36 by exact Hmod.
      rewrite IH.
      * rewrite (N.div_mod n 36) at 3 by lia. lia.
      * rewrite Nat2N.inj_succ, N.pow_succ_r' in Hn.
        apply N.Div0.div_lt_upper_bound. lia.
Qed.

Lemma toString36_inj n m : toString36 n = toString36 m -> n = m.
Proof.
  intros H. apply (f_equal of36) in H. unfold toString36 in H.
  assert (Hb : ∀ k, k < 2 ^ N.of_nat (S (N.to_nat (N.log2 k)))).
  { intros k. rewrite Nat2N.inj_succ, N2Nat.id.
    destruct k as [|p]; [cbn; lia | ]. apply N.log2_spec. lia. }
  rewrite !of36_to_radix36 in H by apply Hb. exact H.
Qed.

Lemma to_radix36_no_dash fuel : ∀ n acc, 45 ∉ acc -> 45 ∉ to_radix36 fuel n acc.
Proof.
  induction fuel as [|f IH]; intros n acc Hacc; [exact Hacc | ].
  cbn [to_radix36].
  assert (Hd : 45 ∉ digit36 (n mod 36) :: acc).
  { intros Hin. apply elem_of_cons in Hin as [Hin | Hin]; [ | tauto ].
    symmetry in Hin. revert Hin. apply digit36_not_dash, N.mod_lt. lia. }
  destruct (n / 36 =? 0); [exact Hd | apply IH, Hd].
Qed.

Lemma toString36_no_dash n : 45 ∉ toString36 n.
Proof. apply to_radix36_no_dash. apply not_elem_of_nil. Qed.

Lemma split_at_first {A} (x : A) : ∀ a b c d : list A,
  x ∉ a -> x ∉ b -> a ++ x :: c = b ++ x :: d -> a = b.
Proof.
  intros a. induction a as [|y a IH]; intros b c d Ha Hb E.
  - destruct b as [|z b]; [reflexivity | ]. cbn in E. injection E as -> _.
    exfalso. apply Hb. left.
  - destruct b as [|z b].
    + cbn in E. injection E as <- _. exfalso. apply Ha. left.
    + cbn in E. injection E as -> E. f_equal.
      eapply IH; [ | | exact E].
      * intros Hin. apply Ha. right. exact Hin.
      * intros Hin. apply Hb. right. exact Hin.
Qed.

Lemma split_at_last {A} (x : A) : ∀ l1 l2 r1 r2 : list A,
  x ∉ r1 -> x ∉ r2 -> l1 ++ x :: r1 = l2 ++ x :: r2 -> r1 = r2.
Proof.
  intros l1 l2 r1 r2 H1 H2 E.
  apply (f_equal (@rev A)) in E. rewrite !rev_app_distr in E. cbn in E.
  rewrite <- !app_assoc in E. cbn in E.
  assert (H1' : x ∉ rev r1) by (rewrite list_elem_of_In, <- in_rev, <- list_elem_of_In; exact H1).
  assert (H2' : x ∉ rev r2) by (rewrite list_elem_of_In, <- in_rev, <- list_elem_of_In; exact H2).
  pose proof (split_at_first x _ _ _ _ H1' H2' E) as Hr.
  apply (f_equal (@rev A)) in Hr. now rewrite !rev_involutive in Hr.
Qed.

Lemma make_id_inj now c now' c' : make_id now c = make_id now' c' -> c = c'.
Proof.
  unfold make_id. change (u "-") with [45]. cbn [app]. intros E.
  apply toString36_inj.
  eapply split_at_last; [ | | exact E]; apply toString36_no_dash.
Qed.

(** *** Counting the effects of a request *)

Lemma count_nil P : count P [] = 0%nat.
Proof. reflexivity. Qed.

Lemma count_cons P e l : count P (e :: l) = ((if P e then 1 else 0) + count P l)%nat.
Proof.
  unfold count. destruct (P e) eqn:E.
  - rewrite filter_cons_True by exact E. reflexivity.
  - rewrite filter_cons_False by (rewrite E; discriminate). reflexivity.
Qed.

Lemma count_app P a b : count P (a ++ b) = (count P a + count P b)%nat.
Proof. unfold count. rewrite filter_app, length_app. reflexivity. Qed.

Lemma settlements_app id a b :
  settlements id (a ++ b) = (settlements id a + settlements id b)%nat.
Proof. unfold settlements. rewrite settles_of_app, length_app. reflexivity. Qed.

Lemma settlements_cons id e l :
  settlements id (e :: l) =
  ((match e with
    | Settle (FRequest id') _ => if bool_decide (id' = id) then 1 else 0
    | _ => 0
    end) + settlements id l)%nat.
Proof.
  change (e :: l) with ([e] ++ l). rewrite settlements_app. f_equal.
  unfold settlements. rewrite settles_of_one.
  destruct e as [|f o| | | | | | | |]; try reflexivity.
  destruct f as [|id'|]; try (case_bool_decide; [congruence | reflexivity]).
  repeat case_bool_decide; try reflexivity; congruence.
Qed.

Lemma count_view P tr :
  (∀ e, P e = true -> is_request_effect e = true) ->
  count P (filter (λ e, is_request_effect e = true) tr) = count P tr.
Proof.
  intros HP. induction tr as [|e tr IH]; [reflexivity | ].
  destruct (is_request_effect e) eqn:E.
  - rewrite filter_cons_True by exact E. rewrite !count_cons, IH. reflexivity.
  - rewrite filter_cons_False by (rewrite E; discriminate). rewrite count_cons, IH.
    destruct (P e) eqn:EP; [ | reflexivity ]. apply HP in EP. congruence.
Qed.

Lemma settlements_view id tr :
  settlements id (filter (λ e, is_request_effect e = true) tr) = settlements id tr.
Proof.
  induction tr as [|e tr IH]; [reflexivity | ].
  destruct (is_request_effect e) eqn:E.
  - rewrite filter_cons_True by exact E. rewrite !settlements_cons, IH. reflexivity.
  - rewrite filter_cons_False by (rewrite E; discriminate). rewrite settlements_cons, IH.
    destruct e as [|f o| | | | | | | |]; try reflexivity.
    destruct f; try reflexivity. discriminate.
Qed.

Lemma issue_is_request id e : is_issue id e = true -> is_request_effect e = true.
Proof. destruct e as [| | |t d| | | | | |]; try discriminate. destruct t; [reflexivity | discriminate..]. Qed.

Lemma deletion_is_request id e : is_deletion id e = true -> is_request_effect e = true.
Proof. destruct e; try discriminate. reflexivity. Qed.

Lemma release_is_request id e : is_timer_release id e = true -> is_request_effect e = true.
Proof.
  destruct e as [| | | |t|t| | | |]; try discriminate; destruct t; try discriminate; reflexivity.
Qed.

(** What a request invariant reads of a socket is its request view. *)
Lemma view_facts s s' :
  request_view s' = request_view s ->
  _pending s' = _pending s
  ∧ _idCounter s' = _idCounter s
  ∧ (∀ id ty, TRequest id ty ∈ timers s' <-> TRequest id ty ∈ timers s)
  ∧ (∀ id, issues id (trace s') = issues id (trace s)
           ∧ settlements id (trace s') = settlements id (trace s)
           ∧ deletions id (trace s') = deletions id (trace s)
           ∧ timer_releases id (trace s') = timer_releases id (trace s)).
Proof.
  unfold request_view. intros [= Hp Ht Htr Hc].
  split; [exact Hp | split; [exact Hc | split]].
  - intros id ty.
    assert (E : ∀ l : list timer, TRequest id ty ∈ l <->
                     TRequest id ty ∈ filter (λ t, is_request_timer t = true) l).
    { intros l. rewrite list_elem_of_filter. cbn. tauto. }
    rewrite (E (timers s')), (E (timers s)), Ht. reflexivity.
  - intros id. unfold issues, deletions, timer_releases.
    rewrite <- (count_view (is_issue id) (trace s')) by apply issue_is_request.
    rewrite <- (count_view (is_issue id) (trace s)) by apply issue_is_request.
    rewrite <- (count_view (is_deletion id) (trace s')) by apply deletion_is_request.
    rewrite <- (count_view (is_deletion id) (trace s)) by apply deletion_is_request.
    rewrite <- (count_view (is_timer_release id) (trace s')) by apply release_is_request.
    rewrite <- (count_view (is_timer_release id) (trace s)) by apply release_is_request.
    rewrite <- (settlements_view id (trace s')), <- (settlements_view id (trace s)).
    rewrite Htr. auto.
Qed.

Lemma requests_ok_view s s' :
  request_view s' = request_view s -> requests_ok s -> requests_ok s'.
Proof.
  intros Hv Hok id. destruct (view_facts s s' Hv) as (Hp & Hc & Ht & Hn).
  destruct (Hn id) as (Hi & Hs & Hd & Hr).
  specialize (Hok id). unfold request_ok, issued_id in *.
  rewrite Hp, Hc, Hi, Hs, Hd, Hr.
  destruct Hok as [Hiss Hok]. split; [exact Hiss | ].
  destruct (_pending s !! id) as [p|].
  - destruct Hok as (H1 & (ty & H2 & H3) & H4). split; [exact H1 | ].
    split; [ | exact H4 ]. exists ty. split; [exact H2 | ]. intros ty'. rewrite Ht. apply H3.
  - destruct Hok as (H1 & H2). split; [ | exact H2 ]. intros ty. rewrite Ht. apply H1.
Qed.

Lemma requests_ok_core s s' :
  core_view s' = core_view s -> requests_ok s -> requests_ok s'.
Proof. intros H. apply requests_ok_view, core_request, H. Qed.

(** *** The two transitions of a request: it is issued, it is finished *)

Lemma finish_ok s s' id0 p l :
  requests_ok s -> _pending s !! id0 = Some p ->
  _pending s' = delete id0 (_pending s) ->
  _idCounter s' = _idCounter s ->
  timers s' = filter (λ x, x ≠ timeout p) (timers s) ->
  trace s' = trace s ++ l ->
  (∀ id, issues id l = 0 ∧ settlements id l = (if bool_decide (id = id0) then 1 else 0)
         ∧ deletions id l = (if bool_decide (id = id0) then 1 else 0)
         ∧ timer_releases id l = (if bool_decide (id = id0) then 1 else 0))%nat ->
  requests_ok s'.
Proof.
  intros Hok Hp0 Hp Hc Ht Htr Hl id.
  pose proof (Hok id0) as H0. unfold request_ok in H0. rewrite Hp0 in H0.
  destruct H0 as (Hiss0 & Hs0 & (ty0 & Hto & Hty0) & Hi0 & Hn0 & Hd0 & Hr0).
  specialize (Hok id). unfold request_ok, issued_id in *.
  rewrite Hp, Hc, Htr. unfold issues, deletions, timer_releases in *.
  rewrite !count_app, settlements_app.
  destruct (Hl id) as (Hli & Hls & Hld & Hlr). unfold issues, deletions, timer_releases in *.
  rewrite Hli, Hls, Hld, Hlr. clear Hli Hls Hld Hlr.
  destruct Hok as [Hiss Hok]. split; [rewrite Nat.add_0_r; exact Hiss | ].
  case_bool_decide as Hid.
  - subst id. rewrite lookup_delete_eq. rewrite Hp0 in Hok.
    split; [ | lia ].
    intros ty Hin. rewrite Ht, list_elem_of_filter in Hin. destruct Hin as [Hne Hin].
    apply Hty0 in Hin. subst ty. congruence.
  - rewrite lookup_delete_ne by congruence.
    assert (Hmem : ∀ ty, TRequest id ty ∈ timers s' <-> TRequest id ty ∈ timers s).
    { intros ty. rewrite Ht, list_elem_of_filter. split; [tauto | ].
      intros Hin. split; [ | exact Hin ]. rewrite Hto. congruence. }
    destruct (_pending s !! id) as [q|].
    + destruct Hok as (H1 & (ty & H2 & H3) & H4). split; [exact H1 | ].
      split; [ | lia ]. exists ty. split; [exact H2 | ]. intros ty'. rewrite Hmem. apply H3.
    + destruct Hok as (H1 & H2). split; [ | lia ]. intros ty. rewrite Hmem. apply H1.
Qed.

(** The id the socket issues next has not been used. *)
Lemma next_id_fresh s now :
  requests_ok s ->
  let id := make_id now (_idCounter s + 1) in
  _pending s !! id = None
  ∧ (∀ ty, TRequest id ty ∉ timers s)
  ∧ issues id (trace s) = 0%nat ∧ settlements id (trace s) = 0%nat
  ∧ deletions id (trace s) = 0%nat ∧ timer_releases id (trace s) = 0%nat.
Proof.
  intros Hok id. specialize (Hok id). destruct Hok as [Hiss Hok].
  assert (Hi : issues id (trace s) = 0%nat).
  { destruct (issues id (trace s)) as [|k] eqn:E; [reflexivity | ].
    destruct Hiss as (now' & c & Hid & Hc); [lia | ].
    apply make_id_inj in Hid. lia. }
  destruct (_pending s !! id) as [p|].
  - destruct Hok as (_ & _ & H & _). lia.
  - destruct Hok as (H1 & H2 & H3 & H4 & H5). repeat split; try assumption; lia.
Qed.

Lemma issue_ok s s' now ty l :
  requests_ok s ->
  let id0 := make_id now (_idCounter s + 1) in
  _pending s' = <[id0 := {| settles := FRequest id0; timeout := TRequest id0 ty |}]> (_pending s) ->
  _idCounter s' = _idCounter s + 1 ->
  timers s' = timers s ++ [TRequest id0 ty] ->
  trace s' = trace s ++ l ->
  (∀ id, issues id l = (if bool_decide (id = id0) then 1 else 0)
         ∧ settlements id l = 0 ∧ deletions id l = 0 ∧ timer_releases id l = 0)%nat ->
  requests_ok s'.
Proof.
  intros Hok id0 Hp Hc Ht Htr Hl id.
  destruct (next_id_fresh s now Hok) as (Hf1 & Hf2 & Hf3 & Hf4 & Hf5 & Hf6). fold id0 in Hf1, Hf2, Hf3, Hf4, Hf5, Hf6.
  specialize (Hok id). unfold request_ok, issued_id in *.
  rewrite Hp, Hc, Htr. unfold issues, deletions, timer_releases in *.
  rewrite !count_app, settlements_app.
  destruct (Hl id) as (Hli & Hls & Hld & Hlr). unfold issues, deletions, timer_releases in *.
  rewrite Hli, Hls, Hld, Hlr. clear Hli Hls Hld Hlr.
  destruct Hok as [Hiss Hok].
  case_bool_decide as Hid.
  - subst id. split.
    + intros _. exists now, (_idCounter s + 1). split; [reflexivity | lia].
    + rewrite lookup_insert_eq. cbn [settles timeout].
      split; [reflexivity | ]. split; [ | lia ].
      exists ty. split; [reflexivity | ]. intros ty'. rewrite Ht, elem_of_app, list_elem_of_singleton.
      split.
      * intros [Hin | Heq]; [exfalso; eapply Hf2, Hin | congruence].
      * intros ->. right. reflexivity.
  - split.
    + intros Hpos. destruct Hiss as (now' & c & Hi & Hle); [lia | ].
      exists now', c. split; [exact Hi | lia].
    + rewrite lookup_insert_ne by congruence.
      assert (Hmem : ∀ ty', TRequest id ty' ∈ timers s' <-> TRequest id ty' ∈ timers s).
      { intros ty'. rewrite Ht, elem_of_app, list_elem_of_singleton. split; [ | tauto ].
        intros [Hin | Heq]; [exact Hin | congruence]. }
      destruct (_pending s !! id) as [q|].
      * destruct Hok as (H1 & (ty1 & H2 & H3) & H4). split; [exact H1 | ].
        split; [ | lia ]. exists ty1. split; [exact H2 | ]. intros ty'. rewrite Hmem. apply H3.
      * destruct Hok as (H1 & H2). split; [ | lia ]. intros ty'. rewrite Hmem. apply H1.
Qed.

Ltac count_effects :=
  intros ?id; unfold issues, deletions, timer_releases;
  rewrite ?count_cons, ?count_nil, ?settlements_cons;
  cbn [is_issue is_deletion is_timer_release];
  change (settlements ?i []) with 0%nat;
  repeat case_bool_decide; subst; try congruence; repeat split; reflexivity.

Lemma request_timer_set s id p :
  requests_ok s -> _pending s !! id = Some p ->
  settles p = FRequest id ∧ ∃ ty, timeout p = TRequest id ty ∧ timeout p ∈ timers s.
Proof.
  intros Hok Hp. specialize (Hok id). unfold request_ok in Hok. rewrite Hp in Hok.
  destruct Hok as (_ & Hs & (ty & Hto & Hty) & _). split; [exact Hs | ].
  exists ty. split; [exact Hto | ]. rewrite Hto. apply Hty. reflexivity.
Qed.

Lemma reply_ok s id0 p o :
  requests_ok s -> _pending s !! id0 = Some p ->
  requests_ok (log (Settle (settles p) o) (pending_delete id0 (clearTimeout (timeout p) s))).
Proof.
  intros Hok Hp. destruct (request_timer_set s id0 p Hok Hp) as (Hs & ty & Hto & Hin).
  unfold clearTimeout. rewrite bool_decide_eq_true_2 by exact Hin.
  unfold pending_delete. cbn. rewrite Hp.
  eapply (finish_ok s _ id0 p [Cleared (timeout p); Deleted id0; Settle (settles p) o]);
    try eassumption; try reflexivity.
  - cbn. rewrite <- !app_assoc. reflexivity.
  - rewrite Hs, Hto. count_effects.
Qed.

Lemma timer_owner s id ty :
  requests_ok s -> TRequest id ty ∈ timers s ->
  ∃ p, _pending s !! id = Some p ∧ timeout p = TRequest id ty.
Proof.
  intros Hok Hin. specialize (Hok id). unfold request_ok in Hok.
  destruct (_pending s !! id) as [p|].
  - destruct Hok as (_ & _ & (ty' & Hto & Hty) & _). exists p. split; [reflexivity | ].
    apply Hty in Hin. congruence.
  - destruct Hok as (_ & Hno & _). exfalso. eapply Hno, Hin.
Qed.

Lemma timeout_ok s id0 ty o :
  requests_ok s -> TRequest id0 ty ∈ timers s ->
  requests_ok
    (log (Settle (FRequest id0) o)
       (pending_delete id0
          (log (Fired (TRequest id0 ty))
             (set_timers (filter (λ x, x ≠ TRequest id0 ty) (timers s)) s)))).
Proof.
  intros Hok Hin. destruct (timer_owner s id0 ty Hok Hin) as (p & Hp & Hto).
  unfold pending_delete. cbn. rewrite Hp.
  eapply (finish_ok s _ id0 p [Fired (TRequest id0 ty); Deleted id0; Settle (FRequest id0) o]);
    try eassumption; try reflexivity.
  - cbn. rewrite Hto. reflexivity.
  - cbn. rewrite <- !app_assoc. reflexivity.
  - count_effects.
Qed.

Lemma fail_one_fields err s id0 p :
  requests_ok s -> _pending s !! id0 = Some p ->
  let s' := fail_one err s (id0, p) in
  _pending s' = delete id0 (_pending s)
  ∧ trace s' = trace s ++ [Cleared (timeout p); Settle (FRequest id0) (Rejected err); Deleted id0]
  ∧ timers s' = filter (λ x, x ≠ timeout p) (timers s)
  ∧ _idCounter s' = _idCounter s.
Proof.
  intros Hok Hp. destruct (request_timer_set s id0 p Hok Hp) as (Hs & ty & Hto & Hin).
  cbv zeta. unfold fail_one, reject. cbn [fst snd].
  unfold clearTimeout. rewrite bool_decide_eq_true_2 by exact Hin.
  unfold pending_delete. cbn. rewrite Hp, Hs.
  cbn. rewrite <- !app_assoc. auto.
Qed.

Lemma fail_one_ok err s id0 p :
  requests_ok s -> _pending s !! id0 = Some p -> requests_ok (fail_one err s (id0, p)).
Proof.
  intros Hok Hp. destruct (fail_one_fields err s id0 p Hok Hp) as (H1 & H2 & H3 & H4).
  destruct (request_timer_set s id0 p Hok Hp) as (Hs & ty & Hto & Hin).
  eapply (finish_ok s _ id0 p); try eassumption.
  rewrite Hto. count_effects.
Qed.

Lemma request_fields opts type payload tmo now s :
  ws_open s = true ->
  let id := make_id now (_idCounter s + 1) in
  ∃ s', request opts type payload tmo now s = Ok (FRequest id, s')
        ∧ _pending s' = <[id := {| settles := FRequest id; timeout := TRequest id type |}]> (_pending s)
        ∧ _idCounter s' = _idCounter s + 1
        ∧ timers s' = timers s ++ [TRequest id type]
        ∧ trace s' = trace s ++ [SetTimer (TRequest id type) (default 15000%Z tmo);
                                  Sent (opt_encode opts
                                          (JObj [(u "type", JStr type); (u "id", JStr id);
                                                 (u "payload", payload)]))]
        ∧ _ws s' = _ws s ∧ _connected s' = _connected s.
Proof.
  intros Hopen id. unfold request. rewrite Hopen. cbn [negb _nextId].
  eexists. split; [reflexivity | ]. cbn. rewrite <- !app_assoc. auto 10.
Qed.

Lemma request_ok_after opts type payload tmo now s r :
  requests_ok s -> request opts type payload tmo now s = Ok r -> requests_ok r.2.
Proof.
  intros Hok Hr. destruct (ws_open s) eqn:Hopen.
  - destruct (request_fields opts type payload tmo now s Hopen)
      as (s' & Hreq & Hp & Hc & Ht & Htr & _).
    rewrite Hreq in Hr. injection Hr as <-. cbn [snd].
    eapply (issue_ok s s' now type); try eassumption. count_effects.
  - unfold request in Hr. rewrite Hopen in Hr. discriminate.
Qed.

(** *** Closing fails every pending request *)

Lemma fold_fail_ok err : ∀ l s,
  requests_ok s -> NoDup l.*1 ->
  (∀ id p, (id, p) ∈ l -> _pending s !! id = Some p) ->
  let s' := fold_left (fail_one err) l s in
  requests_ok s'
  ∧ (∀ id, _pending s' !! id = if bool_decide (id ∈ l.*1) then None else _pending s !! id)
  ∧ (∀ id, settles_of (FRequest id) (trace s')
           = settles_of (FRequest id) (trace s)
             ++ (if bool_decide (id ∈ l.*1) then [Rejected err] else []))
  ∧ sent_frames (trace s') = sent_frames (trace s).
Proof.
  induction l as [|[id0 p] l IH]; intros s Hok Hnd Hin.
  - cbn. split; [exact Hok | ]. split; [reflexivity | ].
    split; [intros; now rewrite app_nil_r | reflexivity].
  - cbn [fold_left]. cbn [fmap list_fmap fst] in Hnd. apply NoDup_cons in Hnd as [Hnot Hnd].
    assert (Hp : _pending s !! id0 = Some p) by (apply Hin; left).
    destruct (fail_one_fields err s id0 p Hok Hp) as (F1 & F2 & F3 & F4).
    pose proof (fail_one_ok err s id0 p Hok Hp) as Hok1.
    destruct (IH (fail_one err s (id0, p)) Hok1 Hnd) as (I1 & I2 & I3 & I4).
    { intros id q Hq. rewrite F1. rewrite lookup_delete_ne.
      - apply Hin. right. exact Hq.
      - intros ->. apply Hnot. apply list_elem_of_fmap. exists (id, q). auto. }
    cbv zeta. split; [exact I1 | ]. split; [ | split].
    + intros id. rewrite I2, F1. cbn [fmap list_fmap fst].
      destruct (decide (id = id0)) as [-> | Hne].
      * rewrite lookup_delete_eq.
        rewrite (bool_decide_eq_true_2 (id0 ∈ id0 :: _)) by left.
        case_bool_decide; reflexivity.
      * rewrite lookup_delete_ne by congruence.
        repeat case_bool_decide; try reflexivity.
        -- exfalso. apply H0. right. exact H.
        -- exfalso. apply elem_of_cons in H0 as [? | ?]; tauto.
    + intros id. rewrite I3, F2. cbn [fmap list_fmap fst]. read_trace.
      rewrite <- app_assoc. f_equal.
      change [Cleared (timeout p); Settle (FRequest id0) (Rejected err); Deleted id0]
        with ([Cleared (timeout p)] ++ [Settle (FRequest id0) (Rejected err)] ++ [Deleted id0]).
      read_trace. cbn.
      destruct (decide (id = id0)) as [-> | Hne].
      * rewrite (bool_decide_eq_true_2 (id0 ∈ id0 :: _)) by left.
        rewrite bool_decide_eq_true_2 by reflexivity.
        rewrite bool_decide_eq_false_2 by exact Hnot. reflexivity.
      * rewrite (bool_decide_eq_false_2 (FRequest id0 = FRequest id)) by congruence.
        repeat case_bool_decide; try reflexivity.
        -- exfalso. apply H0. right. exact H.
        -- exfalso. apply elem_of_cons in H0 as [? | ?]; tauto.
    + rewrite I4, F2. read_trace.
      change [Cleared (timeout p); Settle (FRequest id0) (Rejected err); Deleted id0]
        with ([Cleared (timeout p)] ++ [Settle (FRequest id0) (Rejected err)] ++ [Deleted id0]).
      read_trace. reflexivity.
Qed.

Lemma failAllPending_ok err s :
  requests_ok s ->
  let s' := _failAllPending err s in
  requests_ok s'
  ∧ _pending s' = ∅
  ∧ (∀ id, settles_of (FRequest id) (trace s')
           = settles_of (FRequest id) (trace s)
             ++ (if bool_decide (is_Some (_pending s !! id)) then [Rejected err] else []))
  ∧ sent_frames (trace s') = sent_frames (trace s).
Proof.
  intros Hok. unfold _failAllPending.
  destruct (fold_fail_ok err (map_to_list (_pending s)) s Hok) as (H1 & H2 & H3 & H4).
  { apply NoDup_fst_map_to_list. }
  { intros id p Hin. apply elem_of_map_to_list in Hin. exact Hin. }
  assert (Hdom : ∀ id, id ∈ (map_to_list (_pending s)).*1 <-> is_Some (_pending s !! id)).
  { intros id. rewrite list_elem_of_fmap. split.
    - intros ([k p] & -> & Hin). apply elem_of_map_to_list in Hin. eauto.
    - intros [p Hp]. exists (id, p). split; [reflexivity | ]. apply elem_of_map_to_list, Hp. }
  cbv zeta. split; [exact H1 | ]. split; [ | split; [ | exact H4]].
  - apply map_eq. intros id. rewrite H2, lookup_empty.
    case_bool_decide as Hd; [reflexivity | ].
    destruct (_pending s !! id) eqn:E; [ | reflexivity ].
    exfalso. apply Hd, Hdom. eauto.
  - intros id. rewrite H3. repeat case_bool_decide; try reflexivity.
    + exfalso. apply H0, Hdom, H.
    + exfalso. apply H, Hdom, H0.
Qed.

(** *** Every step keeps the request table sound *)

Lemma handleMessage_requests_ok opts data s s' :
  requests_ok s -> _handleMessage opts data s = Ok s' -> requests_ok s'.
Proof.
  intros Hok. unfold _handleMessage.
  destruct (opt_decode opts data) as [env|e].
  2:{ destruct (tolerantDecode opts); [ | discriminate ].
      intros [= <-]. eapply requests_ok_core; [apply core_emit | exact Hok]. }
  destruct (negb (truthy env) || negb (is_string (prop_opt env (u "type")))).
  { intros [= <-]. exact Hok. }
  destruct (truthy (prop_opt env (u "replyTo"))).
  - destruct (prop_opt env (u "replyTo")) as [| | | |replyTo| |]; try (intros [= <-]; exact Hok).
    destruct (_pending s !! replyTo) as [p|] eqn:Hp; [ | intros [= <-]; exact Hok ].
    destruct (truthy (prop_opt env (u "error"))); intros [= <-]; apply (reply_ok s replyTo p _ Hok Hp).
  - destruct (prop_opt env (u "type")); intros [= <-]; try exact Hok.
    eapply requests_ok_core; [apply core_dispatch | exact Hok].
Qed.

Lemma ws_onclose_requests_ok opts random s :
  requests_ok s -> requests_ok (ws_onclose opts random s).
Proof.
  intros Hok. unfold ws_onclose.
  set (s3 := _emit Disconnected (_clearHeartbeat (set_connected false s))).
  assert (H3 : requests_ok s3).
  { eapply requests_ok_view; [ | exact Hok ]. subst s3.
    rewrite (core_request _ _ (core_emit _ _)), (core_request _ _ (core_clearHeartbeat _)).
    reflexivity. }
  set (s4 := if _connected s then _failAllPending (Error (u "socket closed")) s3 else s3).
  assert (H4 : requests_ok s4).
  { subst s4. destruct (_connected s); [ | exact H3 ].
    apply (failAllPending_ok _ s3 H3). }
  destruct (autoReconnect s4); [ | exact H4 ].
  eapply requests_ok_core; [apply core_scheduleReconnect | exact H4].
Qed.

Lemma fire_requests_ok opts t ctor s :
  requests_ok s -> t ∈ timers s -> requests_ok (fire opts t ctor s).
Proof.
  intros Hok Hin. unfold fire. destruct t as [id ty|n|n|n]; cbn [timer_callback].
  - apply (timeout_ok s id ty _ Hok Hin).
  - eapply requests_ok_view; [ | exact Hok ].
    rewrite (core_request _ _ (core_wait_timeout _ _)).
    rewrite (core_request _ _ (core_log (Fired (TWait n)) _ eq_refl)).
    unfold request_view. cbn. rewrite filter_remove_other by discriminate. reflexivity.
  - eapply requests_ok_view; [ | exact Hok ].
    rewrite view_connect.
    rewrite (core_request _ _ (core_log (Fired (TReconnect n)) _ eq_refl)).
    unfold request_view. cbn. rewrite filter_remove_other by discriminate. reflexivity.
  - eapply requests_ok_core; [ | exact Hok ].
    rewrite core_heartbeat_tick, core_log by reflexivity. reflexivity.
Qed.

Lemma handle_requests_ok opts ev s :
  requests_ok s -> enabled ev s = true -> requests_ok (handle opts ev s).
Proof.
  intros Hok Hen. destruct ev; cbn [handle].
  - eapply requests_ok_view; [apply view_connect | exact Hok].
  - eapply requests_ok_view; [ | exact Hok ]. rewrite view_ws_onopen. reflexivity.
  - destruct (_handleMessage opts data s) as [s'|] eqn:E; [ | exact Hok ].
    eapply handleMessage_requests_ok; eassumption.
  - eapply requests_ok_core; [apply core_emit | exact Hok].
  - apply ws_onclose_requests_ok. eapply requests_ok_view; [ | exact Hok ]. reflexivity.
  - eapply requests_ok_view; [apply view_close | exact Hok].
  - destruct (send opts type payload s) as [s'|] eqn:E; [ | exact Hok ].
    eapply requests_ok_core; [eapply core_send, E | exact Hok].
  - destruct (request opts type payload timeoutMs now s) as [r|] eqn:E; [ | exact Hok ].
    eapply request_ok_after; eassumption.
  - eapply requests_ok_core; [apply core_onType | exact Hok].
  - eapply requests_ok_core; [apply core_offType | exact Hok].
  - eapply requests_ok_core; [apply core_waitFor | exact Hok].
  - destruct (_sendAndWait opts type payload expectList timeoutMs s) as [r|] eqn:E; [ | exact Hok ].
    eapply requests_ok_core; [eapply core_sendAndWait, E | exact Hok].
  - cbn [enabled] in Hen. apply andb_true_iff in Hen as [Hin _].
    apply bool_decide_eq_true in Hin. apply fire_requests_ok; assumption.
  - destruct (rejections s !! i) as [[env e]|]; [ | exact Hok ].
    eapply requests_ok_core; [ | exact Hok ]. rewrite core_handler_rejected. reflexivity.
Qed.

Lemma new_socket_requests_ok auto : requests_ok (new_socket auto).
Proof.
  intros id. unfold request_ok. cbn. rewrite lookup_empty.
  split; [intros H; inversion H | ].
  split; [intros ty Hin; inversion Hin | ]. repeat split; lia.
Qed.

Lemma run_requests_ok opts evs : ∀ s s',
  requests_ok s -> run opts evs s = Some s' -> requests_ok s'.
Proof.
  induction evs as [|ev evs IH]; intros s s' Hok Hrun.
  - injection Hrun as <-. exact Hok.
  - cbn [run] in Hrun. destruct (enabled ev s) eqn:Hen; [ | discriminate ].
    eapply IH; [ | exact Hrun ]. apply handle_requests_ok; assumption.
Qed.

Lemma reachable_requests_ok opts s : reachable opts s -> requests_ok s.
Proof.
  intros (auto & evs & Hrun). eapply run_requests_ok; [apply new_socket_requests_ok | exact Hrun].
Qed.

(** *** The connection flag *)

Lemma core_ws s s' : core_view s' = core_view s -> _ws s' = _ws s.
Proof. unfold core_view. congruence. Qed.















(** *** C4: closing with requests outstanding *)

Lemma settles_of_view id tr :
  settles_of (FRequest id) (filter (λ e, is_request_effect e = true) tr)
  = settles_of (FRequest id) tr.
Proof.
  induction tr as [|e tr IH]; [reflexivity | ].
  change (e :: tr) with ([e] ++ tr). rewrite filter_app, !settles_of_app, IH. f_equal.
  destruct (is_request_effect e) eqn:E.
  - rewrite filter_cons_True by exact E. reflexivity.
  - rewrite filter_cons_False by (rewrite E; discriminate). rewrite filter_nil, settles_of_one.
    destruct e as [|f o| | | | | | | |]; try reflexivity. destruct f; try discriminate;
      unfold settles_of; cbn; case_bool_decide; congruence.
Qed.

Lemma view_settles s s' id :
  request_view s' = request_view s ->
  settles_of (FRequest id) (trace s') = settles_of (FRequest id) (trace s).
Proof.
  unfold request_view. intros [= _ _ Htr _].
  rewrite <- (settles_of_view id (trace s')), <- (settles_of_view id (trace s)), Htr. reflexivity.
Qed.


Lemma clearHeartbeat_fields s :
  autoReconnect (_clearHeartbeat s) = autoReconnect s
  ∧ sent_frames (trace (_clearHeartbeat s)) = sent_frames (trace s).
Proof.
  unfold _clearHeartbeat. destruct (_heartbeatTimer s); cbn; [ | auto ].
  unfold clearTimeout. case_bool_decide; cbn; [ | auto ]. read_trace. auto.
Qed.

Lemma scheduleReconnect_sent opts r s :
  sent_frames (trace (_scheduleReconnect opts r s)) = sent_frames (trace s).
Proof.
  unfold _scheduleReconnect.
  match goal with |- context [if ?c then _ else _] => destruct c end; [reflexivity | ].
  cbn. read_trace. reflexivity.
Qed.

Lemma ws_onopen_sent opts s : sent_frames (trace (ws_onopen opts s)) = sent_frames (trace s).
Proof.
  unfold ws_onopen, _startHeartbeat. destruct (_ =? _)%Z; cbn; read_trace; reflexivity.
Qed.


(** *** What a step does to the count of a request *)









(** *** C1: a request settles exactly once *)


Lemma run_reachable opts evs s s' :
  reachable opts s -> run opts evs s = Some s' -> reachable opts s'.
Proof.
  intros (auto & evs0 & H0) Hrun. exists auto, (evs0 ++ evs).
  revert H0. generalize (new_socket auto). induction evs0 as [|ev evs0 IH]; intros x H0.
  - injection H0 as ->. exact Hrun.
  - cbn [run app] in *. destruct (enabled ev x); [ | discriminate ]. apply IH, H0.
Qed.



Lemma make_id_truthy now c : truthy (JStr (make_id now c)) = true.
Proof.
  unfold make_id. cbn [truthy]. unfold jstr_eqb.
  rewrite bool_decide_eq_false_2; [reflexivity | ].
  destruct (toString36 now); discriminate.
Qed.




(** *** Operations that leave a wait alone *)

Lemma same_wait_refl n s : same_wait n s s.
Proof. unfold same_wait. repeat split; auto. Qed.

Lemma same_wait_trans n s1 s2 s3 : same_wait n s1 s2 -> same_wait n s2 s3 -> same_wait n s1 s3.
Proof.
  intros (A1 & A2 & A3 & A4 & A5) (B1 & B2 & B3 & B4 & B5). unfold same_wait.
  split; [congruence | ]. split; [tauto | ]. split; [ | split; [congruence | lia]].
  intros t h Ho. rewrite (B3 t h Ho). apply A3, Ho.
Qed.

(** In continuation form: what holds up to [x] still holds after one more
    operation on [x]. *)
Lemma sw_log n e s x :
  is_wait_effect n e = false -> same_wait n s x -> same_wait n s (log e x).
Proof.
  intros He H. eapply same_wait_trans; [exact H | ].
  unfold same_wait, handlers_of. cbn.
  rewrite filter_snoc_false by (rewrite He; discriminate). repeat split; auto.
Qed.

Lemma sw_fields n s x y :
  waits y = waits x -> timers y = timers x -> _handlers y = _handlers x ->
  trace y = trace x -> (calls x <= calls y)%nat ->
  same_wait n s x -> same_wait n s y.
Proof.
  intros Hw Ht Hh Htr Hc H. eapply same_wait_trans; [exact H | ].
  unfold same_wait, handlers_of. rewrite Hw, Ht, Hh, Htr. repeat split; auto.
Qed.

Lemma sw_set_calls n v s x :
  (calls x <= v)%nat -> same_wait n s x -> same_wait n s (set_calls v x).
Proof. intros Hv H. eapply (sw_fields n s x); try exact H; try reflexivity. exact Hv. Qed.

Lemma sw_set_heartbeatTimer n v s x : same_wait n s x -> same_wait n s (set_heartbeatTimer v x).
Proof. intros H. eapply (sw_fields n s x); try exact H; reflexivity. Qed.

Lemma sw_set_pending n v s x : same_wait n s x -> same_wait n s (set_pending v x).
Proof. intros H. eapply (sw_fields n s x); try exact H; reflexivity. Qed.

Lemma sw_set_idCounter n v s x : same_wait n s x -> same_wait n s (set_idCounter v x).
Proof. intros H. eapply (sw_fields n s x); try exact H; reflexivity. Qed.

Lemma sw_set_reconnectAttempts n v s x :
  same_wait n s x -> same_wait n s (set_reconnectAttempts v x).
Proof. intros H. eapply (sw_fields n s x); try exact H; reflexivity. Qed.

Lemma sw_set_connected n v s x : same_wait n s x -> same_wait n s (set_connected v x).
Proof. intros H. eapply (sw_fields n s x); try exact H; reflexivity. Qed.

Lemma sw_set_ws n v s x : same_wait n s x -> same_wait n s (set_ws v x).
Proof. intros H. eapply (sw_fields n s x); try exact H; reflexivity. Qed.

Lemma sw_set_ws_owner n v s x : same_wait n s x -> same_wait n s (set_ws_owner v x).
Proof. intros H. eapply (sw_fields n s x); try exact H; reflexivity. Qed.

Lemma sw_set_autoReconnect n v s x : same_wait n s x -> same_wait n s (set_autoReconnect v x).
Proof. intros H. eapply (sw_fields n s x); try exact H; reflexivity. Qed.

Lemma sw_set_rejections n v s x : same_wait n s x -> same_wait n s (set_rejections v x).
Proof. intros H. eapply (sw_fields n s x); try exact H; reflexivity. Qed.

Lemma sw_setTimeout n t d s x :
  t ≠ TWait n -> same_wait n s x -> same_wait n s (setTimeout t d x).
Proof.
  intros Ht H. unfold setTimeout. apply sw_log.
  - destruct t; try reflexivity. cbn. apply bool_decide_eq_false. congruence.
  - eapply same_wait_trans; [exact H | ].
    unfold same_wait, handlers_of. cbn. repeat split; auto.
    + rewrite elem_of_app, list_elem_of_singleton. intros [? | ?]; [assumption | congruence].
    + intros Hin. apply elem_of_app. left. exact Hin.
Qed.

Lemma sw_clearTimeout n t s x :
  t ≠ TWait n -> same_wait n s x -> same_wait n s (clearTimeout t x).
Proof.
  intros Ht H. unfold clearTimeout. case_bool_decide; [ | exact H ].
  apply sw_log.
  - destruct t; try reflexivity. cbn. apply bool_decide_eq_false. congruence.
  - eapply same_wait_trans; [exact H | ].
    unfold same_wait, handlers_of. cbn. repeat split; auto.
    + rewrite list_elem_of_filter. tauto.
    + intros Hin. apply list_elem_of_filter. split; [congruence | exact Hin].
Qed.

Lemma sw_pending_delete n id s x : same_wait n s x -> same_wait n s (pending_delete id x).
Proof.
  intros H. unfold pending_delete. destruct (_pending x !! id); [ | exact H ].
  apply sw_log; [reflexivity | ]. apply sw_set_pending, H.
Qed.

Lemma sw_settle n f o s x :
  f ≠ FWait n -> same_wait n s x -> same_wait n s (log (Settle f o) x).
Proof.
  intros Hf H. apply sw_log; [ | exact H ].
  destruct f; try reflexivity. cbn. apply bool_decide_eq_false. congruence.
Qed.

Lemma handlers_of_insert s t t' l :
  handlers_of (set_handlers (<[t := l]> (_handlers s)) s) t'
  = if bool_decide (t = t') then l else handlers_of s t'.
Proof.
  unfold handlers_of. cbn. case_bool_decide as E.
  - subst. rewrite lookup_insert_eq. reflexivity.
  - rewrite lookup_insert_ne by exact E. reflexivity.
Qed.

Lemma sw_onType n t h s x :
  owner h ≠ Some n -> same_wait n s x -> same_wait n s (onType t h x).
Proof.
  intros Ho H. unfold onType. case_bool_decide; [exact H | ].
  apply sw_log; [cbn; apply bool_decide_eq_false; exact Ho | ].
  eapply same_wait_trans; [exact H | ].
  unfold same_wait. cbn [waits timers trace calls set_handlers]. repeat split; auto.
  - rewrite handlers_of_insert. case_bool_decide; [subst | auto].
    rewrite elem_of_app, list_elem_of_singleton. intros [? | ?]; [assumption | congruence].
  - rewrite handlers_of_insert. case_bool_decide; [subst | auto].
    intros Hin. apply elem_of_app. left. exact Hin.
Qed.

Lemma sw_offType n t h s x :
  owner h ≠ Some n -> same_wait n s x -> same_wait n s (offType t h x).
Proof.
  intros Ho H. unfold offType. destruct (_handlers x !! t) as [set|] eqn:E; [ | exact H ].
  case_bool_decide; [ | exact H ].
  apply sw_log; [cbn; apply bool_decide_eq_false; exact Ho | ].
  eapply same_wait_trans; [exact H | ].
  assert (Hset : handlers_of x t = set) by (unfold handlers_of; rewrite E; reflexivity).
  unfold same_wait. cbn [waits timers trace calls set_handlers]. repeat split; auto.
  - rewrite handlers_of_insert. case_bool_decide; [subst | auto].
    rewrite list_elem_of_filter. tauto.
  - rewrite handlers_of_insert. case_bool_decide; [subst | auto].
    intros Hin. apply list_elem_of_filter. split; [congruence | exact Hin].
Qed.

Lemma subscriptions_owner m w sub : sub ∈ subscriptions m w -> owner sub.2 = Some m.
Proof.
  destruct w as [p|l]; cbn [subscriptions].
  - intros Hin. repeat (apply elem_of_cons in Hin as [-> | Hin]); try reflexivity. inversion Hin.
  - intros Hin. apply list_elem_of_lookup in Hin as [i Hi].
    rewrite list_lookup_imap in Hi. destruct (l !! i); [ | discriminate ].
    cbn in Hi. injection Hi as <-. reflexivity.
Qed.

Lemma sw_unsubscribe_all n s subs : ∀ x,
  (∀ sub, sub ∈ subs -> owner sub.2 ≠ Some n) ->
  same_wait n s x -> same_wait n s (fold_left (λ s' sub, offType sub.1 sub.2 s') subs x).
Proof.
  induction subs as [|sub subs IH]; intros x Hsubs H; [exact H | ].
  cbn [fold_left]. apply IH.
  - intros y Hy. apply Hsubs. right. exact Hy.
  - apply sw_offType; [apply Hsubs; left | exact H].
Qed.

Lemma sw_subscribe_all n s subs : ∀ x,
  (∀ sub, sub ∈ subs -> owner sub.2 ≠ Some n) ->
  same_wait n s x -> same_wait n s (subscribe_all subs x).
Proof.
  unfold subscribe_all. induction subs as [|sub subs IH]; intros x Hsubs H; [exact H | ].
  cbn [fold_left]. apply IH.
  - intros y Hy. apply Hsubs. right. exact Hy.
  - apply sw_onType; [apply Hsubs; left | exact H].
Qed.

Lemma other_subscriptions n m w sub : m ≠ n -> sub ∈ subscriptions m w -> owner sub.2 ≠ Some n.
Proof. intros Hm Hin. rewrite (subscriptions_owner m w sub Hin). congruence. Qed.

Lemma sw_release n m w s x : m ≠ n -> same_wait n s x -> same_wait n s (release m w x).
Proof.
  intros Hm H. unfold release. apply sw_unsubscribe_all.
  - intros sub. apply other_subscriptions, Hm.
  - apply sw_clearTimeout; [congruence | exact H].
Qed.

Lemma sw_wait_timeout n m s x : m ≠ n -> same_wait n s x -> same_wait n s (wait_timeout m x).
Proof.
  intros Hm H. unfold wait_timeout. destruct (waits x !! m) as [[p|l]|]; [ | | exact H ];
    (apply sw_settle; [congruence | ]); apply sw_release; assumption.
Qed.

Lemma sw_sendReply opts n to p e s x :
  same_wait n s x -> same_wait n s (_sendReply opts to p e x).
Proof.
  intros H. unfold _sendReply. destruct (negb (truthy _)); [exact H | ].
  destruct (negb (ws_open x)); [exact H | ]. apply sw_log; [reflexivity | exact H].
Qed.

Lemma sw_invoke opts n h env s x :
  owner h ≠ Some n -> same_wait n s x -> same_wait n s (invoke opts h env x).1.
Proof.
  intros Ho H. unfold invoke. destruct h as [k|m|m|m i]; [exact H | | | ];
    (assert (Hm : m ≠ n) by (cbn in Ho; congruence));
    destruct (waits x !! m) as [[p|l]|]; try exact H; cbn [fst].
  - destruct (p _) as [[|]|]; try exact H. cbn [fst].
    apply sw_settle; [congruence | ]. apply sw_release; assumption.
  - apply sw_settle; [congruence | ]. apply sw_release; assumption.
  - apply sw_settle; [congruence | ]. apply sw_release; assumption.
Qed.

Lemma sw_deliver opts n h env s x :
  owner h ≠ Some n -> same_wait n s x -> same_wait n s (deliver opts h env x).
Proof.
  intros Ho H. unfold deliver.
  pose proof (sw_invoke opts n h env s (log (Called h) x) Ho
                (sw_log n (Called h) s x eq_refl H)) as Hi.
  destruct (invoke opts h env (log (Called h) x)) as [y c]. cbn [fst] in Hi.
  destruct c; [exact Hi | | ].
  - unfold replyError. apply sw_sendReply, Hi.
  - apply sw_set_rejections, Hi.
Qed.

Lemma sw_handler_rejected opts n env e s x :
  same_wait n s x -> same_wait n s (handler_rejected opts env e x).
Proof. intros H. unfold handler_rejected, replyError. apply sw_sendReply, H. Qed.

Lemma sw_connect n ctor s x : same_wait n s x -> same_wait n s (connect ctor x).2.
Proof.
  intros H. unfold connect. destruct ctor; cbn [snd].
  - apply sw_set_ws_owner, sw_set_ws, sw_set_calls; [lia | exact H].
  - apply sw_settle; [discriminate | ]. apply sw_set_calls; [lia | exact H].
Qed.

Lemma sw_startHeartbeat opts n s x :
  same_wait n s x -> same_wait n s (_startHeartbeat opts x).
Proof.
  intros H. unfold _startHeartbeat. destruct (_ =? _)%Z; [exact H | ].
  apply sw_set_heartbeatTimer, sw_setTimeout; [discriminate | ].
  apply sw_set_calls; [lia | exact H].
Qed.

Lemma sw_clearHeartbeat n s x : same_wait n s x -> same_wait n s (_clearHeartbeat x).
Proof.
  intros H. unfold _clearHeartbeat. apply sw_set_heartbeatTimer.
  destruct (_heartbeatTimer x); [ | exact H ]. apply sw_clearTimeout; [discriminate | exact H].
Qed.

Lemma sw_scheduleReconnect opts n r s x :
  same_wait n s x -> same_wait n s (_scheduleReconnect opts r x).
Proof.
  intros H. unfold _scheduleReconnect.
  match goal with |- context [if ?c then _ else _] => destruct c end; [exact H | ].
  apply sw_setTimeout; [discriminate | ].
  apply sw_set_calls; [lia | ].
  unfold _emit. apply sw_log; [reflexivity | ]. apply sw_set_reconnectAttempts, H.
Qed.

Lemma sw_ws_onopen opts n s x : same_wait n s x -> same_wait n s (ws_onopen opts x).
Proof.
  intros H. unfold ws_onopen, resolve. apply sw_settle; [discriminate | ].
  apply sw_startHeartbeat. unfold _emit. apply sw_log; [reflexivity | ].
  apply sw_set_reconnectAttempts, sw_set_connected, H.
Qed.

Lemma sw_close n s x : same_wait n s x -> same_wait n s (close x).
Proof.
  intros H. unfold close. apply sw_clearHeartbeat.
  destruct (_ws (set_autoReconnect false x)) as [[| | |]|];
    repeat first [apply sw_set_ws | apply sw_set_autoReconnect]; exact H.
Qed.

Lemma sw_send opts n type payload s x y :
  send opts type payload x = Ok y -> same_wait n s x -> same_wait n s y.
Proof.
  unfold send. destruct (negb (ws_open x)); [discriminate | ]. intros [= <-] H.
  apply sw_log; [reflexivity | exact H].
Qed.

Lemma sw_heartbeat_tick opts n s x : same_wait n s x -> same_wait n s (heartbeat_tick opts x).
Proof.
  intros H. unfold heartbeat_tick. destruct (negb (ws_open x)); [exact H | ].
  apply sw_log; [reflexivity | exact H].
Qed.

Lemma sw_request opts n type payload tmo now s x r :
  request opts type payload tmo now x = Ok r -> same_wait n s x -> same_wait n s r.2.
Proof.
  unfold request. destruct (negb (ws_open x)); [discriminate | ]. cbn [_nextId].
  intros [= <-] H. cbn [snd]. apply sw_log; [reflexivity | ].
  apply sw_set_pending, sw_setTimeout; [discriminate | ]. apply sw_set_idCounter, H.
Qed.

(** A request owns a request timer and a request future. *)
Lemma sw_fail_one n err s x entry :
  requests_ok x -> _pending x !! entry.1 = Some entry.2 ->
  same_wait n s x -> same_wait n s (fail_one err x entry).
Proof.
  intros Hok Hp H. destruct (request_timer_set x _ _ Hok Hp) as (Hs & ty & Hto & _).
  unfold fail_one, reject. apply sw_pending_delete. rewrite Hs, Hto.
  apply sw_settle; [discriminate | ]. apply sw_clearTimeout; [discriminate | exact H].
Qed.

Lemma sw_failAllPending n err s x :
  requests_ok x -> same_wait n s x -> same_wait n s (_failAllPending err x).
Proof.
  intros Hok H. unfold _failAllPending.
  assert (Hgen : ∀ l y, requests_ok y -> NoDup l.*1 ->
            (∀ id p, (id, p) ∈ l -> _pending y !! id = Some p) ->
            same_wait n s y -> same_wait n s (fold_left (fail_one err) l y)).
  { induction l as [|[id p] l IH]; intros y Hy Hnd Hin Hsw; [exact Hsw | ].
    cbn [fold_left]. cbn [fmap list_fmap fst] in Hnd. apply NoDup_cons in Hnd as [Hnot Hnd].
    assert (Hp : _pending y !! id = Some p) by (apply Hin; left).
    destruct (fail_one_fields err y id p Hy Hp) as (F1 & _).
    apply IH; [apply fail_one_ok; assumption | exact Hnd | | ].
    - intros id' q Hq. rewrite F1, lookup_delete_ne; [apply Hin; right; exact Hq | ].
      intros ->. apply Hnot, list_elem_of_fmap. exists (id', q). auto.
    - apply sw_fail_one; assumption. }
  apply Hgen; [exact Hok | apply NoDup_fst_map_to_list | | exact H].
  intros id p Hin. apply elem_of_map_to_list in Hin. exact Hin.
Qed.

Lemma sw_ws_onclose opts n r s x :
  requests_ok x -> same_wait n s x -> same_wait n s (ws_onclose opts r x).
Proof.
  intros Hok H. unfold ws_onclose.
  set (s3 := _emit Disconnected (_clearHeartbeat (set_connected false x))).
  assert (H3 : same_wait n s s3).
  { subst s3. unfold _emit. apply sw_log; [reflexivity | ]. apply sw_clearHeartbeat.
    apply sw_set_connected, H. }
  assert (Hok3 : requests_ok s3).
  { eapply requests_ok_view; [ | exact Hok ]. subst s3.
    rewrite (core_request _ _ (core_emit _ _)), (core_request _ _ (core_clearHeartbeat _)).
    reflexivity. }
  set (s4 := if _connected x then _ else s3).
  assert (H4 : same_wait n s s4).
  { subst s4. destruct (_connected x); [ | exact H3 ]. apply sw_failAllPending; assumption. }
  destruct (autoReconnect s4); [ | exact H4 ]. apply sw_scheduleReconnect, H4.
Qed.

(** *** What a wait can see decides what is known of it *)

Lemma count_wait_view n P tr :
  (∀ e, P e = true -> is_wait_effect n e = true) ->
  count P (filter (λ e, is_wait_effect n e = true) tr) = count P tr.
Proof.
  intros HP. induction tr as [|e tr IH]; [reflexivity | ].
  destruct (is_wait_effect n e) eqn:E.
  - rewrite filter_cons_True by exact E. rewrite !count_cons, IH. reflexivity.
  - rewrite filter_cons_False by (rewrite E; discriminate). rewrite count_cons, IH.
    destruct (P e) eqn:EP; [ | reflexivity ]. apply HP in EP. congruence.
Qed.

Lemma settles_of_wait_view n tr :
  settles_of (FWait n) (filter (λ e, is_wait_effect n e = true) tr) = settles_of (FWait n) tr.
Proof.
  induction tr as [|e tr IH]; [reflexivity | ].
  change (e :: tr) with ([e] ++ tr). rewrite filter_app, !settles_of_app, IH. f_equal.
  destruct (is_wait_effect n e) eqn:E.
  - rewrite filter_cons_True by exact E. reflexivity.
  - rewrite filter_cons_False by (rewrite E; discriminate). rewrite filter_nil, settles_of_one.
    destruct e as [|f o| | | | | | | |]; try reflexivity.
    destruct f as [m|id|m].
    + rewrite bool_decide_eq_false_2 by discriminate. reflexivity.
    + rewrite bool_decide_eq_false_2 by discriminate. reflexivity.
    + cbn in E. apply bool_decide_eq_false in E.
      rewrite bool_decide_eq_false_2 by congruence. reflexivity.
Qed.

Lemma release_is_wait n e : is_release (TWait n) e = true -> is_wait_effect n e = true.
Proof.
  destruct e as [| | |t d|t|t| | | |]; try discriminate; cbn;
    intros H; apply bool_decide_eq_true in H; subst t; cbn; apply bool_decide_eq_true; reflexivity.
Qed.

Lemma unsubscription_is_wait n t h e :
  owner h = Some n -> is_unsubscription t h e = true -> is_wait_effect n e = true.
Proof.
  intros Ho. destruct e as [| | | | | | | | |]; try discriminate; cbn.
  intros H. apply bool_decide_eq_true in H as [_ ->]. apply bool_decide_eq_true. exact Ho.
Qed.

Lemma same_wait_settles n s s' :
  same_wait n s s' -> settles_of (FWait n) (trace s') = settles_of (FWait n) (trace s).
Proof.
  intros (_ & _ & _ & Htr & _).
  rewrite <- (settles_of_wait_view n (trace s')), <- (settles_of_wait_view n (trace s)), Htr.
  reflexivity.
Qed.

Lemma same_wait_releases n s s' :
  same_wait n s s' -> releases_of (TWait n) (trace s') = releases_of (TWait n) (trace s).
Proof.
  intros (_ & _ & _ & Htr & _). unfold releases_of.
  rewrite <- (count_wait_view n _ (trace s') (release_is_wait n)),
    <- (count_wait_view n _ (trace s) (release_is_wait n)), Htr.
  reflexivity.
Qed.

Lemma same_wait_unsubscriptions n t h s s' :
  owner h = Some n -> same_wait n s s' ->
  unsubscriptions_of t h (trace s') = unsubscriptions_of t h (trace s).
Proof.
  intros Ho (_ & _ & _ & Htr & _). unfold unsubscriptions_of.
  rewrite <- (count_wait_view n _ (trace s') (λ e, unsubscription_is_wait n t h e Ho)),
    <- (count_wait_view n _ (trace s) (λ e, unsubscription_is_wait n t h e Ho)), Htr.
  reflexivity.
Qed.

Lemma wait_live_same n w s s' : same_wait n s s' -> wait_live n w s -> wait_live n w s'.
Proof.
  intros Hsw (Ht & Hh & Hs & Hr & Hu).
  pose proof Hsw as (_ & Hti & Hha & _ & _).
  split; [apply Hti, Ht | ].
  split; [intros sub Hin; apply Hha; [apply (subscriptions_owner n w), Hin | apply Hh, Hin] | ].
  split; [rewrite (same_wait_settles n s s' Hsw); exact Hs | ].
  split; [rewrite (same_wait_releases n s s' Hsw); exact Hr | ].
  intros sub Hin.
  rewrite (same_wait_unsubscriptions n _ _ s s' (subscriptions_owner n w sub Hin) Hsw).
  apply Hu, Hin.
Qed.

Lemma wait_done_same n w o s s' : same_wait n s s' -> wait_done n w o s -> wait_done n w o s'.
Proof.
  intros Hsw (Ht & Hh & Hs & Hr & Hu).
  pose proof Hsw as (_ & Hti & Hha & _ & _).
  split; [intros Hin; apply Ht, Hti, Hin | ].
  split; [intros t h Ho Hin; apply (Hh t h Ho), Hha; assumption | ].
  split; [rewrite (same_wait_settles n s s' Hsw); exact Hs | ].
  split; [rewrite (same_wait_releases n s s' Hsw); exact Hr | ].
  intros sub Hin.
  rewrite (same_wait_unsubscriptions n _ _ s s' (subscriptions_owner n w sub Hin) Hsw).
  apply Hu, Hin.
Qed.

Lemma wait_ok_same n w s s' : same_wait n s s' -> wait_ok n w s -> wait_ok n w s'.
Proof.
  intros Hsw (Hc & Hw & Hsub & Hst).
  pose proof Hsw as (Hwa & _ & Hha & _ & Hca).
  split; [lia | ]. split; [rewrite Hwa; exact Hw | ].
  split; [intros t h Ho Hin; apply (Hsub t h Ho), Hha; assumption | ].
  destruct Hst as [Hl | [o Hd]].
  - left. apply (wait_live_same n w s s' Hsw Hl).
  - right. exists o. apply (wait_done_same n w o s s' Hsw Hd).
Qed.

(** *** Subscribing and unsubscribing a list of handlers *)

Lemma subscriptions_NoDup n w : NoDup (subscriptions n w).
Proof.
  destruct w as [p|l]; cbn [subscriptions].
  - apply NoDup_cons. split; [ | apply NoDup_singleton ].
    intros Hin. apply list_elem_of_singleton in Hin. discriminate.
  - apply NoDup_alt. intros i j x Hi Hj. rewrite list_lookup_imap in Hi, Hj.
    destruct (l !! i); destruct (l !! j); cbn in *; congruence.
Qed.

Lemma handlers_of_log e x t : handlers_of (log e x) t = handlers_of x t.
Proof. reflexivity. Qed.

Lemma handlers_of_offType t0 h0 x t h :
  h ∈ handlers_of (offType t0 h0 x) t <-> h ∈ handlers_of x t ∧ ¬ (t = t0 ∧ h = h0).
Proof.
  unfold offType. destruct (_handlers x !! t0) as [set|] eqn:E.
  - case_bool_decide as Hin.
    + rewrite handlers_of_log, handlers_of_insert. case_bool_decide as Ht.
      * subst t0. unfold handlers_of. rewrite E. cbn. rewrite list_elem_of_filter.
        split; [intros [H1 H2]; split; [exact H2 | intros [_ ->]; congruence] | ].
        intros [H1 H2]. split; [intros ->; apply H2; auto | exact H1].
      * split; [intros H; split; [exact H | intros [-> _]; congruence] | tauto].
    + split; [ | tauto ]. intros H. split; [exact H | ]. intros [-> ->].
      apply Hin. unfold handlers_of in H. rewrite E in H. exact H.
  - split; [ | tauto ]. intros H. split; [exact H | ]. intros [-> ->].
    unfold handlers_of in H. rewrite E in H. inversion H.
Qed.

Lemma offType_trace t0 h0 x :
  h0 ∈ handlers_of x t0 -> trace (offType t0 h0 x) = trace x ++ [Unsubscribed t0 h0].
Proof.
  unfold offType, handlers_of. intros Hin. destruct (_handlers x !! t0) as [set|]; cbn in Hin.
  - rewrite bool_decide_eq_true_2 by exact Hin. reflexivity.
  - inversion Hin.
Qed.

Lemma offType_fields t0 h0 x :
  waits (offType t0 h0 x) = waits x ∧ calls (offType t0 h0 x) = calls x
  ∧ timers (offType t0 h0 x) = timers x.
Proof.
  unfold offType. destruct (_handlers x !! t0); [ | auto ]. case_bool_decide; auto.
Qed.

Lemma unsubscribe_all_spec (subs : list (jstring * handler)) : ∀ x,
  NoDup subs -> (∀ sub, sub ∈ subs -> sub.2 ∈ handlers_of x sub.1) ->
  let x' := fold_left (λ s' sub, offType sub.1 sub.2 s') subs x in
  waits x' = waits x ∧ calls x' = calls x ∧ timers x' = timers x
  ∧ (∀ t h, h ∈ handlers_of x' t <-> h ∈ handlers_of x t ∧ (t, h) ∉ subs)
  ∧ trace x' = trace x ++ map (λ sub, Unsubscribed sub.1 sub.2) subs.
Proof.
  induction subs as [|[t0 h0] subs IH]; intros x Hnd Hin; cbn [fold_left map fst snd].
  - rewrite app_nil_r. do 3 (split; [reflexivity | ]). split; [ | reflexivity ].
    intros t h. split; [ | intros [H _]; exact H ].
    intros H. split; [exact H | intros Hx; inversion Hx].
  - apply NoDup_cons in Hnd as [Hfresh Hnd].
    assert (H0 : h0 ∈ handlers_of x t0) by (apply (Hin (t0, h0)); left).
    destruct (offType_fields t0 h0 x) as (Hw & Hc & Ht).
    destruct (IH (offType t0 h0 x) Hnd) as (Iw & Ic & It & Ih & Itr).
    { intros [t h] Hs. cbn [fst snd]. apply handlers_of_offType. split; [apply (Hin (t, h)); right; exact Hs | ].
      intros [-> ->]. apply Hfresh, Hs. }
    cbn [fst snd] in *.
    split; [congruence | ]. split; [congruence | ]. split; [congruence | ].
    split.
    + intros t h. rewrite Ih, handlers_of_offType, not_elem_of_cons.
      split.
      * intros [[H1 H2] H3]. split; [exact H1 | ]. split; [ | exact H3 ].
        intros [= -> ->]. apply H2. auto.
      * intros [H1 [H2 H3]]. split; [ | exact H3 ]. split; [exact H1 | ].
        intros [-> ->]. apply H2. reflexivity.
    + rewrite Itr, (offType_trace t0 h0 x H0), <- app_assoc. reflexivity.
Qed.

Lemma handlers_of_onType t0 h0 x t h :
  h ∈ handlers_of (onType t0 h0 x) t <-> h ∈ handlers_of x t ∨ (t = t0 ∧ h = h0).
Proof.
  unfold onType. case_bool_decide as Hin.
  - split; [auto | ]. intros [H | [-> ->]]; assumption.
  - rewrite handlers_of_log, handlers_of_insert. case_bool_decide as Ht.
    + subst t0. rewrite elem_of_app, list_elem_of_singleton. tauto.
    + split; [auto | ]. intros [H | [-> _]]; [exact H | congruence].
Qed.

Lemma onType_trace t0 h0 x :
  h0 ∉ handlers_of x t0 -> trace (onType t0 h0 x) = trace x ++ [Subscribed t0 h0].
Proof. unfold onType. intros Hin. rewrite bool_decide_eq_false_2 by exact Hin. reflexivity. Qed.

Lemma onType_fields t0 h0 x :
  waits (onType t0 h0 x) = waits x ∧ calls (onType t0 h0 x) = calls x
  ∧ timers (onType t0 h0 x) = timers x.
Proof. unfold onType. case_bool_decide; auto. Qed.

Lemma subscribe_all_spec (subs : list (jstring * handler)) : ∀ x,
  NoDup subs -> (∀ sub, sub ∈ subs -> sub.2 ∉ handlers_of x sub.1) ->
  let x' := subscribe_all subs x in
  waits x' = waits x ∧ calls x' = calls x ∧ timers x' = timers x
  ∧ (∀ t h, h ∈ handlers_of x' t <-> h ∈ handlers_of x t ∨ (t, h) ∈ subs)
  ∧ trace x' = trace x ++ map (λ sub, Subscribed sub.1 sub.2) subs.
Proof.
  unfold subscribe_all.
  induction subs as [|[t0 h0] subs IH]; intros x Hnd Hin; cbn [fold_left map fst snd].
  - rewrite app_nil_r. do 3 (split; [reflexivity | ]). split; [ | reflexivity ].
    intros t h. split; [auto | ]. intros [H | H]; [exact H | inversion H].
  - apply NoDup_cons in Hnd as [Hfresh Hnd].
    assert (H0 : h0 ∉ handlers_of x t0) by (apply (Hin (t0, h0)); left).
    destruct (onType_fields t0 h0 x) as (Hw & Hc & Ht).
    destruct (IH (onType t0 h0 x) Hnd) as (Iw & Ic & It & Ih & Itr).
    { intros [t h] Hs. cbn [fst snd]. rewrite handlers_of_onType. intros [H | [-> ->]].
      - apply (Hin (t, h)); [right; exact Hs | exact H].
      - apply Hfresh, Hs. }
    cbn [fst snd] in *.
    split; [congruence | ]. split; [congruence | ]. split; [congruence | ].
    split.
    + intros t h. rewrite Ih, handlers_of_onType, elem_of_cons.
      split.
      * intros [[H | [-> ->]] | H]; auto.
      * intros [H | [[= -> ->] | H]]; auto.
    + rewrite Itr, (onType_trace t0 h0 x H0), <- app_assoc. reflexivity.
Qed.

(** What a list of subscriptions or of removals adds to a trace. *)
Lemma settles_of_subscribed f (subs : list (jstring * handler)) :
  settles_of f (map (λ sub, Subscribed sub.1 sub.2) subs) = [].
Proof. induction subs as [|a l IH]; [reflexivity | exact IH]. Qed.

Lemma settles_of_unsubscribed f (subs : list (jstring * handler)) :
  settles_of f (map (λ sub, Unsubscribed sub.1 sub.2) subs) = [].
Proof. induction subs as [|a l IH]; [reflexivity | exact IH]. Qed.

Lemma count_subscribed P (subs : list (jstring * handler)) :
  (∀ t h, P (Subscribed t h) = false) ->
  count P (map (λ sub, Subscribed sub.1 sub.2) subs) = 0%nat.
Proof.
  intros HP. induction subs as [|a l IH]; [reflexivity | ].
  cbn [map]. rewrite count_cons, HP, IH. reflexivity.
Qed.

Lemma count_unsubscribed P (subs : list (jstring * handler)) :
  (∀ t h, P (Unsubscribed t h) = false) ->
  count P (map (λ sub, Unsubscribed sub.1 sub.2) subs) = 0%nat.
Proof.
  intros HP. induction subs as [|a l IH]; [reflexivity | ].
  cbn [map]. rewrite count_cons, HP, IH. reflexivity.
Qed.

Lemma unsubscriptions_of_unsubscribed t h (subs : list (jstring * handler)) :
  NoDup subs ->
  unsubscriptions_of t h (map (λ sub, Unsubscribed sub.1 sub.2) subs)
  = if bool_decide ((t, h) ∈ subs) then 1%nat else 0%nat.
Proof.
  unfold unsubscriptions_of. induction subs as [|[t0 h0] l IH]; intros Hnd.
  - rewrite bool_decide_eq_false_2 by (intros H; inversion H). reflexivity.
  - apply NoDup_cons in Hnd as [Hfresh Hnd]. cbn [map]. rewrite count_cons, (IH Hnd).
    cbn [is_unsubscription fst snd].
    destruct (decide (t0 = t ∧ h0 = h)) as [[-> ->] | Hne].
    + rewrite bool_decide_eq_true_2 by auto.
      rewrite (bool_decide_eq_false_2 _ Hfresh).
      rewrite bool_decide_eq_true_2 by left. reflexivity.
    + rewrite (bool_decide_eq_false_2 _ Hne). cbn.
      rewrite (bool_decide_ext ((t, h) ∈ (t0, h0) :: l) ((t, h) ∈ l)); [reflexivity | ].
      rewrite elem_of_cons. split; [ | auto ].
      intros [[= -> ->] | H]; [exfalso; apply Hne; auto | exact H].
Qed.

(** *** Releasing a wait *)

Lemma clearTimeout_spec t x :
  waits (clearTimeout t x) = waits x ∧ calls (clearTimeout t x) = calls x
  ∧ _handlers (clearTimeout t x) = _handlers x
  ∧ (t ∉ timers (clearTimeout t x))
  ∧ trace (clearTimeout t x)
    = trace x ++ (if bool_decide (t ∈ timers x) then [Cleared t] else []).
Proof.
  unfold clearTimeout. case_bool_decide as Hin.
  - do 3 (split; [reflexivity | ]). split; [ | reflexivity ].
    cbn. rewrite list_elem_of_filter. tauto.
  - rewrite app_nil_r. auto.
Qed.

Lemma release_spec n w x :
  (∀ sub, sub ∈ subscriptions n w -> sub.2 ∈ handlers_of x sub.1) ->
  let x' := release n w x in
  waits x' = waits x ∧ calls x' = calls x ∧ (TWait n ∉ timers x')
  ∧ (∀ t h, h ∈ handlers_of x' t <-> h ∈ handlers_of x t ∧ (t, h) ∉ subscriptions n w)
  ∧ trace x' = trace x
               ++ (if bool_decide (TWait n ∈ timers x) then [Cleared (TWait n)] else [])
               ++ map (λ sub, Unsubscribed sub.1 sub.2) (subscriptions n w).
Proof.
  intros Hsubs. cbv zeta. unfold release.
  destruct (clearTimeout_spec (TWait n) x) as (Cw & Cc & Ch & Ct & Ctr).
  destruct (unsubscribe_all_spec (subscriptions n w) (clearTimeout (TWait n) x)
              (subscriptions_NoDup n w)) as (Uw & Uc & Ut & Uh & Utr).
  { intros sub Hin. unfold handlers_of. rewrite Ch. apply Hsubs, Hin. }
  cbv zeta in Uw, Uc, Ut, Uh, Utr.
  split; [congruence | ]. split; [congruence | ]. split; [rewrite Ut; exact Ct | ].
  split.
  - intros t h. rewrite Uh. unfold handlers_of. rewrite Ch. reflexivity.
  - rewrite Utr, Ctr, <- app_assoc. reflexivity.
Qed.

Lemma settle_done n w o x :
  (n < calls x)%nat -> waits x !! n = Some w ->
  (∀ t h, owner h = Some n -> h ∈ handlers_of x t -> (t, h) ∈ subscriptions n w) ->
  (∀ sub, sub ∈ subscriptions n w -> sub.2 ∈ handlers_of x sub.1) ->
  settles_of (FWait n) (trace x) = [] ->
  (∀ sub, sub ∈ subscriptions n w -> unsubscriptions_of sub.1 sub.2 (trace x) = 0%nat) ->
  (releases_of (TWait n) (trace x) + (if bool_decide (TWait n ∈ timers x) then 1 else 0))%nat
  = 1%nat ->
  let x' := log (Settle (FWait n) o) (release n w x) in
  wait_ok n w x' ∧ wait_done n w o x'.
Proof.
  intros Hc Hw Hown Hsubs Hset Hun Hrel. cbv zeta.
  destruct (release_spec n w x Hsubs) as (Rw & Rc & Rt & Rh & Rtr). cbv zeta in Rw, Rc, Rt, Rh, Rtr.
  assert (Hnone : ∀ t h, owner h = Some n -> h ∉ handlers_of (release n w x) t).
  { intros t h Ho Hin. apply Rh in Hin as [Hin Hnot]. apply Hnot, (Hown t h Ho Hin). }
  assert (Hdone : wait_done n w o (log (Settle (FWait n) o) (release n w x))).
  { split; [exact Rt | ]. split; [exact Hnone | ].
    change (trace (log (Settle (FWait n) o) (release n w x)))
      with (trace (release n w x) ++ [Settle (FWait n) o]).
    rewrite Rtr. split; [ | split ].
    - rewrite !settles_of_app, Hset, settles_of_unsubscribed, settles_of_one.
      rewrite (bool_decide_eq_true_2 (FWait n = FWait n)) by reflexivity.
      case_bool_decide; reflexivity.
    - unfold releases_of in *. rewrite !count_app.
      rewrite (count_unsubscribed (is_release (TWait n))) by reflexivity.
      change (count (is_release (TWait n)) [Settle (FWait n) o]) with 0%nat.
      assert (count (is_release (TWait n))
                (if bool_decide (TWait n ∈ timers x) then [Cleared (TWait n)] else [])
              = (if bool_decide (TWait n ∈ timers x) then 1 else 0)%nat) as ->.
      { destruct (bool_decide (TWait n ∈ timers x)); [ | reflexivity ]. rewrite count_cons. cbn.
        rewrite bool_decide_eq_true_2 by reflexivity. reflexivity. }
      lia.
    - intros [t h] Hin. cbn [fst snd]. unfold unsubscriptions_of. rewrite !count_app.
      pose proof (Hun (t, h) Hin) as H0. cbn [fst snd] in H0. unfold unsubscriptions_of in H0.
      rewrite H0.
      pose proof (unsubscriptions_of_unsubscribed t h _ (subscriptions_NoDup n w)) as H1.
      unfold unsubscriptions_of in H1. rewrite H1, (bool_decide_eq_true_2 _ Hin).
      change (count (is_unsubscription t h) [Settle (FWait n) o]) with 0%nat.
      assert (count (is_unsubscription t h)
                (if bool_decide (TWait n ∈ timers x) then [Cleared (TWait n)] else [])
              = 0%nat) as ->.
      { destruct (bool_decide (TWait n ∈ timers x)); reflexivity. }
      reflexivity. }
  split; [ | exact Hdone ].
  split; [cbn; lia | ]. split; [cbn; rewrite Rw; exact Hw | ].
  split; [intros t h Ho Hin; exfalso; exact (Hnone t h Ho Hin) | ].
  right. exists o. exact Hdone.
Qed.

(** *** A frame reaches the handler of a wait *)

Lemma status_not_result : u "ENROLLMENT_STATUS" ≠ u "ENROLLMENT_RESULT".
Proof. intros H. vm_compute in H. discriminate. Qed.

Lemma deliver_own opts n w t h env x :
  waits x !! n = Some w -> (t, h) ∈ subscriptions n w ->
  deliver opts h env x =
  match resolution w t (prop_opt env (u "payload")) with
  | Some v => resolve (FWait n) v (release n w (log (Called h) x))
  | None => log (Called h) x
  end.
Proof.
  intros Hw Hin. destruct w as [p|l]; cbn [subscriptions] in Hin.
  - apply elem_of_cons in Hin as [[= -> ->] | Hin];
      [ | apply list_elem_of_singleton in Hin; injection Hin as -> -> ].
    + unfold deliver, invoke, resolution.
      change (waits (log (Called (HStatus n)) x)) with (waits x). rewrite Hw.
      rewrite (bool_decide_eq_false_2 _ status_not_result).
      rewrite bool_decide_eq_true_2 by reflexivity.
      destruct (p (prop_opt env (u "payload"))) as [[|]|e]; reflexivity.
    + unfold deliver, invoke, resolution.
      change (waits (log (Called (HResult n)) x)) with (waits x). rewrite Hw.
      rewrite bool_decide_eq_true_2 by reflexivity. reflexivity.
  - apply list_elem_of_lookup in Hin as [i Hi]. rewrite list_lookup_imap in Hi.
    destruct (l !! i) as [t'|] eqn:E; [ | discriminate ]. injection Hi as <- <-.
    unfold deliver, invoke, resolution.
    change (waits (log (Called (HExpect n i)) x)) with (waits x). rewrite Hw, E.
    rewrite bool_decide_eq_true_2 by (apply list_elem_of_lookup; exists i; exact E).
    reflexivity.
Qed.

Lemma resolution_subscribed n w t p v :
  resolution w t p = Some v -> ∃ h, (t, h) ∈ subscriptions n w.
Proof.
  destruct w as [q|l]; cbn [resolution subscriptions].
  - case_bool_decide as H1; [subst t; intros _; exists (HResult n); right; left | ].
    case_bool_decide as H2; [subst t; intros _; exists (HStatus n); left | discriminate ].
  - case_bool_decide as H1; [ | discriminate ]. intros _.
    apply list_elem_of_lookup in H1 as [i Hi]. exists (HExpect n i).
    apply list_elem_of_lookup. exists i. rewrite list_lookup_imap, Hi. reflexivity.
Qed.

Lemma dispatch_app opts a b t env : ∀ x,
  dispatch opts (a ++ b) t env x = dispatch opts b t env (dispatch opts a t env x).
Proof. induction a as [|h a IH]; intros x; [reflexivity | ]. cbn [app dispatch]. apply IH. Qed.

(** Handlers of other waits and of the user do not touch wait [n]. *)
Lemma sw_dispatch opts n set t env s :
  (∀ h, h ∈ set -> owner h = Some n -> h ∉ handlers_of s t) ->
  ∀ x, same_wait n s x -> same_wait n s (dispatch opts set t env x).
Proof.
  induction set as [|h set IH]; intros Hset x H; [exact H | ].
  cbn [dispatch]. apply IH; [intros h' Hin; apply Hset; right; exact Hin | ].
  case_bool_decide as Hin; [ | exact H ].
  apply sw_deliver; [ | exact H ]. intros Ho.
  apply (Hset h ltac:(left) Ho). destruct H as (_ & _ & Hh & _). apply (Hh t h Ho), Hin.
Qed.

(** An event the wait is not waiting for leaves it as it is. *)
Lemma dispatch_unqualified opts n w t env s :
  waits s !! n = Some w ->
  (∀ t h, owner h = Some n -> h ∈ handlers_of s t -> (t, h) ∈ subscriptions n w) ->
  resolution w t (prop_opt env (u "payload")) = None ->
  ∀ set x, same_wait n s x -> same_wait n s (dispatch opts set t env x).
Proof.
  intros Hw Hown Hres set. induction set as [|h set IH]; intros x H; [exact H | ].
  cbn [dispatch]. apply IH. case_bool_decide as Hin; [ | exact H ].
  destruct (decide (owner h = Some n)) as [Ho | Ho].
  - pose proof H as (Hwx & _ & Hh & _).
    rewrite (deliver_own opts n w t h env x); [ | congruence | ].
    + rewrite Hres. apply sw_log; [reflexivity | exact H].
    + apply (Hown t h Ho), (Hh t h Ho), Hin.
  - apply sw_deliver; assumption.
Qed.

Lemma first_owned n (l : list handler) :
  (∃ h, h ∈ l ∧ owner h = Some n) ->
  ∃ pre h post, l = pre ++ h :: post ∧ owner h = Some n ∧ ∀ x, x ∈ pre -> owner x ≠ Some n.
Proof.
  induction l as [|a l IH]; intros (h & Hin & Ho); [inversion Hin | ].
  destruct (decide (owner a = Some n)) as [Ha | Ha].
  - exists [], a, l. split; [reflexivity | ]. split; [exact Ha | ]. intros x Hx. inversion Hx.
  - apply elem_of_cons in Hin as [-> | Hin]; [congruence | ].
    destruct (IH (ex_intro _ h (conj Hin Ho))) as (pre & h' & post & -> & Ho' & Hpre).
    exists (a :: pre), h', post. split; [reflexivity | ]. split; [exact Ho' | ].
    intros x Hx. apply elem_of_cons in Hx as [-> | Hx]; [exact Ha | apply Hpre, Hx].
Qed.

(** An event the wait is waiting for resolves it, once. *)
Lemma dispatch_qualified opts n w t env v s :
  wait_ok n w s -> wait_live n w s ->
  resolution w t (prop_opt env (u "payload")) = Some v ->
  let s' := dispatch opts (handlers_of s t) t env s in
  wait_ok n w s' ∧ wait_done n w (Resolved v) s'.
Proof.
  intros Hok Hlive Hres. cbv zeta.
  destruct (resolution_subscribed n w t _ v Hres) as [h0 Hsub].
  pose proof Hlive as (_ & Hsubs & _).
  destruct (first_owned n (handlers_of s t)) as (pre & h & post & Hsplit & Ho & Hpre).
  { exists h0. split; [apply (Hsubs (t, h0)), Hsub | apply (subscriptions_owner n w (t, h0)), Hsub]. }
  rewrite Hsplit, dispatch_app.
  set (x1 := dispatch opts pre t env s).
  assert (H1 : same_wait n s x1).
  { apply sw_dispatch; [ | apply same_wait_refl ]. intros h' Hin Ho'. exfalso. exact (Hpre h' Hin Ho'). }
  assert (Hin : h ∈ handlers_of s t) by (rewrite Hsplit; apply elem_of_app; right; left).
  cbn [dispatch].
  rewrite bool_decide_eq_true_2 by (destruct H1 as (_ & _ & Hh & _); apply (Hh t h Ho), Hin).
  pose proof Hok as (_ & Hw & Hown & _).
  rewrite (deliver_own opts n w t h env x1);
    [ | destruct H1 as (Hwx & _); congruence | apply (Hown t h Ho Hin) ].
  rewrite Hres.
  set (y := log (Called h) x1).
  assert (Hy : same_wait n s y) by (apply sw_log; [reflexivity | exact H1]).
  pose proof (wait_ok_same n w s y Hy Hok) as (Yc & Yw & Yown & _).
  pose proof (wait_live_same n w s y Hy Hlive) as (Yt & Ysubs & Yset & Yrel & Yun).
  destruct (settle_done n w (Resolved v) y Yc Yw Yown Ysubs Yset Yun) as [Dok Ddone].
  { rewrite Yrel, bool_decide_eq_true_2 by exact Yt. reflexivity. }
  cbv zeta in Dok, Ddone. fold (resolve (FWait n) v (release n w y)) in Dok, Ddone.
  set (x2 := resolve (FWait n) v (release n w y)) in *.
  assert (H2 : same_wait n x2 (dispatch opts post t env x2)).
  { apply sw_dispatch; [ | apply same_wait_refl ]. intros h' _ Ho'.
    destruct Ddone as (_ & Hnone & _). apply Hnone, Ho'. }
  split; [apply (wait_ok_same n w x2 _ H2 Dok) | apply (wait_done_same n w _ x2 _ H2 Ddone)].
Qed.

(** *** The timer of a wait fires *)

Lemma timeout_done opts n w ctor s :
  wait_ok n w s -> wait_live n w s ->
  let s' := fire opts (TWait n) ctor s in
  wait_ok n w s' ∧ wait_done n w (Rejected (timeout_error w)) s'.
Proof.
  intros (Hc & Hw & Hown & _) (Ht & Hsubs & Hset & Hrel & Hun). cbv zeta.
  unfold fire. cbn [timer_callback].
  set (x := log (Fired (TWait n)) (set_timers (filter (λ y, y ≠ TWait n) (timers s)) s)).
  assert (Hx : wait_timeout n x
               = log (Settle (FWait n) (Rejected (timeout_error w))) (release n w x)).
  { unfold wait_timeout. change (waits x) with (waits s). rewrite Hw. destruct w; reflexivity. }
  rewrite Hx. apply settle_done.
  - exact Hc.
  - exact Hw.
  - exact Hown.
  - exact Hsubs.
  - change (trace x) with (trace s ++ [Fired (TWait n)]).
    rewrite settles_of_app, Hset. reflexivity.
  - intros sub Hin. change (trace x) with (trace s ++ [Fired (TWait n)]).
    unfold unsubscriptions_of. rewrite count_app.
    pose proof (Hun sub Hin) as H0. unfold unsubscriptions_of in H0. rewrite H0. reflexivity.
  - change (trace x) with (trace s ++ [Fired (TWait n)]).
    unfold releases_of in *. rewrite count_app, Hrel.
    rewrite bool_decide_eq_false_2.
    + rewrite count_cons. cbn. rewrite bool_decide_eq_true_2 by reflexivity. reflexivity.
    + cbn. rewrite list_elem_of_filter. tauto.
Qed.

(** *** Every event, seen from a wait *)

Lemma sw_set_waits m n w s x :
  m ≠ n -> same_wait m s x -> same_wait m s (set_waits (<[n := w]> (waits x)) x).
Proof.
  intros Hm H. eapply same_wait_trans; [exact H | ].
  unfold same_wait, handlers_of. cbn. rewrite lookup_insert_ne by congruence.
  repeat split; auto.
Qed.

Lemma sw_new_wait m w d s x :
  m ≠ calls x -> same_wait m s x ->
  same_wait m s
    (subscribe_all (subscriptions (calls x) w)
       (setTimeout (TWait (calls x)) d
          (set_waits (<[calls x := w]> (waits x)) (set_calls (S (calls x)) x)))).
Proof.
  intros Hm H. apply sw_subscribe_all.
  - intros sub Hin. apply (other_subscriptions m (calls x) w sub); [congruence | exact Hin].
  - apply sw_setTimeout; [congruence | ].
    apply (sw_set_waits m (calls x) w s (set_calls (S (calls x)) x)); [exact Hm | ].
    apply sw_set_calls; [lia | exact H].
Qed.

Lemma subscribe_all_calls (subs : list (jstring * handler)) : ∀ x,
  calls (subscribe_all subs x) = calls x.
Proof.
  unfold subscribe_all. induction subs as [|sub subs IH]; intros x; [reflexivity | ].
  cbn [fold_left]. rewrite IH. apply onType_fields.
Qed.

Lemma sendAndWait_unfold opts type payload expectList d s :
  _sendAndWait opts type payload expectList d s =
  match send opts type payload s with
  | Ok s1 =>
      Ok (FWait (calls s1),
          subscribe_all (subscriptions (calls s1) (SendAndWait expectList))
            (setTimeout (TWait (calls s1)) d
               (set_waits (<[calls s1 := SendAndWait expectList]> (waits s1))
                  (set_calls (S (calls s1)) s1))))
  | Throw e => Throw e
  end.
Proof. unfold _sendAndWait. destruct (send opts type payload s); reflexivity. Qed.

Lemma send_calls opts type payload s s1 :
  send opts type payload s = Ok s1 -> calls s1 = calls s.
Proof.
  unfold send. destruct (negb (ws_open s)); [discriminate | ]. intros [= <-]. reflexivity.
Qed.

Lemma sw_fired n t s x :
  t ≠ TWait n -> same_wait n s x ->
  same_wait n s (log (Fired t) (set_timers (filter (λ y, y ≠ t) (timers x)) x)).
Proof.
  intros Ht H. apply sw_log.
  - destruct t; try reflexivity. cbn. apply bool_decide_eq_false. congruence.
  - eapply same_wait_trans; [exact H | ].
    unfold same_wait, handlers_of. cbn. rewrite list_elem_of_filter.
    split; [reflexivity | ]. split; [ | auto ].
    split; [tauto | ]. intros Hin. split; [congruence | exact Hin].
Qed.

Lemma sw_reply n pending replyTo o s x :
  requests_ok x -> _pending x !! replyTo = Some pending -> same_wait n s x ->
  same_wait n s
    (log (Settle (settles pending) o)
       (pending_delete replyTo (clearTimeout (timeout pending) x))).
Proof.
  intros Hok Hp H. destruct (request_timer_set x replyTo pending Hok Hp) as (Hs & ty & Hto & _).
  rewrite Hs, Hto. apply sw_settle; [discriminate | ].
  apply sw_pending_delete, sw_clearTimeout; [discriminate | exact H].
Qed.

(** A frame is dispatched as an event or leaves every wait as it is. *)
Lemma handleMessage_cases opts data s n :
  requests_ok s ->
  match inbound_event opts data with
  | Some (t, p) =>
      ∃ env, p = prop_opt env (u "payload")
             ∧ handle opts (WsMessage data) s = dispatch opts (handlers_of s t) t env s
  | None => same_wait n s (handle opts (WsMessage data) s)
  end.
Proof.
  intros Hok. unfold inbound_event. cbn [handle]. unfold _handleMessage.
  destruct (opt_decode opts data) as [env|e].
  2:{ destruct (tolerantDecode opts); [ | apply same_wait_refl ].
      unfold _emit. apply sw_log; [reflexivity | apply same_wait_refl]. }
  destruct (truthy env); cbn [negb orb andb]; [ | apply same_wait_refl ].
  destruct (prop_opt env (u "type")) as [| |b|x|type|l|o] eqn:Et; cbn [is_string negb];
    try (destruct (negb (truthy (prop_opt env (u "replyTo")))); apply same_wait_refl).
  destruct (truthy (prop_opt env (u "replyTo"))) eqn:Er; cbn [negb].
  - destruct (prop_opt env (u "replyTo")) as [| |b|x|replyTo|l|o]; try apply same_wait_refl.
    destruct (_pending s !! replyTo) as [pending|] eqn:Ep; [ | apply same_wait_refl ].
    destruct (truthy (prop_opt env (u "error")));
      apply (sw_reply n pending replyTo _ s s Hok Ep (same_wait_refl n s)).
  - exists env. split; reflexivity.
Qed.

Lemma sw_handleMessage opts data s n :
  requests_ok s -> (∀ t h, owner h = Some n -> h ∉ handlers_of s t) ->
  same_wait n s (handle opts (WsMessage data) s).
Proof.
  intros Hok Hnone. pose proof (handleMessage_cases opts data s n Hok) as H.
  destruct (inbound_event opts data) as [[t p]|]; [ | exact H ].
  destruct H as (env & _ & ->).
  apply sw_dispatch; [ | apply same_wait_refl ]. intros h _ Ho. apply Hnone, Ho.
Qed.

Lemma sw_handle opts ev s n :
  requests_ok s ->
  (n ≠ calls s ∨ calls (handle opts ev s) <= n)%nat ->
  match ev with
  | WsMessage _ => False
  | TimerFires (TWait m) _ => m ≠ n
  | _ => True
  end ->
  same_wait n s (handle opts ev s).
Proof.
  intros Hok Hn Hev. pose proof (same_wait_refl n s) as H0.
  destruct ev as [ctor| |data| |random| |type payload|type payload tmo now|type k|type k
                  |predicate tmo|type payload expectList tmo|t ctor|i]; cbn [handle] in *.
  - apply sw_connect, H0.
  - apply sw_ws_onopen, sw_set_ws, H0.
  - destruct Hev.
  - unfold ws_onerror, _emit. apply sw_log; [reflexivity | exact H0].
  - apply sw_ws_onclose; [ | apply sw_set_ws, H0 ].
    eapply requests_ok_view; [ | exact Hok ]. reflexivity.
  - apply sw_close, H0.
  - destruct (send opts type payload s) as [s'|e] eqn:E; [ | exact H0 ].
    apply (sw_send opts n type payload s s s' E H0).
  - destruct (request opts type payload tmo now s) as [r|e] eqn:E; [ | exact H0 ].
    apply (sw_request opts n type payload tmo now s s r E H0).
  - apply sw_onType; [discriminate | exact H0].
  - apply sw_offType; [discriminate | exact H0].
  - unfold waitFor in *. cbn [snd] in *. apply sw_new_wait; [ | exact H0 ].
    rewrite subscribe_all_calls in Hn. cbn in Hn. lia.
  - rewrite sendAndWait_unfold in *.
    destruct (send opts type payload s) as [s1|e] eqn:E; cbn [snd] in *; [ | exact H0 ].
    pose proof (sw_send opts n type payload s s s1 E H0) as H1.
    apply sw_new_wait; [ | exact H1 ].
    rewrite subscribe_all_calls in Hn. rewrite (send_calls opts type payload s s1 E) in *.
    cbn in Hn. lia.
  - unfold fire. destruct t as [id ty|m|m|m]; cbn [timer_callback].
    + unfold reject. apply sw_settle; [discriminate | ].
      apply sw_pending_delete, sw_fired; [discriminate | exact H0].
    + apply sw_wait_timeout; [exact Hev | ]. apply sw_fired; [congruence | exact H0].
    + apply sw_connect, sw_fired; [discriminate | exact H0].
    + apply sw_heartbeat_tick. apply sw_log; [reflexivity | exact H0].
  - destruct (rejections s !! i) as [[env e]|]; [ | exact H0 ].
    apply sw_handler_rejected, sw_set_rejections, H0.
Qed.

(** An event that finds neither a handler nor the timer of wait [n] leaves
    it as it is. *)
Lemma handle_same_wait opts ev s n :
  requests_ok s -> enabled ev s = true ->
  (∀ t h, owner h = Some n -> h ∉ handlers_of s t) -> TWait n ∉ timers s ->
  (n ≠ calls s ∨ calls (handle opts ev s) <= n)%nat ->
  same_wait n s (handle opts ev s).
Proof.
  intros Hok Hen Hnone Ht Hn.
  destruct ev as [ctor| |data| |random| |type payload|type payload tmo now|type k|type k
                  |predicate tmo|type payload expectList tmo|t ctor|i];
    try (apply sw_handle; [exact Hok | exact Hn | exact I]).
  - apply sw_handleMessage; assumption.
  - apply sw_handle; [exact Hok | exact Hn | ].
    destruct t as [id ty|m|m|m]; try exact I. intros ->.
    cbn in Hen. apply andb_true_iff in Hen as [Hen _]. apply bool_decide_eq_true in Hen.
    exact (Ht Hen).
Qed.

(** *** Waits are numbered from the counter of calls *)

Lemma fresh_wait_same n s s' : same_wait n s s' -> fresh_wait n s -> fresh_wait n s'.
Proof.
  intros (Hw & Ht & Hh & Htr & _) (Fw & Ft & Fh & Ftr).
  split; [congruence | ]. split; [tauto | ].
  split; [intros t h Ho Hin; apply (Fh t h Ho), (Hh t h Ho), Hin | congruence].
Qed.

Lemma new_socket_numbered auto : numbered (new_socket auto).
Proof.
  intros n _. split; [apply lookup_empty | ]. split; [intros H; inversion H | ].
  split; [ | reflexivity ]. intros t h _ H. unfold handlers_of in H. cbn in H.
  rewrite lookup_empty in H. inversion H.
Qed.

(** The counter only grows. *)
Lemma calls_mono opts ev s :
  requests_ok s -> numbered s -> enabled ev s = true ->
  (calls s <= calls (handle opts ev s))%nat.
Proof.
  intros Hok Hnum Hen.
  destruct (Hnum (S (calls s)) ltac:(lia)) as (_ & Ft & Fh & _).
  destruct (handle_same_wait opts ev s (S (calls s)) Hok Hen Fh Ft) as (_ & _ & _ & _ & Hc);
    [left; lia | exact Hc].
Qed.

Lemma handle_numbered opts ev s :
  requests_ok s -> numbered s -> enabled ev s = true -> numbered (handle opts ev s).
Proof.
  intros Hok Hnum Hen n Hn.
  pose proof (calls_mono opts ev s Hok Hnum Hen) as Hc.
  pose proof (Hnum n ltac:(lia)) as Hf. pose proof Hf as (_ & Ft & Fh & _).
  apply (fresh_wait_same n s); [ | exact Hf ].
  apply handle_same_wait; auto.
Qed.

Lemma run_numbered opts evs : ∀ s s',
  requests_ok s -> numbered s -> run opts evs s = Some s' -> numbered s'.
Proof.
  induction evs as [|ev evs IH]; intros s s' Hok Hnum Hrun.
  - injection Hrun as <-. exact Hnum.
  - cbn [run] in Hrun. destruct (enabled ev s) eqn:Hen; [ | discriminate ].
    apply (IH (handle opts ev s)); [ | | exact Hrun ].
    + apply handle_requests_ok; assumption.
    + apply handle_numbered; assumption.
Qed.

Lemma reachable_numbered opts s : reachable opts s -> numbered s.
Proof.
  intros (auto & evs & Hrun).
  eapply run_numbered; [apply new_socket_requests_ok | apply new_socket_numbered | exact Hrun].
Qed.

(** *** A wait begins *)

Lemma fresh_counts n s :
  fresh_wait n s ->
  settles_of (FWait n) (trace s) = []
  ∧ releases_of (TWait n) (trace s) = 0%nat
  ∧ ∀ t h, owner h = Some n -> unsubscriptions_of t h (trace s) = 0%nat.
Proof.
  intros (_ & _ & _ & Htr).
  split; [rewrite <- settles_of_wait_view, Htr; reflexivity | ].
  split.
  - unfold releases_of. rewrite <- (count_wait_view n _ _ (release_is_wait n)), Htr. reflexivity.
  - intros t h Ho. unfold unsubscriptions_of.
    rewrite <- (count_wait_view n _ _ (λ e, unsubscription_is_wait n t h e Ho)), Htr. reflexivity.
Qed.

Lemma new_wait w d x :
  fresh_wait (calls x) x ->
  let n := calls x in
  let x' := subscribe_all (subscriptions n w)
              (setTimeout (TWait n) d
                 (set_waits (<[n := w]> (waits x)) (set_calls (S n) x))) in
  wait_ok n w x' ∧ wait_live n w x'
  ∧ trace x' = trace x ++ [SetTimer (TWait n) d]
               ++ map (λ sub, Subscribed sub.1 sub.2) (subscriptions n w).
Proof.
  intros Hf. cbv zeta. set (n := calls x).
  set (x0 := setTimeout (TWait n) d (set_waits (<[n := w]> (waits x)) (set_calls (S n) x))).
  pose proof Hf as (Fw & Ft & Fh & Ftr).
  destruct (fresh_counts n x Hf) as (Fs & Fr & Fu).
  destruct (subscribe_all_spec (subscriptions n w) x0 (subscriptions_NoDup n w))
    as (Sw & Sc & St & Sh & Str).
  { intros sub Hin. apply (Fh sub.1 sub.2), (subscriptions_owner n w sub Hin). }
  cbv zeta in Sw, Sc, St, Sh, Str.
  assert (Htr : trace (subscribe_all (subscriptions n w) x0)
                = trace x ++ [SetTimer (TWait n) d]
                  ++ map (λ sub, Subscribed sub.1 sub.2) (subscriptions n w)).
  { rewrite Str. unfold x0. cbn. rewrite <- app_assoc. reflexivity. }
  assert (Hlive : wait_live n w (subscribe_all (subscriptions n w) x0)).
  { split; [rewrite St; cbn; apply elem_of_app; right; left | ].
    split; [intros [t h] Hin; apply Sh; right; exact Hin | ].
    rewrite Htr. split; [ | split ].
    - rewrite !settles_of_app, Fs, settles_of_subscribed. reflexivity.
    - unfold releases_of in *. rewrite !count_app, Fr.
      rewrite (count_subscribed (is_release (TWait n))) by reflexivity. reflexivity.
    - intros sub Hin. unfold unsubscriptions_of in *. rewrite !count_app.
      rewrite (Fu sub.1 sub.2 (subscriptions_owner n w sub Hin)).
      rewrite (count_subscribed (is_unsubscription sub.1 sub.2)) by reflexivity. reflexivity. }
  split; [ | split; [exact Hlive | exact Htr] ].
  split; [rewrite Sc; cbn; lia | ].
  split; [rewrite Sw; cbn; apply lookup_insert_eq | ].
  split; [ | left; exact Hlive ].
  intros t h Ho Hin. apply Sh in Hin as [Hin | Hin]; [ | exact Hin ].
  exfalso. exact (Fh t h Ho Hin).
Qed.

(** *** The life of a wait *)

Lemma same_wait_live n w s s' :
  same_wait n s s' -> wait_ok n w s -> wait_live n w s -> wait_ok n w s' ∧ wait_live n w s'.
Proof.
  intros H Hok Hl. split; [apply (wait_ok_same n w s s' H Hok) | apply (wait_live_same n w s s' H Hl)].
Qed.

Lemma handle_live opts ev s n w :
  requests_ok s -> wait_ok n w s -> wait_live n w s ->
  let s3 := handle opts ev s in
  wait_ok n w s3
  ∧ match ev with
    | TimerFires (TWait m) _ =>
        if bool_decide (m = n) then wait_done n w (Rejected (timeout_error w)) s3
        else wait_live n w s3
    | WsMessage data =>
        match inbound_event opts data with
        | Some (t, p) =>
            match resolution w t p with
            | Some v => wait_done n w (Resolved v) s3
            | None => wait_live n w s3
            end
        | None => wait_live n w s3
        end
    | _ => wait_live n w s3
    end.
Proof.
  intros Hok Hw Hl. cbv zeta.
  assert (Hn : (n ≠ calls s ∨ calls (handle opts ev s) <= n)%nat)
    by (left; destruct Hw as (Hc & _); lia).
  destruct ev as [ctor| |data| |random| |type payload|type payload tmo now|type k|type k
                  |predicate tmo|type payload expectList tmo|t ctor|i];
    try (apply (same_wait_live n w s _); [ | exact Hw | exact Hl ];
         apply sw_handle; [exact Hok | exact Hn | exact I]).
  - pose proof (handleMessage_cases opts data s n Hok) as H.
    destruct (inbound_event opts data) as [[t p]|];
      [ | apply (same_wait_live n w s _ H Hw Hl) ].
    destruct H as (env & -> & ->).
    destruct (resolution w t (prop_opt env (u "payload"))) as [v|] eqn:Hres.
    + apply (dispatch_qualified opts n w t env v s Hw Hl Hres).
    + apply (same_wait_live n w s _); [ | exact Hw | exact Hl ].
      destruct Hw as (_ & Hwn & Hown & _).
      apply (dispatch_unqualified opts n w t env s Hwn Hown Hres), same_wait_refl.
  - destruct t as [id ty|m|m|m];
      try (apply (same_wait_live n w s _); [ | exact Hw | exact Hl ];
           apply sw_handle; [exact Hok | exact Hn | exact I]).
    case_bool_decide as Hm.
    + subst m. apply (timeout_done opts n w ctor s Hw Hl).
    + apply (same_wait_live n w s _); [ | exact Hw | exact Hl ].
      apply sw_handle; [exact Hok | exact Hn | exact Hm].
Qed.

Lemma handle_done opts ev s n w o :
  requests_ok s -> wait_ok n w s -> wait_done n w o s -> enabled ev s = true ->
  same_wait n s (handle opts ev s).
Proof.
  intros Hok (Hc & _) (Ht & Hnone & _) Hen.
  apply handle_same_wait; auto. left. lia.
Qed.

Lemma handle_wait_ok opts ev s n w :
  requests_ok s -> wait_ok n w s -> enabled ev s = true -> wait_ok n w (handle opts ev s).
Proof.
  intros Hok Hw Hen. pose proof Hw as (_ & _ & _ & [Hl | [o Hd]]).
  - apply (handle_live opts ev s n w Hok Hw Hl).
  - apply (wait_ok_same n w s); [ | exact Hw ]. apply (handle_done opts ev s n w o); assumption.
Qed.

Lemma run_wait_ok opts n w evs : ∀ s s',
  requests_ok s -> wait_ok n w s -> run opts evs s = Some s' -> wait_ok n w s'.
Proof.
  induction evs as [|ev evs IH]; intros s s' Hok Hw Hrun.
  - injection Hrun as <-. exact Hw.
  - cbn [run] in Hrun. destruct (enabled ev s) eqn:Hen; [ | discriminate ].
    apply (IH (handle opts ev s)); [ | | exact Hrun ].
    + apply handle_requests_ok; assumption.
    + apply handle_wait_ok; assumption.
Qed.

Lemma first_wins_from opts n w s1 :
  requests_ok s1 -> wait_ok n w s1 -> first_wins opts n w s1.
Proof.
  intros Hok Hw evs s2 Hrun.
  pose proof (run_requests_ok opts evs s1 s2 Hok Hrun) as Hok2.
  pose proof (run_wait_ok opts n w evs s1 s2 Hok Hw Hrun) as Hw2.
  split; [destruct Hw2 as (_ & _ & _ & H); exact H | ].
  intros ev Hen. cbv zeta. split.
  - intros o Hd. apply (wait_done_same n w o s2); [ | exact Hd ].
    apply (handle_done opts ev s2 n w o); assumption.
  - intros Hl. apply (handle_live opts ev s2 n w Hok2 Hw2 Hl).
Qed.

(** *** C7 and C5: [waitFor] and the operations of the workflow client *)

Lemma handle_message_requests_ok opts data s :
  requests_ok s -> requests_ok (handle opts (WsMessage data) s).
Proof.
  intros Hok. cbn [handle]. destruct (_handleMessage opts data s) as [s'|e] eqn:E; [ | exact Hok ].
  apply (handleMessage_requests_ok opts data s s' Hok E).
Qed.

Lemma message_resolves opts data t p v s n w :
  requests_ok s -> wait_ok n w s -> wait_live n w s ->
  inbound_event opts data = Some (t, p) -> resolution w t p = Some v ->
  wait_done n w (Resolved v) (handle opts (WsMessage data) s).
Proof.
  intros Hok Hw Hl Hev Hres.
  pose proof (handle_live opts (WsMessage data) s n w Hok Hw Hl) as [_ H].
  cbv zeta in H. rewrite Hev, Hres in H. exact H.
Qed.

Lemma message_passes opts data t p s n w :
  requests_ok s -> wait_ok n w s -> wait_live n w s ->
  inbound_event opts data = Some (t, p) -> resolution w t p = None ->
  wait_live n w (handle opts (WsMessage data) s).
Proof.
  intros Hok Hw Hl Hev Hres.
  pose proof (handle_live opts (WsMessage data) s n w Hok Hw Hl) as [_ H].
  cbv zeta in H. rewrite Hev, Hres in H. exact H.
Qed.

Lemma timer_rejects opts ctor s n w :
  requests_ok s -> wait_ok n w s -> wait_live n w s ->
  wait_done n w (Rejected (timeout_error w)) (handle opts (TimerFires (TWait n) ctor) s).
Proof.
  intros Hok Hw Hl.
  pose proof (handle_live opts (TimerFires (TWait n) ctor) s n w Hok Hw Hl) as [_ H].
  cbv zeta in H. rewrite bool_decide_eq_true_2 in H by reflexivity. exact H.
Qed.

(** The second of two frames that both qualify finds the wait done. *)
Lemma second_frame_ignored opts d1 d2 t p v s n w :
  requests_ok s -> wait_ok n w s -> wait_live n w s ->
  inbound_event opts d1 = Some (t, p) -> resolution w t p = Some v ->
  wait_done n w (Resolved v) (handle opts (WsMessage d2) (handle opts (WsMessage d1) s)).
Proof.
  intros Hok Hw Hl Hev Hres.
  pose proof (message_resolves opts d1 t p v s n w Hok Hw Hl Hev Hres) as Hd.
  pose proof (handle_live opts (WsMessage d1) s n w Hok Hw Hl) as [Hw1 _]. cbv zeta in Hw1.
  pose proof (handle_message_requests_ok opts d1 s Hok) as Hok1.
  apply (wait_done_same n w _ (handle opts (WsMessage d1) s)); [ | exact Hd ].
  apply sw_handleMessage; [exact Hok1 | ]. destruct Hd as (_ & Hnone & _). exact Hnone.
Qed.

(** C7: [waitFor(predicate, {timeoutMs})] on a socket in any state it can
    reach returns a future of its own, sets one timer for [timeoutMs], 300000
    by default, and subscribes one handler to ENROLLMENT_STATUS and one to
    ENROLLMENT_RESULT.  From then on the wait is live or done, and once done
    it stays done with the same outcome: its future settled exactly once, its
    timer released exactly once, each of its two subscriptions removed
    exactly once, and neither a handler nor the timer of it left.  While it
    is live, its timer rejects it with [waitFor timeout], an ENROLLMENT_RESULT
    event resolves it with the payload, an ENROLLMENT_STATUS event resolves
    it with the payload if the predicate holds of it and leaves it live
    otherwise, and a second qualifying frame right after the first changes
    nothing: the future stays resolved once, with the payload of the first. *)
Theorem waitFor_settles_once (opts : options) (s : ObjectSocket)
    (predicate : jsval -> result bool) (timeoutMs : option Z) :
  reachable opts s ->
  let n := calls s in
  let w := WaitFor predicate in
  let s1 := (waitFor predicate timeoutMs s).2 in
  (waitFor predicate timeoutMs s).1 = FWait n
  ∧ trace s1 = trace s ++ [SetTimer (TWait n) (default 300000%Z timeoutMs);
                           Subscribed (u "ENROLLMENT_STATUS") (HStatus n);
                           Subscribed (u "ENROLLMENT_RESULT") (HResult n)]
  ∧ wait_live n w s1
  ∧ first_wins opts n w s1
  ∧ ∀ evs s2, run opts evs s1 = Some s2 -> wait_live n w s2 ->
      (∀ ctor, wait_done n w (Rejected (Error (u "waitFor timeout")))
                 (handle opts (TimerFires (TWait n) ctor) s2))
      ∧ (∀ data p, inbound_event opts data = Some (u "ENROLLMENT_RESULT", p) ->
           wait_done n w (Resolved p) (handle opts (WsMessage data) s2))
      ∧ (∀ data p, inbound_event opts data = Some (u "ENROLLMENT_STATUS", p) ->
           predicate p = Ok true ->
           wait_done n w (Resolved p) (handle opts (WsMessage data) s2)
           ∧ ∀ data', settles_of (FWait n)
                        (trace (handle opts (WsMessage data') (handle opts (WsMessage data) s2)))
                      = [Resolved p])
      ∧ (∀ data p, inbound_event opts data = Some (u "ENROLLMENT_STATUS", p) ->
           predicate p ≠ Ok true ->
           wait_live n w (handle opts (WsMessage data) s2)).
Proof.
  intros Hreach. cbv zeta.
  pose proof (reachable_requests_ok opts s Hreach) as Hok.
  pose proof (reachable_numbered opts s Hreach (calls s) (Nat.le_refl _)) as Hf.
  destruct (new_wait (WaitFor predicate) (default DEFAULT_ENROLL_WAITFOR_TIMEOUT timeoutMs) s Hf)
    as (Hw & Hl & Htr).
  cbv zeta in Hw, Hl, Htr.
  change (subscribe_all _ _) with (waitFor predicate timeoutMs s).2 in Hw, Hl, Htr.
  set (s1 := (waitFor predicate timeoutMs s).2) in *.
  assert (Hok1 : requests_ok s1).
  { apply (requests_ok_core s); [ | exact Hok ]. apply core_waitFor. }
  split; [reflexivity | ]. split; [exact Htr | ]. split; [exact Hl | ].
  split; [apply first_wins_from; assumption | ].
  intros evs s2 Hrun Hl2.
  pose proof (run_requests_ok opts evs s1 s2 Hok1 Hrun) as Hok2.
  pose proof (run_wait_ok opts _ _ evs s1 s2 Hok1 Hw Hrun) as Hw2.
  split; [intros ctor; apply (timer_rejects opts ctor s2 _ _ Hok2 Hw2 Hl2) | ].
  split.
  { intros data p Hev. apply (message_resolves opts data _ p p s2 _ _ Hok2 Hw2 Hl2 Hev).
    cbn [resolution]. rewrite bool_decide_eq_true_2 by reflexivity. reflexivity. }
  split.
  { intros data p Hev Hp.
    assert (Hres : resolution (WaitFor predicate) (u "ENROLLMENT_STATUS") p = Some p).
    { cbn [resolution]. rewrite (bool_decide_eq_false_2 _ status_not_result).
      rewrite bool_decide_eq_true_2 by reflexivity. rewrite Hp. reflexivity. }
    split; [apply (message_resolves opts data _ p p s2 _ _ Hok2 Hw2 Hl2 Hev Hres) | ].
    intros data'.
    destruct (second_frame_ignored opts data data' _ p p s2 _ _ Hok2 Hw2 Hl2 Hev Hres)
      as (_ & _ & Hs & _).
    exact Hs. }
  intros data p Hev Hp.
  apply (message_passes opts data _ p s2 _ _ Hok2 Hw2 Hl2 Hev).
  cbn [resolution]. rewrite (bool_decide_eq_false_2 _ status_not_result).
  rewrite bool_decide_eq_true_2 by reflexivity.
  destruct (predicate p) as [[|]|e]; [congruence | reflexivity | reflexivity].
Qed.

Lemma waitFor_settles_once_witness :
  let status := frame1 (u "ParticipantsEnrolled") (u "3") in
  let s1 := (waitFor (λ _, Ok true) None open_socket).2 in
  reachable enrollment_options open_socket
  ∧ inbound_event enrollment_options status
    = Some (u "ENROLLMENT_STATUS", tolerant_parse status)
  ∧ settles_of (FWait (calls open_socket))
      (trace (handle enrollment_options (WsMessage status)
                (handle enrollment_options (WsMessage status) s1)))
    = [Resolved (tolerant_parse status)].
Proof.
  cbv zeta.
  set (status := frame1 (u "ParticipantsEnrolled") (u "3")).
  assert (Hreach : reachable enrollment_options open_socket).
  { exists true, [Connect (Ok ()); WsOpen]. reflexivity. }
  assert (Hev : inbound_event enrollment_options status
                = Some (u "ENROLLMENT_STATUS", tolerant_parse status)).
  { vm_compute. reflexivity. }
  split; [exact Hreach | ]. split; [exact Hev | ].
  pose proof (waitFor_settles_once enrollment_options open_socket (λ _, Ok true) None Hreach)
    as (_ & _ & Hl & _ & H).
  destruct (H [] _ eq_refl Hl) as (_ & _ & Hst & _).
  destruct (Hst status (tolerant_parse status) Hev eq_refl) as [_ H2].
  exact (H2 status).
Defined.

(** What [_sendAndWait] does on any socket. *)
Lemma sendAndWait_first_wins opts type payload expected d s :
  reachable opts s ->
  let n := calls s in
  let w := SendAndWait expected in
  (ws_open s = false ->
   _sendAndWait opts type payload expected d s = Throw (Error (u "socket not open")))
  ∧ (ws_open s = true ->
     ∃ s1,
       _sendAndWait opts type payload expected d s = Ok (FWait n, s1)
       ∧ trace s1 = trace s
                    ++ [Sent (opt_encode opts (JObj [(u "type", JStr type); (u "payload", payload)]));
                        SetTimer (TWait n) d]
                    ++ map (λ sub, Subscribed sub.1 sub.2) (subscriptions n w)
       ∧ wait_live n w s1
       ∧ first_wins opts n w s1
       ∧ ∀ evs s2, run opts evs s1 = Some s2 -> wait_live n w s2 ->
           (∀ ctor,
              wait_done n w (Rejected (Error (u "timeout waiting for " ++ join_or expected)))
                (handle opts (TimerFires (TWait n) ctor) s2))
           ∧ (∀ data t p, inbound_event opts data = Some (t, p) -> t ∈ expected ->
                wait_done n w
                  (Resolved (if (1 <? length expected)%nat
                             then JObj [(u "type", JStr t); (u "payload", p)]
                             else p))
                  (handle opts (WsMessage data) s2))
           ∧ (∀ data t p, inbound_event opts data = Some (t, p) -> t ∉ expected ->
                wait_live n w (handle opts (WsMessage data) s2))).
Proof.
  intros Hreach. cbv zeta. rewrite sendAndWait_unfold. unfold send.
  split; [intros ->; reflexivity | ]. intros Hopen. rewrite Hopen. cbn [negb].
  set (s0 := ws_send (opt_encode opts (JObj [(u "type", JStr type); (u "payload", payload)])) s).
  pose proof (reachable_requests_ok opts s Hreach) as Hok.
  pose proof (reachable_numbered opts s Hreach (calls s) (Nat.le_refl _)) as Hf.
  assert (Hs0 : same_wait (calls s) s s0) by (apply sw_log; [reflexivity | apply same_wait_refl]).
  assert (Hf0 : fresh_wait (calls s0) s0) by (apply (fresh_wait_same (calls s) s s0 Hs0 Hf)).
  destruct (new_wait (SendAndWait expected) d s0 Hf0) as (Hw & Hl & Htr).
  cbv zeta in Hw, Hl, Htr. change (calls s0) with (calls s) in *.
  match type of Hw with wait_ok _ _ ?x => set (s1 := x) in * end.
  exists s1. split; [reflexivity | ].
  assert (Hok1 : requests_ok s1).
  { apply (requests_ok_core s); [ | exact Hok ].
    apply (core_sendAndWait opts type payload expected d s (FWait (calls s), s1)).
    rewrite sendAndWait_unfold. unfold send. rewrite Hopen. reflexivity. }
  split; [rewrite Htr; unfold s0, ws_send; cbn; rewrite <- app_assoc; reflexivity | ].
  split; [exact Hl | ]. split; [apply first_wins_from; assumption | ].
  intros evs s2 Hrun Hl2.
  pose proof (run_requests_ok opts evs s1 s2 Hok1 Hrun) as Hok2.
  pose proof (run_wait_ok opts _ _ evs s1 s2 Hok1 Hw Hrun) as Hw2.
  split; [intros ctor; apply (timer_rejects opts ctor s2 _ _ Hok2 Hw2 Hl2) | ].
  split.
  - intros data t p Hev Hin. apply (message_resolves opts data t p _ s2 _ _ Hok2 Hw2 Hl2 Hev).
    cbn [resolution]. rewrite (bool_decide_eq_true_2 _ Hin). reflexivity.
  - intros data t p Hev Hin. apply (message_passes opts data t p s2 _ _ Hok2 Hw2 Hl2 Hev).
    cbn [resolution]. rewrite (bool_decide_eq_false_2 _ Hin). reflexivity.
Qed.





(** * Further properties

    ** The decoder of the workflow client *)

Lemma decode_shape raw env :
  decode raw = Ok env ->
  ∃ tag p, env = envelope (type_of_tag tag) p
           ∧ (p = tolerant_parse raw
              ∨ tag = PinSerial
                ∧ p = JObj [(u "SerialNumber", JStr (message_text (tolerant_parse raw)));
                            (u "Message", JStr (message_text (tolerant_parse raw)))]
                ∧ message_text (tolerant_parse raw) ≠ []
                ∧ has_serial (tolerant_parse raw) = false).
Proof.
  unfold decode. set (msg := tolerant_parse raw). fold (message_text msg).
  set (m := message_text msg).
  destruct (if truthy msg && is_object msg
            then prop msg (u "ParticipantsEnrolled") ≫= (λ pe, loose_eq_zero pe)
            else Ok false) as [[|]|e]; cbn [mbind result_bind]; [ | | discriminate ].
  { intros [= <-]. exists ManagerInfo, msg. auto. }
  destruct (prop msg (u "ParticipantsEnrolled")) as [pe|e]; cbn [mbind result_bind];
    [ | discriminate ].
  destruct (greater_than_zero pe) as [[|]|e]; cbn [mbind result_bind]; [ | | discriminate ].
  { intros [= <-]. exists EnrollmentStatus, msg. auto. }
  cbv zeta.
  repeat match goal with
         | |- (if ?c then _ else _) = _ -> _ => destruct c eqn:?
         end;
    intros [= <-];
    try (exists EnrollmentResult, msg; split; [reflexivity | left; reflexivity]);
    try (exists SignResult, msg; split; [reflexivity | left; reflexivity]);
    try (exists WrongPin, msg; split; [reflexivity | left; reflexivity]);
    try (exists Unknown, msg; split; [reflexivity | left; reflexivity]);
    try (exists PinSerial, msg; split; [reflexivity | left; reflexivity]).
  eexists PinSerial, _. split; [reflexivity | ]. right.
  split; [reflexivity | ]. split; [reflexivity | ].
  repeat match goal with H : _ && _ = true |- _ => apply andb_true_iff in H as [H ?] end.
  split; [ | reflexivity ].
  intros E. fold m in E.
  match goal with H : negb (jstr_eqb m []) = true |- _ => rewrite E in H; discriminate H end.
Qed.

(** X1: whatever the decoder of the workflow client returns is an envelope
    of exactly a [type] and a [payload]: the type is one of the seven event
    types, there is neither a [replyTo] nor an [id], and the payload is the
    tolerantly parsed message itself, except for the catch-all rule, which
    delivers as [SUCCESS.PIN_SERIAL] a payload made of the trimmed message
    text under [SerialNumber] and under [Message], for a text that is not
    empty and a message without a serial number of its own. *)
Theorem decode_yields_events (raw : jstring) (env : jsval) :
  decode raw = Ok env ->
  let msg := tolerant_parse raw in
  ∃ tag p,
    env = JObj [(u "type", JStr (type_of_tag tag)); (u "payload", p)]
    ∧ prop_opt env (u "replyTo") = JUndefined
    ∧ prop_opt env (u "id") = JUndefined
    ∧ inbound_event enrollment_options raw = Some (type_of_tag tag, p)
    ∧ (p = msg
       ∨ tag = PinSerial
         ∧ p = JObj [(u "SerialNumber", JStr (message_text msg));
                     (u "Message", JStr (message_text msg))]
         ∧ message_text msg ≠ [] ∧ has_serial msg = false).
Proof.
  intros Hd. cbv zeta. destruct (decode_shape raw env Hd) as (tag & p & -> & Hp).
  exists tag, p. split; [reflexivity | ].
  split; [destruct tag; reflexivity | ]. split; [destruct tag; reflexivity | ].
  split; [ | exact Hp ].
  unfold inbound_event. cbn [opt_decode enrollment_options]. rewrite Hd.
  destruct tag; reflexivity.
Qed.

Lemma decode_yields_events_witness :
  ∃ tag p,
    decode (u "card locked") = Ok (JObj [(u "type", JStr (type_of_tag tag)); (u "payload", p)])
    ∧ inbound_event enrollment_options (u "card locked") = Some (type_of_tag tag, p).
Proof.
  assert (Hd : decode (u "card locked")
               = Ok (envelope (u "SUCCESS.PIN_SERIAL")
                       (JObj [(u "SerialNumber", JStr (u "card locked"));
                              (u "Message", JStr (u "card locked"))])))
    by (vm_compute; reflexivity).
  destruct (decode_yields_events _ _ Hd) as (tag & p & He & _ & _ & Hev & _).
  exists tag, p. split; [rewrite Hd; f_equal; exact He | exact Hev].
Defined.

(** X2: no frame that reaches the socket of a workflow client answers a
    request: since the decoder never produces a [replyTo], handling a frame
    leaves the table of pending requests, the timers of requests and the
    settlements of every request future as they are.  A [request] made on
    such a socket ends by its timeout or by the close of the socket only. *)
Theorem frames_never_answer_requests (s : ObjectSocket) (data : jstring) :
  let s' := handle enrollment_options (WsMessage data) s in
  _pending s' = _pending s
  ∧ (∀ id ty, TRequest id ty ∈ timers s' <-> TRequest id ty ∈ timers s)
  ∧ (∀ id, settles_of (FRequest id) (trace s') = settles_of (FRequest id) (trace s))
  ∧ _ws s' = _ws s.
Proof.
  cbv zeta.
  assert (Hv : core_view (handle enrollment_options (WsMessage data) s) = core_view s).
  { cbn [handle]. unfold _handleMessage. cbn [opt_decode enrollment_options tolerantDecode].
    destruct (decode data) as [env|e] eqn:Hd; [ | apply core_emit ].
    destruct (decode_shape data env Hd) as (tag & p & -> & _).
    assert (Hr : truthy (prop_opt (envelope (type_of_tag tag) p) (u "replyTo")) = false)
      by (destruct tag; reflexivity).
    assert (Ht : prop_opt (envelope (type_of_tag tag) p) (u "type") = JStr (type_of_tag tag))
      by (destruct tag; reflexivity).
    rewrite Hr, Ht. cbn [truthy envelope negb orb is_string]. apply core_dispatch. }
  destruct (view_facts _ _ (core_request _ _ Hv)) as (Hp & _ & Ht & _).
  split; [exact Hp | ]. split; [exact Ht | ].
  split; [intros id; apply view_settles, core_request, Hv | apply core_ws, Hv].
Qed.

(** A frame that is not JSON is the message [{ Message: raw }]. *)
Lemma decode_text raw :
  JSON_parse raw = None ->
  let msg := message_of raw in
  let m := trim raw in
  let mUpper := toUpperCase m in
  let is64Hex := test_hex64 (if startsWith (u "0x") m then slice_from 2 m else m) in
  decode raw =
  if jstr_eqb mUpper (u "SUCCESS.ENROLL") then Ok (envelope (u "ENROLLMENT_RESULT") msg)
  else if jstr_eqb mUpper (u "SUCCESS.SIGNATURE_ADDED") then Ok (envelope (u "SIGN_RESULT") msg)
  else if jstr_eqb mUpper (u "SUCCESS.SIGNATURE_ENDED") then Ok (envelope (u "SIGN_RESULT") msg)
  else if is64Hex then Ok (envelope (u "SIGN_RESULT") msg)
  else if negb (jstr_eqb m []) && negb (jstr_eqb mUpper (u "ERROR.WRONG_PIN"))
          && negb (startsWith (u "SUCCESS.SIGNATURE_") mUpper)
          && negb (jstr_eqb mUpper (u "SUCCESS.ENROLL")) && negb is64Hex
       then Ok (envelope (u "SUCCESS.PIN_SERIAL")
                  (JObj [(u "SerialNumber", JStr m); (u "Message", JStr m)]))
  else if jstr_eqb mUpper (u "ERROR.WRONG_PIN") then Ok (envelope (u "ERROR.WRONG_PIN") msg)
  else Ok (envelope (u "UNKNOWN") msg).
Proof.
  intros Hp. cbv zeta.
  assert (Ht : tolerant_parse raw = message_of raw)
    by (unfold tolerant_parse; rewrite Hp; reflexivity).
  unfold decode. rewrite Ht.
  change (truthy (message_of raw) && is_object (message_of raw)) with true.
  change (prop (message_of raw) (u "ParticipantsEnrolled")) with (Ok JUndefined).
  cbn [mbind result_bind loose_eq_zero].
  change (greater_than_zero JUndefined) with (Ok false). cbn [mbind result_bind].
  change (prop_opt (message_of raw) (u "Message")) with (JStr raw).
  change (has_serial (message_of raw)) with false.
  change (truthy (prop_opt (message_of raw) (u "TxHash"))) with false.
  change (truthy (prop_opt (message_of raw) (u "txHash"))) with false.
  change (truthy (prop_opt (message_of raw) (u "txid"))) with false.
  change (truthy (prop_opt (message_of raw) (u "TxId"))) with false.
  change (truthy (prop_opt (message_of raw) (u "TransactionId"))) with false.
  cbn [orb]. rewrite orb_false_r. reflexivity.
Qed.

Lemma upper_unit_length c : (1 <= length (upper_unit c))%nat.
Proof.
  unfold upper_unit.
  repeat match goal with |- context [if ?b then _ else _] => destruct b end; cbn; lia.
Qed.

Lemma toUpperCase_length s : (length s <= length (toUpperCase s))%nat.
Proof.
  unfold toUpperCase. induction s as [|c r IH]; [reflexivity | ].
  cbn [List.map concat]. rewrite length_app. pose proof (upper_unit_length c). cbn [length]. lia.
Qed.

Lemma short_text_not_hex m :
  (length m < 64)%nat ->
  test_hex64 (if startsWith (u "0x") m then slice_from 2 m else m) = false.
Proof.
  intros Hl. unfold test_hex64.
  assert (H : (length (if startsWith (u "0x") m then slice_from 2 m else m) =? 64)%nat = false).
  { apply Nat.eqb_neq. destruct (startsWith (u "0x") m); [ | lia ].
    unfold slice_from. rewrite length_drop. lia. }
  rewrite H. reflexivity.
Qed.

(** X3: a frame that is not JSON is classified by its trimmed text alone.
    An empty or blank frame is [UNKNOWN]; a text that reads
    [ERROR.WRONG_PIN], in any letter case and with any surrounding blanks, is
    [ERROR.WRONG_PIN]; and every other text that is not empty, is not
    [SUCCESS.ENROLL], does not start with [SUCCESS.SIGNATURE_] and is not
    sixty-four hexadecimal digits is delivered as [SUCCESS.PIN_SERIAL] with
    the text as serial number: an error text the decoder does not know is
    reported as the serial of a card. *)
Theorem text_frames_fall_to_pin_serial (raw : jstring) :
  JSON_parse raw = None ->
  let m := trim raw in
  let mUpper := toUpperCase m in
  (m = [] -> decode raw = Ok (envelope (u "UNKNOWN") (message_of raw)))
  ∧ (mUpper = u "ERROR.WRONG_PIN" ->
     decode raw = Ok (envelope (u "ERROR.WRONG_PIN") (message_of raw)))
  ∧ (m ≠ [] -> mUpper ≠ u "SUCCESS.ENROLL" -> mUpper ≠ u "ERROR.WRONG_PIN" ->
     startsWith (u "SUCCESS.SIGNATURE_") mUpper = false ->
     test_hex64 (if startsWith (u "0x") m then slice_from 2 m else m) = false ->
     decode raw = Ok (envelope (u "SUCCESS.PIN_SERIAL")
                        (JObj [(u "SerialNumber", JStr m); (u "Message", JStr m)]))).
Proof.
  intros Hp. pose proof (decode_text raw Hp) as Hd. cbv zeta in Hd |- *.
  split; [ | split ].
  - intros Hm. rewrite Hd, Hm. reflexivity.
  - intros HM. rewrite Hd, HM.
    rewrite short_text_not_hex; [destruct (jstr_eqb (trim raw) []); reflexivity | ].
    pose proof (toUpperCase_length (trim raw)) as Hl. rewrite HM in Hl.
    change (length (u "ERROR.WRONG_PIN")) with 15%nat in Hl. lia.
  - intros Hm H1 H2 H3 H4. rewrite Hd, H3, H4.
    assert (E1 : jstr_eqb (toUpperCase (trim raw)) (u "SUCCESS.ENROLL") = false)
      by (apply bool_decide_eq_false, H1).
    assert (E2 : jstr_eqb (toUpperCase (trim raw)) (u "ERROR.WRONG_PIN") = false)
      by (apply bool_decide_eq_false, H2).
    assert (E3 : jstr_eqb (trim raw) [] = false) by (apply bool_decide_eq_false, Hm).
    assert (E4 : jstr_eqb (toUpperCase (trim raw)) (u "SUCCESS.SIGNATURE_ADDED") = false).
    { apply bool_decide_eq_false. intros E. rewrite E in H3. discriminate H3. }
    assert (E5 : jstr_eqb (toUpperCase (trim raw)) (u "SUCCESS.SIGNATURE_ENDED") = false).
    { apply bool_decide_eq_false. intros E. rewrite E in H3. discriminate H3. }
    rewrite E1, E2, E3, E4, E5. reflexivity.
Qed.

Lemma text_frames_fall_to_pin_serial_witness :
  JSON_parse (u "ERROR.CARD_LOCKED") = None
  ∧ decode (u "ERROR.CARD_LOCKED")
    = Ok (envelope (u "SUCCESS.PIN_SERIAL")
            (JObj [(u "SerialNumber", JStr (u "ERROR.CARD_LOCKED"));
                   (u "Message", JStr (u "ERROR.CARD_LOCKED"))])).
Proof.
  assert (Hp : JSON_parse (u "ERROR.CARD_LOCKED") = None) by (vm_compute; reflexivity).
  split; [exact Hp | ].
  destruct (text_frames_fall_to_pin_serial (u "ERROR.CARD_LOCKED") Hp) as (_ & _ & H).
  assert (Ht : trim (u "ERROR.CARD_LOCKED") = u "ERROR.CARD_LOCKED") by (vm_compute; reflexivity).
  cbv zeta in H. rewrite Ht in H. apply H.
  - vm_compute. discriminate.
  - vm_compute. discriminate.
  - vm_compute. discriminate.
  - vm_compute. reflexivity.
  - vm_compute. reflexivity.
Defined.

(** ** What the operations put on the wire *)

Lemma subscribe_all_sent (subs : list (jstring * handler)) : ∀ x,
  sent_frames (trace (subscribe_all subs x)) = sent_frames (trace x).
Proof.
  unfold subscribe_all. induction subs as [|sub subs IH]; intros x; [reflexivity | ].
  cbn [fold_left]. rewrite IH. unfold onType. case_bool_decide; [reflexivity | ].
  cbn. read_trace. reflexivity.
Qed.




(** ** The transport: reconnection and heartbeat *)

(** *** Operations that leave the connection alone *)

Lemma link_log e s :
  is_reconnect_effect e = false -> link_view (log e s) = link_view s.
Proof.
  intros He. unfold link_view. cbn.
  rewrite filter_snoc_false by (rewrite He; discriminate). reflexivity.
Qed.

Lemma link_setTimeout t d s :
  is_link_timer t = false -> link_view (setTimeout t d s) = link_view s.
Proof.
  intros Ht. unfold setTimeout. rewrite link_log by (destruct t; [reflexivity.. | discriminate | discriminate]).
  unfold link_view. cbn.
  rewrite filter_snoc_false by (rewrite Ht; discriminate). reflexivity.
Qed.

Lemma link_clearTimeout t s :
  is_link_timer t = false -> link_view (clearTimeout t s) = link_view s.
Proof.
  intros Ht. unfold clearTimeout. case_bool_decide; [ | reflexivity ].
  rewrite link_log by reflexivity. unfold link_view. cbn.
  rewrite filter_remove_other by (rewrite Ht; discriminate). reflexivity.
Qed.

Lemma link_fired t s :
  is_link_timer t = false ->
  link_view (log (Fired t) (set_timers (filter (λ x, x ≠ t) (timers s)) s)) = link_view s.
Proof.
  intros Ht. rewrite link_log by reflexivity. unfold link_view. cbn.
  rewrite filter_remove_other by (rewrite Ht; discriminate). reflexivity.
Qed.

Lemma link_settle f o s : link_view (log (Settle f o) s) = link_view s.
Proof. apply link_log. reflexivity. Qed.

Lemma link_pending_delete id s : link_view (pending_delete id s) = link_view s.
Proof.
  unfold pending_delete. destruct (_pending s !! id); [ | reflexivity ].
  rewrite link_log by reflexivity. reflexivity.
Qed.

Lemma link_onType type h s : link_view (onType type h s) = link_view s.
Proof.
  unfold onType. case_bool_decide; [reflexivity | ].
  rewrite link_log by reflexivity. reflexivity.
Qed.

Lemma link_offType type h s : link_view (offType type h s) = link_view s.
Proof.
  unfold offType. destruct (_handlers s !! type); [ | reflexivity ].
  case_bool_decide; [ | reflexivity ].
  rewrite link_log by reflexivity. reflexivity.
Qed.

Lemma link_fold {A} (f : ObjectSocket -> A -> ObjectSocket) l :
  (∀ s x, link_view (f s x) = link_view s) ->
  ∀ s, link_view (fold_left f l s) = link_view s.
Proof.
  intros Hf. induction l as [|x r IH]; intros s; [reflexivity | ].
  cbn. rewrite IH. apply Hf.
Qed.

Lemma link_release n w s : link_view (release n w s) = link_view s.
Proof.
  unfold release. rewrite link_fold by (intros; apply link_offType).
  apply link_clearTimeout. reflexivity.
Qed.

Lemma link_subscribe_all subs s : link_view (subscribe_all subs s) = link_view s.
Proof. unfold subscribe_all. apply link_fold. intros. apply link_onType. Qed.

Lemma link_wait_timeout n s : link_view (wait_timeout n s) = link_view s.
Proof.
  unfold wait_timeout, reject. destruct (waits s !! n) as [[p|l]|]; [ | | reflexivity ];
    rewrite link_settle; apply link_release.
Qed.

Lemma link_sendReply opts to p e s : link_view (_sendReply opts to p e s) = link_view s.
Proof.
  unfold _sendReply. destruct (negb (truthy _)); [reflexivity | ].
  destruct (negb (ws_open s)); [reflexivity | ]. apply link_log. reflexivity.
Qed.

Lemma link_invoke opts h env s : link_view (invoke opts h env s).1 = link_view s.
Proof.
  unfold invoke, resolve. destruct h as [k|n|n|n i]; [reflexivity | | | ];
    destruct (waits s !! n) as [[p|l]|]; try reflexivity; cbn [fst].
  - destruct (p _) as [[|]|]; try reflexivity. cbn [fst].
    rewrite link_settle. apply link_release.
  - rewrite link_settle. apply link_release.
  - rewrite link_settle. apply link_release.
Qed.

Lemma link_deliver opts h env s : link_view (deliver opts h env s) = link_view s.
Proof.
  unfold deliver.
  pose proof (link_invoke opts h env (log (Called h) s)) as Hv.
  destruct (invoke opts h env (log (Called h) s)) as [s' c]. cbn [fst] in Hv.
  rewrite link_log in Hv by reflexivity.
  destruct c; [exact Hv | | exact Hv].
  unfold replyError. rewrite link_sendReply. exact Hv.
Qed.

Lemma link_dispatch opts set type env :
  ∀ s, link_view (dispatch opts set type env s) = link_view s.
Proof.
  induction set as [|h rest IH]; intros s; [reflexivity | ].
  cbn [dispatch]. rewrite IH. case_bool_decide; [apply link_deliver | reflexivity].
Qed.

Lemma link_handler_rejected opts env e s :
  link_view (handler_rejected opts env e s) = link_view s.
Proof. unfold handler_rejected, replyError. apply link_sendReply. Qed.

Lemma link_send opts type payload s s' :
  send opts type payload s = Ok s' -> link_view s' = link_view s.
Proof.
  unfold send. destruct (negb (ws_open s)); [discriminate | ].
  intros [= <-]. apply link_log. reflexivity.
Qed.

Lemma link_request opts type payload tmo now s r :
  request opts type payload tmo now s = Ok r -> link_view r.2 = link_view s.
Proof.
  unfold request. destruct (negb (ws_open s)); [discriminate | ].
  intros [= <-]. cbn [snd]. unfold ws_send. rewrite link_log by reflexivity.
  change (link_view (set_pending ?v ?x)) with (link_view x).
  rewrite link_setTimeout by reflexivity. reflexivity.
Qed.

Lemma link_new_wait n w d s :
  link_view (subscribe_all (subscriptions n w)
               (setTimeout (TWait n) d (set_waits (<[n := w]> (waits s)) (set_calls (S n) s))))
  = link_view s.
Proof. rewrite link_subscribe_all, link_setTimeout by reflexivity. reflexivity. Qed.

Lemma link_heartbeat_tick opts s : link_view (heartbeat_tick opts s) = link_view s.
Proof.
  unfold heartbeat_tick. destruct (negb (ws_open s)); [reflexivity | ].
  apply link_log. reflexivity.
Qed.

Lemma link_reply pending replyTo o s :
  requests_ok s -> _pending s !! replyTo = Some pending ->
  link_view (log (Settle (settles pending) o)
               (pending_delete replyTo (clearTimeout (timeout pending) s)))
  = link_view s.
Proof.
  intros Hok Hp. destruct (request_timer_set s replyTo pending Hok Hp) as (_ & ty & Hto & _).
  rewrite link_settle, link_pending_delete, Hto. apply link_clearTimeout. reflexivity.
Qed.

Lemma link_handleMessage opts data s :
  requests_ok s -> link_view (handle opts (WsMessage data) s) = link_view s.
Proof.
  intros Hok. cbn [handle]. unfold _handleMessage.
  destruct (opt_decode opts data) as [env|e].
  2:{ destruct (tolerantDecode opts); [ | reflexivity ]. apply link_log. reflexivity. }
  destruct (negb (truthy env) || negb (is_string (prop_opt env (u "type")))); [reflexivity | ].
  destruct (truthy (prop_opt env (u "replyTo"))).
  - destruct (prop_opt env (u "replyTo")) as [| |b|x|replyTo|l|o]; try reflexivity.
    destruct (_pending s !! replyTo) as [pending|] eqn:Ep; [ | reflexivity ].
    destruct (truthy (prop_opt env (u "error"))); apply (link_reply pending replyTo _ s Hok Ep).
  - destruct (prop_opt env (u "type")); try reflexivity. apply link_dispatch.
Qed.

(** Whatever holds before [_failAllPending] and survives the failing of one
    pending request holds after it. *)
Lemma failAllPending_ind (P : ObjectSocket -> Prop) err s :
  requests_ok s -> P s ->
  (∀ y id p, requests_ok y -> _pending y !! id = Some p -> P y -> P (fail_one err y (id, p))) ->
  P (_failAllPending err s).
Proof.
  intros Hok H0 Hstep. unfold _failAllPending.
  assert (Hgen : ∀ l y, requests_ok y -> NoDup l.*1 ->
            (∀ id p, (id, p) ∈ l -> _pending y !! id = Some p) ->
            P y -> P (fold_left (fail_one err) l y)).
  { induction l as [|[id p] l IH]; intros y Hy Hnd Hin Hy0; [exact Hy0 | ].
    cbn [fold_left]. cbn [fmap list_fmap fst] in Hnd. apply NoDup_cons in Hnd as [Hnot Hnd].
    assert (Hp : _pending y !! id = Some p) by (apply Hin; left).
    destruct (fail_one_fields err y id p Hy Hp) as (F1 & _).
    apply IH; [apply fail_one_ok; assumption | exact Hnd | | ].
    - intros id' q Hq. rewrite F1, lookup_delete_ne; [apply Hin; right; exact Hq | ].
      intros ->. apply Hnot, list_elem_of_fmap. exists (id', q). auto.
    - apply Hstep; assumption. }
  apply Hgen; [exact Hok | apply NoDup_fst_map_to_list | | exact H0].
  intros id p Hin. apply elem_of_map_to_list in Hin. exact Hin.
Qed.

Lemma link_failAllPending err s :
  requests_ok s -> link_view (_failAllPending err s) = link_view s.
Proof.
  intros Hok. apply (failAllPending_ind (λ y, link_view y = link_view s)); [exact Hok | reflexivity | ].
  intros y id p Hy Hp Hv. rewrite <- Hv.
  destruct (request_timer_set y id p Hy Hp) as (_ & ty & Hto & _).
  unfold fail_one, reject. cbn [fst snd].
  rewrite link_pending_delete, link_settle, Hto. apply link_clearTimeout. reflexivity.
Qed.

(** *** Invariants of reconnection and heartbeat *)

Lemma link_retry s s' : link_view s' = link_view s -> retry_view s' = retry_view s.
Proof. unfold link_view, retry_view. congruence. Qed.

Lemma retries_ok_view opts s s' :
  retry_view s' = retry_view s -> retries_ok opts s -> retries_ok opts s'.
Proof.
  unfold retry_view. intros [= Hr Htr] H1.
  assert (Hev : ∀ e, is_reconnect_effect e = true -> (e ∈ trace s' <-> e ∈ trace s)).
  { intros e Hl.
    assert (E : ∀ l : list effect,
              e ∈ l <-> e ∈ filter (λ e, is_reconnect_effect e = true) l).
    { intros l. rewrite list_elem_of_filter. tauto. }
    rewrite (E (trace s')), (E (trace s)), Htr. tauto. }
  intros bound Hb. destruct (H1 bound Hb) as [Hle Hlt]. rewrite Hr. split; [exact Hle | ].
  intros a d Hin. apply (Hlt a d). apply (Hev (Emit (Reconnecting a d)) eq_refl), Hin.
Qed.

Lemma link_timer_mem s s' t :
  link_view s' = link_view s -> is_link_timer t = true -> (t ∈ timers s' <-> t ∈ timers s).
Proof.
  unfold link_view. intros [= _ _ _ _ _ Ht _] Hl.
  assert (E : ∀ l : list timer, t ∈ l <-> t ∈ filter (λ t, is_link_timer t = true) l).
  { intros l. rewrite list_elem_of_filter. tauto. }
  rewrite (E (timers s')), (E (timers s)), Ht. tauto.
Qed.

Lemma heartbeat_ok_view opts s s' :
  link_view s' = link_view s -> heartbeat_ok opts s -> heartbeat_ok opts s'.
Proof.
  intros Hv (H2 & H3). pose proof Hv as Hv'. unfold link_view in Hv'.
  injection Hv' as Ha Hw Hc Hr Hh Ht Htr. split.
  - intros n. rewrite (link_timer_mem s s' (THeartbeat n) Hv eq_refl), Hh. apply H2.
  - rewrite Hh, Hw. exact H3.
Qed.

Lemma link_ok_view opts s s' : link_view s' = link_view s -> link_ok opts s -> link_ok opts s'.
Proof.
  intros Hv [H1 H2]. split.
  - apply (retries_ok_view opts s s' (link_retry s s' Hv) H1).
  - apply (heartbeat_ok_view opts s s' Hv H2).
Qed.

Lemma retry_log e s :
  is_reconnect_effect e = false -> retry_view (log e s) = retry_view s.
Proof.
  intros He. unfold retry_view. cbn.
  rewrite filter_snoc_false by (rewrite He; discriminate). reflexivity.
Qed.

Lemma retry_clearTimeout t s : retry_view (clearTimeout t s) = retry_view s.
Proof.
  unfold clearTimeout. case_bool_decide; [ | reflexivity ].
  rewrite retry_log by reflexivity. reflexivity.
Qed.

Lemma retry_clearHeartbeat s : retry_view (_clearHeartbeat s) = retry_view s.
Proof.
  unfold _clearHeartbeat. change (retry_view (set_heartbeatTimer ?v ?x)) with (retry_view x).
  destruct (_heartbeatTimer s); [apply retry_clearTimeout | reflexivity].
Qed.

Lemma retry_startHeartbeat opts s : retry_view (_startHeartbeat opts s) = retry_view s.
Proof.
  unfold _startHeartbeat. destruct (_ =? _)%Z; [reflexivity | ].
  change (retry_view (set_heartbeatTimer ?v ?x)) with (retry_view x).
  unfold setTimeout. rewrite retry_log by reflexivity. reflexivity.
Qed.

Lemma retry_connect ctor s : retry_view (connect ctor s).2 = retry_view s.
Proof.
  unfold connect, reject. destruct ctor; cbn [snd]; [reflexivity | ].
  rewrite retry_log by reflexivity. reflexivity.
Qed.

Lemma retries_ok_scheduleReconnect opts r s :
  retries_ok opts s -> retries_ok opts (_scheduleReconnect opts r s).
Proof.
  intros H bound Hb. destruct (H bound Hb) as [Hle Hlt].
  unfold _scheduleReconnect. rewrite Hb.
  destruct (bound <=? _reconnectAttempts s) eqn:E; [split; assumption | ].
  apply N.leb_gt in E. cbn. split; [lia | ].
  intros a d Hin. unfold _emit, log in Hin. cbn in Hin.
  rewrite !elem_of_app, !list_elem_of_singleton in Hin.
  destruct Hin as [[Hin | Hin] | Hin]; [apply (Hlt a d Hin) | | discriminate].
  injection Hin as -> _. exact E.
Qed.

Lemma retries_ok_reset opts s s' :
  _reconnectAttempts s' = 0 -> (retry_view s').2 = (retry_view s).2 ->
  retries_ok opts s -> retries_ok opts s'.
Proof.
  intros H0 Htr H.
  apply (retries_ok_view opts (set_reconnectAttempts 0 s)).
  - unfold retry_view in *. cbn in *. congruence.
  - intros bound Hb. destruct (H bound Hb) as [_ Hlt]. split; [cbn; lia | exact Hlt].
Qed.

(** The heartbeat *)
Lemma clearHeartbeat_spec s :
  (∀ n, THeartbeat n ∈ timers s <-> _heartbeatTimer s = Some n) ->
  _heartbeatTimer (_clearHeartbeat s) = None
  ∧ (∀ n, THeartbeat n ∉ timers (_clearHeartbeat s))
  ∧ (∀ n, TReconnect n ∈ timers (_clearHeartbeat s) <-> TReconnect n ∈ timers s)
  ∧ _ws (_clearHeartbeat s) = _ws s
  ∧ autoReconnect (_clearHeartbeat s) = autoReconnect s
  ∧ _connected (_clearHeartbeat s) = _connected s.
Proof.
  intros HB. unfold _clearHeartbeat. split; [reflexivity | ].
  destruct (_heartbeatTimer s) as [m|] eqn:E.
  - unfold clearTimeout. rewrite bool_decide_eq_true_2 by (apply HB; reflexivity).
    cbn. split; [ | split; [ | auto ] ].
    + intros n Hin. apply list_elem_of_filter in Hin as [Hne Hin].
      apply HB in Hin. congruence.
    + intros n. rewrite list_elem_of_filter. split; [tauto | ].
      intros Hin. split; [discriminate | exact Hin].
  - cbn. split; [ | split; [tauto | auto] ].
    intros n Hin. apply HB in Hin. discriminate.
Qed.

Lemma heartbeat_ok_none opts s :
  _heartbeatTimer s = None -> (∀ n, THeartbeat n ∉ timers s) -> heartbeat_ok opts s.
Proof.
  intros Hh Hno. split.
  - intros n. rewrite Hh. split; [intros Hin; destruct (Hno n Hin) | discriminate].
  - rewrite Hh. intros [x Hx]. discriminate.
Qed.

Lemma heartbeat_ok_closed opts s :
  heartbeat_ok opts s -> _ws s ≠ Some OPEN ->
  _heartbeatTimer s = None ∧ ∀ n, THeartbeat n ∉ timers s.
Proof.
  intros (HB & HC) Hw.
  assert (Hh : _heartbeatTimer s = None).
  { destruct (_heartbeatTimer s) as [m|] eqn:E; [ | reflexivity ].
    destruct (HC (ex_intro _ m eq_refl)) as [Ho _]. contradiction. }
  split; [exact Hh | ]. intros n Hin. apply HB in Hin. congruence.
Qed.

Lemma startHeartbeat_ok opts s :
  _heartbeatTimer s = None -> (∀ n, THeartbeat n ∉ timers s) -> _ws s = Some OPEN ->
  heartbeat_ok opts (_startHeartbeat opts s).
Proof.
  intros Hh Hno Hw. unfold _startHeartbeat.
  destruct (heartbeat_intervalMs opts =? 0)%Z eqn:E; [apply heartbeat_ok_none; assumption | ].
  apply Z.eqb_neq in E. split; cbn.
  - intros n. rewrite elem_of_app, list_elem_of_singleton. split.
    + intros [Hin | [= ->]]; [destruct (Hno n Hin) | reflexivity].
    + intros [= <-]. right. reflexivity.
  - intros _. split; [exact Hw | exact E].
Qed.

Lemma heartbeat_ok_scheduleReconnect opts r s :
  heartbeat_ok opts s -> heartbeat_ok opts (_scheduleReconnect opts r s).
Proof.
  intros (HB & HC). unfold _scheduleReconnect.
  match goal with |- context [if ?c then _ else _] => destruct c end; [split; assumption | ].
  split; cbn.
  - intros n. rewrite elem_of_app, list_elem_of_singleton. rewrite <- HB.
    split; [intros [H | H]; [exact H | discriminate] | auto].
  - exact HC.
Qed.

Lemma no_live_socket_closed s : no_live_socket s = true -> _ws s ≠ Some OPEN.
Proof. unfold no_live_socket. destruct (_ws s) as [[| | |]|]; discriminate. Qed.

Lemma link_idle opts ev s :
  requests_ok s ->
  match ev with
  | Connect _ | WsOpen | WsClose _ | Close | TimerFires (TReconnect _) _ => True
  | _ => link_view (handle opts ev s) = link_view s
  end.
Proof.
  intros Hok.
  destruct ev as [ctor| |data| |random| |type payload|type payload tmo now|type k|type k
                  |predicate tmo|type payload expectList tmo|t ctor|i]; try exact I;
    cbn [handle].
  - apply link_handleMessage, Hok.
  - apply link_log. reflexivity.
  - destruct (send opts type payload s) as [s'|e] eqn:E; [ | reflexivity ].
    apply (link_send opts type payload s s' E).
  - destruct (request opts type payload tmo now s) as [r|e] eqn:E; [ | reflexivity ].
    apply (link_request opts type payload tmo now s r E).
  - apply link_onType.
  - apply link_offType.
  - unfold waitFor. cbn [snd]. apply link_new_wait.
  - rewrite sendAndWait_unfold.
    destruct (send opts type payload s) as [s1|e] eqn:E; cbn [snd]; [ | reflexivity ].
    rewrite link_new_wait. apply (link_send opts type payload s s1 E).
  - destruct t as [id ty|m|m|m]; [ | | exact I | ]; unfold fire; cbn [timer_callback].
    + unfold reject. rewrite link_settle, link_pending_delete. apply link_fired. reflexivity.
    + rewrite link_wait_timeout. apply link_fired. reflexivity.
    + rewrite link_heartbeat_tick. apply link_log. reflexivity.
  - destruct (rejections s !! i) as [[env e]|]; [ | reflexivity ].
    rewrite link_handler_rejected. reflexivity.
Qed.

Lemma handle_retries_ok opts ev s :
  requests_ok s -> retries_ok opts s -> retries_ok opts (handle opts ev s).
Proof.
  intros Hok H. pose proof (link_idle opts ev s Hok) as Hidle.
  destruct ev as [ctor| |data| |random| |type payload|type payload tmo now|type k|type k
                  |predicate tmo|type payload expectList tmo|t ctor|i];
    try (apply (retries_ok_view opts s); [apply link_retry, Hidle | exact H]).
  - apply (retries_ok_view opts s); [apply retry_connect | exact H].
  - cbn [handle]. apply (retries_ok_reset opts s); [ | | exact H ].
    + unfold ws_onopen, resolve, _startHeartbeat. destruct (_ =? _)%Z; reflexivity.
    + unfold ws_onopen, resolve. rewrite retry_log by reflexivity.
      rewrite retry_startHeartbeat. unfold _emit. rewrite retry_log by reflexivity. reflexivity.
  - cbn [handle]. unfold ws_onclose.
    set (s3 := _emit Disconnected (_clearHeartbeat (set_connected false (set_ws (Some CLOSED) s)))).
    assert (H3 : retries_ok opts s3).
    { apply (retries_ok_view opts s); [ | exact H ]. subst s3. unfold _emit.
      rewrite retry_log by reflexivity. rewrite retry_clearHeartbeat. reflexivity. }
    assert (Hok3 : requests_ok s3).
    { eapply requests_ok_view; [ | exact Hok ]. subst s3.
      rewrite (core_request _ _ (core_emit _ _)), (core_request _ _ (core_clearHeartbeat _)).
      reflexivity. }
    set (s4 := if _connected _ then _ else s3).
    assert (H4 : retries_ok opts s4).
    { subst s4. destruct (_connected _); [ | exact H3 ].
      apply (retries_ok_view opts s3); [ | exact H3 ].
      apply link_retry, link_failAllPending, Hok3. }
    destruct (autoReconnect s4); [apply retries_ok_scheduleReconnect, H4 | exact H4].
  - cbn [handle]. apply (retries_ok_view opts s); [ | exact H ].
    unfold close. rewrite retry_clearHeartbeat.
    destruct (_ws (set_autoReconnect false s)) as [[| | |]|]; reflexivity.
  - destruct t as [id ty|m|m|m];
      try (apply (retries_ok_view opts s); [apply link_retry, Hidle | exact H]).
    cbn [handle]. unfold fire. cbn [timer_callback].
    apply (retries_ok_view opts s); [ | exact H ].
    rewrite retry_connect, retry_log by reflexivity. reflexivity.
Qed.

Lemma handle_heartbeat_ok opts ev s :
  requests_ok s -> heartbeat_ok opts s -> enabled ev s = true ->
  heartbeat_ok opts (handle opts ev s).
Proof.
  intros Hok H Hen. pose proof (link_idle opts ev s Hok) as Hidle.
  destruct ev as [ctor| |data| |random| |type payload|type payload tmo now|type k|type k
                  |predicate tmo|type payload expectList tmo|t ctor|i];
    try (apply (heartbeat_ok_view opts s); [exact Hidle | exact H]).
  - cbn [handle enabled] in *.
    destruct (heartbeat_ok_closed opts s H (no_live_socket_closed s Hen)) as [Hh Hno].
    apply heartbeat_ok_none; unfold connect, reject; destruct ctor; cbn; assumption.
  - cbn [handle enabled] in *. apply bool_decide_eq_true in Hen.
    destruct (heartbeat_ok_closed opts s H) as [Hh Hno]; [rewrite Hen; discriminate | ].
    unfold ws_onopen, resolve. apply (heartbeat_ok_view opts (_startHeartbeat opts
      (_emit Connected (set_reconnectAttempts 0 (set_connected true (set_ws (Some OPEN) s)))))).
    { apply link_log. reflexivity. }
    apply startHeartbeat_ok; cbn; auto.
  - cbn [handle]. unfold ws_onclose.
    destruct (clearHeartbeat_spec (set_connected false (set_ws (Some CLOSED) s)))
      as (Ch & Cno & _); [exact (proj1 H) | ].
    set (s3 := _emit Disconnected (_clearHeartbeat (set_connected false (set_ws (Some CLOSED) s)))).
    assert (H3 : heartbeat_ok opts s3) by (apply heartbeat_ok_none; assumption).
    assert (Hok3 : requests_ok s3).
    { eapply requests_ok_view; [ | exact Hok ]. subst s3.
      rewrite (core_request _ _ (core_emit _ _)), (core_request _ _ (core_clearHeartbeat _)).
      reflexivity. }
    set (s4 := if _connected _ then _ else s3).
    assert (H4 : heartbeat_ok opts s4).
    { subst s4. destruct (_connected _); [ | exact H3 ].
      apply (heartbeat_ok_view opts s3); [ | exact H3 ]. apply link_failAllPending, Hok3. }
    destruct (autoReconnect s4); [apply heartbeat_ok_scheduleReconnect, H4 | exact H4].
  - cbn [handle]. unfold close.
    set (s2 := match _ws (set_autoReconnect false s) with
               | Some CONNECTING | Some OPEN => _
               | _ => set_autoReconnect false s
               end).
    destruct (clearHeartbeat_spec s2) as (Ch & Cno & _).
    { subst s2. destruct (_ws (set_autoReconnect false s)) as [[| | |]|]; exact (proj1 H). }
    apply heartbeat_ok_none; assumption.
  - destruct t as [id ty|m|m|m];
      try (apply (heartbeat_ok_view opts s); [exact Hidle | exact H]).
    cbn [handle enabled] in *. apply andb_true_iff in Hen as [Hin Hen].
    destruct (heartbeat_ok_closed opts s H (no_live_socket_closed s Hen)) as [Hh Hno].
    unfold fire. cbn [timer_callback].
    apply heartbeat_ok_none.
    + unfold connect, reject. destruct ctor; cbn; exact Hh.
    + intros n Hn.
      assert (Hn' : THeartbeat n ∈ filter (λ x, x ≠ TReconnect m) (timers s))
        by (unfold connect, reject in Hn; destruct ctor; cbn in Hn; exact Hn).
      apply list_elem_of_filter in Hn' as [_ Hn']. exact (Hno n Hn').
Qed.

Lemma reachable_link_ok opts s : reachable opts s -> link_ok opts s.
Proof.
  intros (auto & evs & Hrun).
  assert (H0 : link_ok opts (new_socket auto)).
  { split.
    - intros bound _. cbn. split; [lia | ]. intros a d Hin. inversion Hin.
    - apply heartbeat_ok_none; [reflexivity | ]. intros n Hin. inversion Hin. }
  pose proof (new_socket_requests_ok auto) as Hok0.
  revert Hok0 H0 Hrun. generalize (new_socket auto).
  induction evs as [|ev evs IH]; intros x Hok [H1 H2] Hrun.
  - injection Hrun as <-. split; assumption.
  - cbn [run] in Hrun. destruct (enabled ev x) eqn:Hen; [ | discriminate ].
    apply (IH (handle opts ev x)); [ | | exact Hrun ].
    + apply handle_requests_ok; assumption.
    + split; [apply handle_retries_ok | apply handle_heartbeat_ok]; assumption.
Qed.

(** *** Reconnection is bounded, the heartbeat is not leaked *)






(** *** After [close()] *)

Lemma link_autoReconnect s s' : link_view s' = link_view s -> autoReconnect s' = autoReconnect s.
Proof. unfold link_view. congruence. Qed.

Lemma handle_no_reconnect opts ev s :
  requests_ok s -> autoReconnect s = false ->
  autoReconnect (handle opts ev s) = false
  ∧ (retry_view (handle opts ev s)).2 = (retry_view s).2.
Proof.
  intros Hok Ha. pose proof (link_idle opts ev s Hok) as Hidle.
  destruct ev as [ctor| |data| |random| |type payload|type payload tmo now|type k|type k
                  |predicate tmo|type payload expectList tmo|t ctor|i];
    try (split; [rewrite (link_autoReconnect _ _ Hidle); exact Ha
                | rewrite (link_retry _ _ Hidle); reflexivity]).
  - cbn [handle]. rewrite retry_connect. split; [ | reflexivity ].
    unfold connect, reject. destruct ctor; exact Ha.
  - cbn [handle]. split.
    + unfold ws_onopen, resolve, _startHeartbeat. destruct (_ =? _)%Z; exact Ha.
    + unfold ws_onopen, resolve. rewrite retry_log by reflexivity.
      rewrite retry_startHeartbeat. unfold _emit. rewrite retry_log by reflexivity. reflexivity.
  - cbn [handle]. unfold ws_onclose.
    set (s3 := _emit Disconnected (_clearHeartbeat (set_connected false (set_ws (Some CLOSED) s)))).
    assert (R3 : retry_view s3 = retry_view s).
    { subst s3. unfold _emit. rewrite retry_log by reflexivity.
      rewrite retry_clearHeartbeat. reflexivity. }
    assert (A3 : autoReconnect s3 = false).
    { subst s3. unfold _emit. cbn [autoReconnect log set_trace].
      rewrite (proj1 (clearHeartbeat_fields _)). exact Ha. }
    assert (Hok3 : requests_ok s3).
    { eapply requests_ok_view; [ | exact Hok ]. subst s3.
      rewrite (core_request _ _ (core_emit _ _)), (core_request _ _ (core_clearHeartbeat _)).
      reflexivity. }
    set (s4 := if _connected _ then _ else s3).
    assert (H4 : autoReconnect s4 = false ∧ retry_view s4 = retry_view s).
    { subst s4. destruct (_connected _); [ | auto ].
      pose proof (link_failAllPending (Error (u "socket closed")) s3 Hok3) as Hv.
      rewrite (link_autoReconnect _ _ Hv), (link_retry _ _ Hv). auto. }
    destruct H4 as [A4 R4]. rewrite A4. split; [exact A4 | rewrite R4; reflexivity].
  - cbn [handle]. unfold close. rewrite retry_clearHeartbeat.
    rewrite (proj1 (clearHeartbeat_fields _)).
    destruct (_ws (set_autoReconnect false s)) as [[| | |]|]; split; reflexivity.
  - destruct t as [id ty|m|m|m];
      try (split; [rewrite (link_autoReconnect _ _ Hidle); exact Ha
                  | rewrite (link_retry _ _ Hidle); reflexivity]).
    cbn [handle]. unfold fire. cbn [timer_callback].
    rewrite retry_connect, retry_log by reflexivity. split; [ | reflexivity ].
    unfold connect, reject. destruct ctor; exact Ha.
Qed.

Lemma run_no_reconnect opts evs : ∀ s s',
  requests_ok s -> autoReconnect s = false -> run opts evs s = Some s' ->
  autoReconnect s' = false ∧ (retry_view s').2 = (retry_view s).2.
Proof.
  induction evs as [|ev evs IH]; intros s s' Hok Ha Hrun.
  - injection Hrun as <-. auto.
  - cbn [run] in Hrun. destruct (enabled ev s) eqn:Hen; [ | discriminate ].
    destruct (handle_no_reconnect opts ev s Hok Ha) as [Ha' Hr'].
    destruct (IH (handle opts ev s) s' (handle_requests_ok opts ev s Hok Hen) Ha' Hrun)
      as [Ha'' Hr''].
    split; [exact Ha'' | congruence].
Qed.

(** X7: [close()] turns reconnection off for good: in whatever follows it,
    [autoReconnect] stays off and no reconnect is announced or scheduled.
    It does not cancel a reconnect that is already scheduled, though: the
    timer stays set, and when it fires on a socket that is gone it connects
    again. *)
Theorem close_stops_reconnection (opts : options) (s : ObjectSocket) :
  reachable opts s ->
  (∀ evs s', run opts evs (close s) = Some s' ->
     autoReconnect s' = false
     ∧ filter (λ e, is_reconnect_effect e = true) (trace s')
       = filter (λ e, is_reconnect_effect e = true) (trace s))
  ∧ (∀ n, TReconnect n ∈ timers s ->
       TReconnect n ∈ timers (close s)
       ∧ (no_live_socket s = true ->
          enabled (TimerFires (TReconnect n) (Ok ())) (close s) = true
          ∧ _ws (handle opts (TimerFires (TReconnect n) (Ok ())) (close s)) = Some CONNECTING)).
Proof.
  intros Hreach. pose proof (reachable_requests_ok opts s Hreach) as Hok.
  assert (Hokc : requests_ok (close s)).
  { apply (handle_requests_ok opts Close s Hok eq_refl). }
  split.
  - intros evs s' Hrun.
    assert (Hac : autoReconnect (close s) = false).
    { unfold close. rewrite (proj1 (clearHeartbeat_fields _)).
      destruct (_ws (set_autoReconnect false s)) as [[| | |]|]; reflexivity. }
    destruct (run_no_reconnect opts evs (close s) s' Hokc Hac Hrun) as [Ha Hr].
    split; [exact Ha | ].
    assert (Hc : (retry_view (close s)).2 = (retry_view s).2).
    { unfold close. rewrite retry_clearHeartbeat.
      destruct (_ws (set_autoReconnect false s)) as [[| | |]|]; reflexivity. }
    unfold retry_view in Hr, Hc. cbn [snd] in Hr, Hc. congruence.
  - intros n Hin.
    destruct (reachable_link_ok opts s Hreach) as [_ [HB _]].
    assert (Hin' : TReconnect n ∈ timers (close s)).
    { unfold close.
      set (s2 := match _ws (set_autoReconnect false s) with
                 | Some CONNECTING | Some OPEN => _
                 | _ => set_autoReconnect false s
                 end).
      destruct (clearHeartbeat_spec s2) as (_ & _ & Ct & _).
      { subst s2. destruct (_ws (set_autoReconnect false s)) as [[| | |]|]; exact HB. }
      apply Ct. subst s2. destruct (_ws (set_autoReconnect false s)) as [[| | |]|]; exact Hin. }
    split; [exact Hin' | ]. intros Hdead.
    assert (Hws : _ws (close s) = _ws s).
    { destruct (clearHeartbeat_spec (set_autoReconnect false s) HB) as (_ & _ & _ & Cw & _).
      unfold no_live_socket in Hdead. unfold close. cbn [_ws set_autoReconnect] in *.
      destruct (_ws s) as [[| | |]|] eqn:E; try discriminate Hdead; rewrite Cw; reflexivity. }
    split.
    + cbn [enabled]. rewrite bool_decide_eq_true_2 by exact Hin'.
      unfold no_live_socket in *. rewrite Hws. exact Hdead.
    + reflexivity.
Qed.

Lemma close_stops_reconnection_witness :
  let s := handle enrollment_options (WsClose 0%Q) open_socket in
  reachable enrollment_options s
  ∧ TReconnect 1 ∈ timers s
  ∧ no_live_socket s = true
  ∧ autoReconnect (close s) = false
  ∧ _ws (handle enrollment_options (TimerFires (TReconnect 1) (Ok ())) (close s))
    = Some CONNECTING.
Proof.
  cbv zeta.
  set (s := handle enrollment_options (WsClose 0%Q) open_socket).
  assert (Hreach : reachable enrollment_options s).
  { exists true, [Connect (Ok ()); WsOpen; WsClose 0%Q]. vm_compute. reflexivity. }
  assert (Hin : TReconnect 1 ∈ timers s) by (vm_compute; left).
  assert (Hdead : no_live_socket s = true) by (vm_compute; reflexivity).
  destruct (close_stops_reconnection enrollment_options s Hreach) as [Hoff Hkeep].
  split; [exact Hreach | ]. split; [exact Hin | ]. split; [exact Hdead | ].
  split; [exact (proj1 (Hoff [] (close s) eq_refl)) | ].
  exact (proj2 (proj2 (Hkeep 1%nat Hin) Hdead)).
Defined.

(** ** The transport: subscriptions *)

Lemma handlers_ok_same s s' : _handlers s' = _handlers s -> handlers_ok s -> handlers_ok s'.
Proof. intros E H t. unfold handlers_of. rewrite E. apply H. Qed.

Lemma clearTimeout_handlers t s : _handlers (clearTimeout t s) = _handlers s.
Proof. unfold clearTimeout. case_bool_decide; reflexivity. Qed.

Lemma pending_delete_handlers id s : _handlers (pending_delete id s) = _handlers s.
Proof. unfold pending_delete. destruct (_pending s !! id); reflexivity. Qed.

Lemma clearHeartbeat_handlers s : _handlers (_clearHeartbeat s) = _handlers s.
Proof.
  unfold _clearHeartbeat. destruct (_heartbeatTimer s); [ | reflexivity ].
  cbn. apply clearTimeout_handlers.
Qed.

Lemma scheduleReconnect_handlers opts r s : _handlers (_scheduleReconnect opts r s) = _handlers s.
Proof.
  unfold _scheduleReconnect.
  match goal with |- context [if ?c then _ else _] => destruct c end; reflexivity.
Qed.

Lemma failAllPending_handlers err s : _handlers (_failAllPending err s) = _handlers s.
Proof.
  unfold _failAllPending. generalize (map_to_list (_pending s)). intros l. revert s.
  induction l as [|x l IH]; intros s; [reflexivity | ].
  cbn [fold_left]. rewrite IH. unfold fail_one, reject.
  rewrite pending_delete_handlers. cbn. apply clearTimeout_handlers.
Qed.

Lemma ws_onclose_handlers opts r s : _handlers (ws_onclose opts r s) = _handlers s.
Proof.
  unfold ws_onclose.
  set (s3 := _emit Disconnected (_clearHeartbeat (set_connected false s))).
  assert (H3 : _handlers s3 = _handlers s)
    by (change (_handlers s3) with (_handlers (_clearHeartbeat (set_connected false s)));
        rewrite clearHeartbeat_handlers; reflexivity).
  set (s4 := if _connected s then _ else s3).
  assert (H4 : _handlers s4 = _handlers s).
  { subst s4. destruct (_connected s); [rewrite failAllPending_handlers | ]; exact H3. }
  destruct (autoReconnect s4); [rewrite scheduleReconnect_handlers | ]; exact H4.
Qed.

Lemma handlers_ok_onType type h s : handlers_ok s -> handlers_ok (onType type h s).
Proof.
  intros H t. unfold onType. case_bool_decide as Hin; [apply H | ].
  rewrite handlers_of_log, handlers_of_insert. case_bool_decide; [ | apply H ].
  apply NoDup_app. split; [apply H | ]. split; [ | apply NoDup_singleton ].
  intros x Hx Hx'. apply list_elem_of_singleton in Hx'. subst x. exact (Hin Hx).
Qed.

Lemma handlers_ok_offType type h s : handlers_ok s -> handlers_ok (offType type h s).
Proof.
  intros H t. unfold offType. destruct (_handlers s !! type) as [set|] eqn:E; [ | apply H ].
  case_bool_decide; [ | apply H ].
  rewrite handlers_of_log, handlers_of_insert. case_bool_decide; [ | apply H ].
  apply NoDup_filter. specialize (H type). unfold handlers_of in H. rewrite E in H. exact H.
Qed.

Lemma handlers_ok_release n w s : handlers_ok s -> handlers_ok (release n w s).
Proof.
  intros H. unfold release.
  assert (H0 : handlers_ok (clearTimeout (TWait n) s))
    by (apply (handlers_ok_same s); [apply clearTimeout_handlers | exact H]).
  revert H0. generalize (clearTimeout (TWait n) s). generalize (subscriptions n w).
  induction l as [|sub l IH]; intros x Hx; [exact Hx | ].
  cbn [fold_left]. apply IH, handlers_ok_offType, Hx.
Qed.

Lemma handlers_ok_subscribe_all subs : ∀ s, handlers_ok s -> handlers_ok (subscribe_all subs s).
Proof.
  unfold subscribe_all. induction subs as [|sub l IH]; intros x Hx; [exact Hx | ].
  cbn [fold_left]. apply IH, handlers_ok_onType, Hx.
Qed.

Lemma handlers_ok_log e s : handlers_ok s -> handlers_ok (log e s).
Proof. intros H. exact H. Qed.

Lemma handlers_ok_wait_timeout n s : handlers_ok s -> handlers_ok (wait_timeout n s).
Proof.
  intros H. unfold wait_timeout, reject. destruct (waits s !! n) as [[p|l]|]; [ | | exact H ];
    apply handlers_ok_log, handlers_ok_release, H.
Qed.

Lemma handlers_ok_invoke opts h env s : handlers_ok s -> handlers_ok (invoke opts h env s).1.
Proof.
  intros H. unfold invoke, resolve. destruct h as [k|n|n|n i]; [exact H | | | ];
    destruct (waits s !! n) as [[p|l]|]; try exact H; cbn [fst].
  - destruct (p _) as [[|]|]; try exact H. cbn [fst].
    apply handlers_ok_log, handlers_ok_release, H.
  - apply handlers_ok_log, handlers_ok_release, H.
  - apply handlers_ok_log, handlers_ok_release, H.
Qed.

Lemma handlers_ok_deliver opts h env s : handlers_ok s -> handlers_ok (deliver opts h env s).
Proof.
  intros H. unfold deliver.
  pose proof (handlers_ok_invoke opts h env (log (Called h) s) H) as Hv.
  destruct (invoke opts h env (log (Called h) s)) as [s' c]. cbn [fst] in Hv.
  destruct c; [exact Hv | | exact Hv].
  apply (handlers_ok_same s'); [apply sendReply_handlers | exact Hv].
Qed.

Lemma handlers_ok_dispatch opts set type env :
  ∀ s, handlers_ok s -> handlers_ok (dispatch opts set type env s).
Proof.
  induction set as [|h rest IH]; intros s H; [exact H | ].
  cbn [dispatch]. apply IH. case_bool_decide; [apply handlers_ok_deliver, H | exact H].
Qed.

Lemma handle_handlers_ok opts ev s : handlers_ok s -> handlers_ok (handle opts ev s).
Proof.
  intros H.
  destruct ev as [ctor| |data| |random| |type payload|type payload tmo now|type k|type k
                  |predicate tmo|type payload expectList tmo|t ctor|i]; cbn [handle].
  - unfold connect, reject. destruct ctor; exact H.
  - unfold ws_onopen, resolve, _startHeartbeat. destruct (_ =? _)%Z; exact H.
  - unfold _handleMessage. destruct (opt_decode opts data) as [env|e].
    2:{ destruct (tolerantDecode opts); exact H. }
    destruct (negb (truthy env) || negb (is_string (prop_opt env (u "type")))); [exact H | ].
    destruct (truthy (prop_opt env (u "replyTo"))).
    + destruct (prop_opt env (u "replyTo")) as [| |b|x|replyTo|l|o]; try exact H.
      destruct (_pending s !! replyTo) as [pending|]; [ | exact H ].
      destruct (truthy (prop_opt env (u "error")));
        (apply (handlers_ok_same s); [ | exact H ]); unfold reject, resolve; cbn;
        rewrite pending_delete_handlers; apply clearTimeout_handlers.
    + destruct (prop_opt env (u "type")); try exact H. apply handlers_ok_dispatch, H.
  - exact H.
  - apply (handlers_ok_same s); [rewrite ws_onclose_handlers; reflexivity | exact H].
  - apply (handlers_ok_same s); [ | exact H ]. unfold close. rewrite clearHeartbeat_handlers.
    destruct (_ws (set_autoReconnect false s)) as [[| | |]|]; reflexivity.
  - unfold send. destruct (negb (ws_open s)); exact H.
  - unfold request. destruct (negb (ws_open s)); exact H.
  - apply handlers_ok_onType, H.
  - apply handlers_ok_offType, H.
  - unfold waitFor. cbn [snd]. apply handlers_ok_subscribe_all. exact H.
  - rewrite sendAndWait_unfold. unfold send. destruct (negb (ws_open s)); [exact H | ].
    cbn [snd]. apply handlers_ok_subscribe_all. exact H.
  - unfold fire. destruct t as [id ty|m|m|m]; cbn [timer_callback].
    + apply (handlers_ok_same s); [ | exact H ]. unfold reject.
      cbn [_handlers log set_trace]. rewrite pending_delete_handlers. reflexivity.
    + apply handlers_ok_wait_timeout. exact H.
    + unfold connect, reject. destruct ctor; exact H.
    + unfold heartbeat_tick. destruct (negb (ws_open _)); exact H.
  - destruct (rejections s !! i) as [[env e]|]; [ | exact H ].
    apply (handlers_ok_same s); [ | exact H ].
    unfold handler_rejected, replyError. rewrite sendReply_handlers. reflexivity.
Qed.

Lemma reachable_handlers_ok opts s : reachable opts s -> handlers_ok s.
Proof.
  intros (auto & evs & Hrun).
  assert (H0 : handlers_ok (new_socket auto)).
  { intros t. unfold handlers_of. cbn. rewrite lookup_empty. apply NoDup_nil_2. }
  revert H0 Hrun. generalize (new_socket auto).
  induction evs as [|ev evs IH]; intros x H Hrun.
  - injection Hrun as <-. exact H.
  - cbn [run] in Hrun. destruct (enabled ev x); [ | discriminate ].
    apply (IH (handle opts ev x)); [apply handle_handlers_ok, H | exact Hrun].
Qed.

Lemma filter_absent (h : handler) (l : list handler) : h ∉ l -> filter (λ x, x ≠ h) l = l.
Proof.
  intros Hin. induction l as [|a l IH]; [reflexivity | ].
  rewrite filter_cons_True by (intros ->; apply Hin; left).
  f_equal. apply IH. intros H. apply Hin. right. exact H.
Qed.

(** X8: the handlers of a type form a set.  In every state a socket can
    reach no handler is held twice for a type, so that an event is delivered
    to each handler of the user subscribed to its type exactly once; to
    subscribe a handler that is subscribed already changes nothing; after
    [offType] the handler is gone; and unsubscribing a handler right after
    subscribing it, when it was not subscribed before, leaves every type
    with the handlers it had. *)
Theorem handler_sets_are_sets (opts : options) (s : ObjectSocket) :
  reachable opts s ->
  (∀ type, NoDup (handlers_of s type))
  ∧ (∀ type env,
       Forall (λ h, is_user_handler h = true) (handlers_of s type) ->
       ∃ l, called (trace (dispatch opts (handlers_of s type) type env s)) = called (trace s) ++ l
            ∧ NoDup l ∧ ∀ h, h ∈ l <-> h ∈ handlers_of s type)
  ∧ (∀ type h, onType type h (onType type h s) = onType type h s)
  ∧ (∀ type h, h ∉ handlers_of (offType type h s) type)
  ∧ (∀ type h type',
       h ∉ handlers_of s type ->
       handlers_of (offType type h (onType type h s)) type' = handlers_of s type').
Proof.
  intros Hreach. pose proof (reachable_handlers_ok opts s Hreach) as Hnd.
  split; [exact Hnd | ]. split; [ | split; [ | split ] ].
  - intros type env Hall. exists (handlers_of s type).
    split; [ | split; [apply Hnd | tauto] ].
    apply dispatch_users. rewrite Forall_forall in *. intros h Hh.
    split; [apply Hall, Hh | exact Hh].
  - intros type h. unfold onType at 1.
    rewrite bool_decide_eq_true_2; [reflexivity | ].
    apply handlers_of_onType. destruct (decide (h ∈ handlers_of s type)); auto.
  - intros type h Hin. apply handlers_of_offType in Hin as [_ Hne]. apply Hne. auto.
  - intros type h type' Hin.
    unfold onType. rewrite bool_decide_eq_false_2 by exact Hin.
    unfold offType. cbn [_handlers log set_trace set_handlers].
    rewrite lookup_insert_eq.
    rewrite bool_decide_eq_true_2 by (apply elem_of_app; right; left).
    unfold handlers_of. cbn [_handlers log set_trace set_handlers].
    destruct (decide (type = type')) as [<- | Hne].
    + rewrite lookup_insert_eq. cbn [default]. fold (handlers_of s type).
      rewrite filter_app, (filter_absent h _ Hin).
      rewrite filter_cons_False by (intros H; apply H; reflexivity).
      rewrite filter_nil. apply app_nil_r.
    + rewrite !lookup_insert_ne by exact Hne. reflexivity.
Qed.

Lemma handler_sets_are_sets_witness :
  let s := handle failing_handlers (OnType (u "X") 0)
             (handle failing_handlers (OnType (u "X") 0) (new_socket true)) in
  reachable failing_handlers s
  ∧ handlers_of s (u "X") = [HUser 0]
  ∧ NoDup (handlers_of s (u "X")).
Proof.
  cbv zeta.
  set (s := handle failing_handlers (OnType (u "X") 0) _).
  assert (Hreach : reachable failing_handlers s).
  { exists true, [OnType (u "X") 0; OnType (u "X") 0]. reflexivity. }
  split; [exact Hreach | ]. split; [vm_compute; reflexivity | ].
  exact (proj1 (handler_sets_are_sets failing_handlers s Hreach) (u "X")).
Defined.

(** ** The transport: what is sent, and when *)

Lemma sent_log e s :
  (∀ body, e ≠ Sent body) -> sent_frames (trace (log e s)) = sent_frames (trace s).
Proof.
  intros He. cbn. read_trace. destruct e; try (rewrite app_nil_r; reflexivity).
  exfalso. eapply He. reflexivity.
Qed.

Lemma sent_clearTimeout t s : sent_frames (trace (clearTimeout t s)) = sent_frames (trace s).
Proof.
  unfold clearTimeout. case_bool_decide; [ | reflexivity ].
  rewrite sent_log by discriminate. reflexivity.
Qed.

Lemma sent_pending_delete id s : sent_frames (trace (pending_delete id s)) = sent_frames (trace s).
Proof.
  unfold pending_delete. destruct (_pending s !! id); [ | reflexivity ].
  rewrite sent_log by discriminate. reflexivity.
Qed.

Lemma sent_offType type h s : sent_frames (trace (offType type h s)) = sent_frames (trace s).
Proof.
  unfold offType. destruct (_handlers s !! type); [ | reflexivity ].
  case_bool_decide; [ | reflexivity ]. rewrite sent_log by discriminate. reflexivity.
Qed.

Lemma sent_release n w s : sent_frames (trace (release n w s)) = sent_frames (trace s).
Proof.
  unfold release. rewrite <- (sent_clearTimeout (TWait n) s).
  generalize (clearTimeout (TWait n) s). generalize (subscriptions n w).
  induction l as [|sub l IH]; intros x; [reflexivity | ].
  cbn [fold_left]. rewrite IH. apply sent_offType.
Qed.

Lemma sent_wait_timeout n s : sent_frames (trace (wait_timeout n s)) = sent_frames (trace s).
Proof.
  unfold wait_timeout, reject. destruct (waits s !! n) as [[p|l]|]; [ | | reflexivity ];
    rewrite sent_log by discriminate; apply sent_release.
Qed.

Lemma sent_invoke opts h env s :
  sent_frames (trace (invoke opts h env s).1) = sent_frames (trace s).
Proof.
  unfold invoke, resolve. destruct h as [k|n|n|n i]; [reflexivity | | | ];
    destruct (waits s !! n) as [[p|l]|]; try reflexivity; cbn [fst].
  - destruct (p _) as [[|]|]; try reflexivity. cbn [fst].
    rewrite sent_log by discriminate. apply sent_release.
  - rewrite sent_log by discriminate. apply sent_release.
  - rewrite sent_log by discriminate. apply sent_release.
Qed.

Lemma sendReply_closed opts to p e s :
  ws_open s = false -> _sendReply opts to p e s = s.
Proof.
  intros Hc. unfold _sendReply. destruct (negb (truthy _)); [reflexivity | ].
  rewrite Hc. reflexivity.
Qed.

Lemma ws_open_core s s' : core_view s' = core_view s -> ws_open s' = ws_open s.
Proof. intros H. unfold ws_open. rewrite (core_ws _ _ H). reflexivity. Qed.

Lemma sent_deliver opts h env s :
  ws_open s = false ->
  sent_frames (trace (deliver opts h env s)) = sent_frames (trace s).
Proof.
  intros Hc. unfold deliver.
  pose proof (sent_invoke opts h env (log (Called h) s)) as Hs.
  pose proof (core_invoke opts h env (log (Called h) s)) as Hv.
  destruct (invoke opts h env (log (Called h) s)) as [s' c]. cbn [fst] in Hs, Hv.
  rewrite sent_log in Hs by discriminate.
  rewrite core_log in Hv by reflexivity.
  destruct c; [exact Hs | | exact Hs].
  unfold replyError. rewrite sendReply_closed; [exact Hs | ].
  rewrite (ws_open_core _ _ Hv). exact Hc.
Qed.

Lemma sent_dispatch opts set type env :
  ∀ s, ws_open s = false ->
       sent_frames (trace (dispatch opts set type env s)) = sent_frames (trace s).
Proof.
  induction set as [|h rest IH]; intros s Hc; [reflexivity | ].
  cbn [dispatch]. case_bool_decide; [ | apply IH, Hc ].
  rewrite IH; [apply sent_deliver, Hc | ].
  rewrite (ws_open_core _ _ (core_deliver opts h env s)). exact Hc.
Qed.

Lemma sent_connect ctor s : sent_frames (trace (connect ctor s).2) = sent_frames (trace s).
Proof.
  unfold connect, reject. destruct ctor; cbn [snd]; [reflexivity | ].
  rewrite sent_log by discriminate. reflexivity.
Qed.

Lemma sent_fired t s :
  sent_frames (trace (log (Fired t) (set_timers (filter (λ x, x ≠ t) (timers s)) s)))
  = sent_frames (trace s).
Proof. rewrite sent_log by discriminate. reflexivity. Qed.

Lemma sent_ws_onclose opts r s :
  requests_ok s -> sent_frames (trace (ws_onclose opts r s)) = sent_frames (trace s).
Proof.
  intros Hok. unfold ws_onclose.
  set (s3 := _emit Disconnected (_clearHeartbeat (set_connected false s))).
  assert (H3 : sent_frames (trace s3) = sent_frames (trace s)).
  { subst s3. unfold _emit. rewrite sent_log by discriminate.
    rewrite (proj2 (clearHeartbeat_fields _)). reflexivity. }
  assert (Hok3 : requests_ok s3).
  { eapply requests_ok_view; [ | exact Hok ]. subst s3.
    rewrite (core_request _ _ (core_emit _ _)), (core_request _ _ (core_clearHeartbeat _)).
    reflexivity. }
  set (s4 := if _connected s then _ else s3).
  assert (H4 : sent_frames (trace s4) = sent_frames (trace s)).
  { subst s4. destruct (_connected s); [ | exact H3 ].
    destruct (failAllPending_ok (Error (u "socket closed")) s3 Hok3) as (_ & _ & _ & G).
    cbv zeta in G. rewrite G. exact H3. }
  destruct (autoReconnect s4); [rewrite scheduleReconnect_sent | ]; exact H4.
Qed.

(** X9: the transport hands a frame to the socket only while the socket is
    open.  On a socket that is not open, [send] and [request] throw [socket
    not open] and no event whatever, be it a frame that makes a handler
    fail, the rejection of a handler promise, a heartbeat tick or an
    operation of the workflow client, sends anything. *)
Theorem frames_are_sent_only_when_open (opts : options) (s : ObjectSocket) :
  reachable opts s -> ws_open s = false ->
  (∀ ev, sent_frames (trace (handle opts ev s)) = sent_frames (trace s))
  ∧ (∀ type payload, send opts type payload s = Throw (Error (u "socket not open")))
  ∧ (∀ type payload timeoutMs now,
       request opts type payload timeoutMs now s = Throw (Error (u "socket not open")))
  ∧ (∀ type payload expectList timeoutMs,
       _sendAndWait opts type payload expectList timeoutMs s
       = Throw (Error (u "socket not open"))).
Proof.
  intros Hreach Hc. pose proof (reachable_requests_ok opts s Hreach) as Hok.
  assert (Hsend : ∀ type payload, send opts type payload s = Throw (Error (u "socket not open")))
    by (intros; unfold send; rewrite Hc; reflexivity).
  assert (Hreq : ∀ type payload timeoutMs now,
            request opts type payload timeoutMs now s = Throw (Error (u "socket not open")))
    by (intros; unfold request; rewrite Hc; reflexivity).
  assert (Hsw : ∀ type payload expectList timeoutMs,
            _sendAndWait opts type payload expectList timeoutMs s
            = Throw (Error (u "socket not open")))
    by (intros; rewrite sendAndWait_unfold, Hsend; reflexivity).
  split; [ | auto ].
  intros ev.
  destruct ev as [ctor| |data| |random| |type payload|type payload tmo now|type k|type k
                  |predicate tmo|type payload expectList tmo|t ctor|i]; cbn [handle].
  - apply sent_connect.
  - rewrite ws_onopen_sent. reflexivity.
  - unfold _handleMessage. destruct (opt_decode opts data) as [env|e].
    2:{ destruct (tolerantDecode opts); [ | reflexivity ]. apply sent_log. discriminate. }
    destruct (negb (truthy env) || negb (is_string (prop_opt env (u "type")))); [reflexivity | ].
    destruct (truthy (prop_opt env (u "replyTo"))).
    + destruct (prop_opt env (u "replyTo")) as [| |b|x|replyTo|l|o]; try reflexivity.
      destruct (_pending s !! replyTo) as [pending|]; [ | reflexivity ].
      destruct (truthy (prop_opt env (u "error"))); unfold reject, resolve;
        rewrite sent_log by discriminate; rewrite sent_pending_delete; apply sent_clearTimeout.
    + destruct (prop_opt env (u "type")); try reflexivity. apply sent_dispatch, Hc.
  - apply sent_log. discriminate.
  - rewrite sent_ws_onclose; [reflexivity | ].
    eapply requests_ok_view; [ | exact Hok ]. reflexivity.
  - unfold close. rewrite (proj2 (clearHeartbeat_fields _)).
    destruct (_ws (set_autoReconnect false s)) as [[| | |]|]; reflexivity.
  - rewrite Hsend. reflexivity.
  - rewrite Hreq. reflexivity.
  - unfold onType. case_bool_decide; [reflexivity | ]. rewrite sent_log by discriminate.
    reflexivity.
  - apply sent_offType.
  - unfold waitFor. cbn [snd]. rewrite subscribe_all_sent. unfold setTimeout.
    rewrite sent_log by discriminate. reflexivity.
  - rewrite Hsw. reflexivity.
  - unfold fire. destruct t as [id ty|m|m|m]; cbn [timer_callback].
    + unfold reject. rewrite sent_log by discriminate. rewrite sent_pending_delete.
      apply sent_fired.
    + rewrite sent_wait_timeout. apply sent_fired.
    + rewrite sent_connect. apply sent_fired.
    + unfold heartbeat_tick. change (ws_open (log (Fired (THeartbeat m)) s)) with (ws_open s).
      rewrite Hc. cbn [negb]. rewrite sent_log by discriminate. reflexivity.
  - destruct (rejections s !! i) as [[env e]|]; [ | reflexivity ].
    unfold handler_rejected, replyError. rewrite sendReply_closed; [reflexivity | exact Hc].
Qed.

Lemma frames_are_sent_only_when_open_witness :
  let s := handle failing_handlers (OnType (u "X") 0) (new_socket true) in
  reachable failing_handlers s
  ∧ ws_open s = false
  ∧ sent_frames (trace (handle failing_handlers (WsMessage (request_frame (u "7"))) s)) = [].
Proof.
  cbv zeta.
  set (s := handle failing_handlers (OnType (u "X") 0) (new_socket true)).
  assert (Hreach : reachable failing_handlers s).
  { exists true, [OnType (u "X") 0]. reflexivity. }
  assert (Hc : ws_open s = false) by reflexivity.
  split; [exact Hreach | ]. split; [exact Hc | ].
  exact (proj1 (frames_are_sent_only_when_open failing_handlers s Hreach Hc)
           (WsMessage (request_frame (u "7")))).
Defined.

(** ** The transport: requests and replies *)

(** X10: the id of a request is fresh.  Whatever the clock returns, also the
    time of an earlier request or a time before it, the id given to a new
    request differs from every id made from a value the counter has had, no
    request was ever made under it on this socket, and nothing is pending or
    settled under it. *)
Theorem request_ids_are_fresh (opts : options) (s : ObjectSocket)
    (type : jstring) (payload : jsval) (timeoutMs : option Z) (now : N) :
  reachable opts s -> ws_open s = true ->
  let id := make_id now (_idCounter s + 1) in
  (∃ s1, request opts type payload timeoutMs now s = Ok (FRequest id, s1)
         ∧ _idCounter s1 = _idCounter s + 1)
  ∧ (∀ now' counter, counter <= _idCounter s -> make_id now' counter ≠ id)
  ∧ _pending s !! id = None
  ∧ issues id (trace s) = 0%nat
  ∧ settles_of (FRequest id) (trace s) = [].
Proof.
  intros Hreach Hopen id. pose proof (reachable_requests_ok opts s Hreach) as Hok.
  destruct (request_fields opts type payload timeoutMs now s Hopen)
    as (s1 & Hreq & _ & Hc & _).
  destruct (next_id_fresh s now Hok) as (Hp & _ & Hi & Hs & _).
  split; [exists s1; split; assumption | ].
  split; [ | split; [exact Hp | split; [exact Hi | ]] ].
  - intros now' c Hle E. apply make_id_inj in E. lia.
  - unfold settlements in Hs. fold id in Hs.
    destruct (settles_of (FRequest id) (trace s)); [reflexivity | discriminate].
Qed.

Lemma request_ids_are_fresh_witness :
  let s := handle json_options (Request (u "X") JNull None 5) json_socket in
  reachable json_options s ∧ ws_open s = true
  ∧ make_id 5 1 ≠ make_id 5 (_idCounter s + 1)
  ∧ make_id 5 (_idCounter s + 1) = u "5-2".
Proof.
  cbv zeta.
  set (s := handle json_options (Request (u "X") JNull None 5) json_socket).
  assert (Hreach : reachable json_options s).
  { exists true, [Connect (Ok ()); WsOpen; Request (u "X") JNull None 5].
    vm_compute. reflexivity. }
  assert (Hopen : ws_open s = true) by (vm_compute; reflexivity).
  split; [exact Hreach | ]. split; [exact Hopen | ].
  destruct (request_ids_are_fresh json_options s (u "X") JNull None 5 Hreach Hopen)
    as (_ & Hne & _).
  split; [ | vm_compute; reflexivity ].
  apply Hne. vm_compute. discriminate.
Defined.

(** X11: a reply to a request that has ended is dropped.  Once the entry of a
    request has left the table, by its timeout, by a reply or by the close
    of the socket, a frame that replies to it, late or for the second time,
    leaves the socket exactly as it is: no future is settled again and no
    handler subscribed to the type of the frame is called. *)
Theorem late_replies_are_dropped (opts : options) (s : ObjectSocket)
    (type : jstring) (payload : jsval) (timeoutMs : option Z) (now : N) :
  reachable opts s -> ws_open s = true ->
  ∃ id s1,
    request opts type payload timeoutMs now s = Ok (FRequest id, s1)
    ∧ ∀ evs s2, run opts evs s1 = Some s2 -> _pending s2 !! id = None ->
        ∀ data env,
          opt_decode opts data = Ok env -> prop_opt env (u "replyTo") = JStr id ->
          handle opts (WsMessage data) s2 = s2.
Proof.
  intros Hreach Hopen.
  destruct (request_fields opts type payload timeoutMs now s Hopen) as (s1 & Hreq & _).
  exists (make_id now (_idCounter s + 1)), s1. split; [exact Hreq | ].
  intros evs s2 Hrun Hgone data env Hd Hr.
  cbn [handle]. unfold _handleMessage. rewrite Hd.
  destruct (negb (truthy env) || negb (is_string (prop_opt env (u "type")))); [reflexivity | ].
  rewrite Hr, make_id_truthy, Hgone. reflexivity.
Qed.

Lemma late_replies_are_dropped_witness :
  let data := frame2 (u "type") (quoted (u "X:REPLY")) (u "replyTo") (quoted (u "5-1")) in
  let s1 := handle json_options (Request (u "X") JNull None 5) json_socket in
  let s2 := handle json_options (TimerFires (TRequest (u "5-1") (u "X")) (Ok ())) s1 in
  reachable json_options json_socket ∧ ws_open json_socket = true
  ∧ run json_options [TimerFires (TRequest (u "5-1") (u "X")) (Ok ())] s1 = Some s2
  ∧ handle json_options (WsMessage data) s2 = s2.
Proof.
  cbv zeta.
  set (data := frame2 (u "type") (quoted (u "X:REPLY")) (u "replyTo") (quoted (u "5-1"))).
  set (s1 := handle json_options (Request (u "X") JNull None 5) json_socket).
  set (s2 := handle json_options (TimerFires (TRequest (u "5-1") (u "X")) (Ok ())) s1).
  assert (Hreach : reachable json_options json_socket).
  { exists true, [Connect (Ok ()); WsOpen]. vm_compute. reflexivity. }
  assert (Hopen : ws_open json_socket = true) by (vm_compute; reflexivity).
  assert (Hrun : run json_options [TimerFires (TRequest (u "5-1") (u "X")) (Ok ())] s1 = Some s2).
  { vm_compute. reflexivity. }
  split; [exact Hreach | ]. split; [exact Hopen | ]. split; [exact Hrun | ].
  destruct (late_replies_are_dropped json_options json_socket (u "X") JNull None 5 Hreach Hopen)
    as (id & x1 & Hreq & Hdrop).
  assert (E : request json_options (u "X") JNull None 5 json_socket = Ok (FRequest (u "5-1"), s1)).
  { vm_compute. reflexivity. }
  rewrite E in Hreq. injection Hreq as <- <-.
  apply (Hdrop _ s2 Hrun ltac:(vm_compute; reflexivity) data
           (JObj [(u "type", JStr (u "X:REPLY")); (u "replyTo", JStr (u "5-1"))])).
  - vm_compute. reflexivity.
  - vm_compute. reflexivity.
Defined.

(** ** The transport: the connection *)



(** X13: no frame breaks the connection.  Handling an inbound frame, whether
    it decodes or not, is a reply or not, and whatever the handlers do,
    leaves the socket, the connection flag, [autoReconnect], the counter of
    reconnect attempts and the heartbeat as they are and schedules no
    reconnect.  With tolerant decoding the handling never throws: a frame
    that does not decode only emits [error]; without it the error of the
    decoder is thrown. *)
Theorem frames_never_break_the_connection (opts : options) (s : ObjectSocket)
    (data : jstring) :
  reachable opts s ->
  let s' := handle opts (WsMessage data) s in
  (_ws s' = _ws s ∧ _connected s' = _connected s ∧ autoReconnect s' = autoReconnect s
   ∧ _reconnectAttempts s' = _reconnectAttempts s ∧ _heartbeatTimer s' = _heartbeatTimer s
   ∧ ∀ n, (TReconnect n ∈ timers s' <-> TReconnect n ∈ timers s)
          ∧ (THeartbeat n ∈ timers s' <-> THeartbeat n ∈ timers s))
  ∧ (tolerantDecode opts = true -> ∃ x, _handleMessage opts data s = Ok x)
  ∧ (∀ e, opt_decode opts data = Throw e ->
          _handleMessage opts data s
          = if tolerantDecode opts then Ok (_emit ErrorEvent s) else Throw e).
Proof.
  intros Hreach. cbv zeta. pose proof (reachable_requests_ok opts s Hreach) as Hok.
  pose proof (link_handleMessage opts data s Hok) as Hv.
  split; [ | split ].
  - pose proof Hv as Hv'. unfold link_view in Hv'. injection Hv' as Ha Hw Hc Hr Hh _ _.
    do 5 (split; [assumption | ]). intros n.
    split; apply (link_timer_mem _ _ _ Hv); reflexivity.
  - intros Ht. unfold _handleMessage. rewrite Ht.
    destruct (opt_decode opts data) as [env|e]; [ | eauto ].
    destruct (negb (truthy env) || negb (is_string (prop_opt env (u "type")))); [eauto | ].
    destruct (truthy (prop_opt env (u "replyTo"))).
    + destruct (prop_opt env (u "replyTo")); eauto.
      destruct (_pending s !! s0); eauto.
      destruct (truthy (prop_opt env (u "error"))); eauto.
    + destruct (prop_opt env (u "type")); eauto.
  - intros e He. unfold _handleMessage. rewrite He. reflexivity.
Qed.

Lemma frames_never_break_the_connection_witness :
  reachable json_options json_socket
  ∧ opt_decode json_options (u "{oops") = Throw SyntaxError
  ∧ _ws (handle json_options (WsMessage (u "{oops")) json_socket) = Some OPEN
  ∧ trace (handle json_options (WsMessage (u "{oops")) json_socket)
    = trace json_socket ++ [Emit ErrorEvent].
Proof.
  assert (Hreach : reachable json_options json_socket).
  { exists true, [Connect (Ok ()); WsOpen]. vm_compute. reflexivity. }
  assert (Hd : opt_decode json_options (u "{oops") = Throw SyntaxError)
    by (vm_compute; reflexivity).
  split; [exact Hreach | ]. split; [exact Hd | ].
  destruct (frames_never_break_the_connection json_options json_socket (u "{oops") Hreach)
    as ((Hw & _) & _ & Hthrow).
  split; [rewrite Hw; vm_compute; reflexivity | ].
  cbn [handle]. rewrite (Hthrow _ Hd). reflexivity.
Defined.

(** ** The workflow client: operations that wait at the same time *)

Lemma sendAndWait_calls opts type payload l d s f s1 :
  _sendAndWait opts type payload l d s = Ok (f, s1) ->
  f = FWait (calls s) ∧ calls s1 = S (calls s) ∧ ws_open s1 = ws_open s.
Proof.
  intros H. pose proof (core_sendAndWait opts type payload l d s (f, s1) H) as Hv.
  apply ws_open_core in Hv. cbn [snd] in Hv.
  rewrite sendAndWait_unfold in H.
  destruct (send opts type payload s) as [x|e] eqn:E; [ | discriminate ].
  injection H as <- <-. rewrite subscribe_all_calls. cbn [calls setTimeout log set_trace
    set_timers set_waits set_calls].
  rewrite (send_calls opts type payload s x E) in *.
  split; [reflexivity | split; [reflexivity | ] ]. exact Hv.
Qed.

(** X14: one event resolves every operation that waits for its type.  When
    [_sendAndWait] is called twice on an open socket, the futures returned
    are two, and a single event whose type both calls expect resolves both,
    each once and each with what it would have got alone. *)
Theorem one_event_resolves_every_waiter (opts : options) (s : ObjectSocket)
    (type1 type2 : jstring) (payload1 payload2 : jsval) (l1 l2 : list jstring) (d1 d2 : Z) :
  reachable opts s -> ws_open s = true ->
  ∃ n1 s1 n2 s2,
    _sendAndWait opts type1 payload1 l1 d1 s = Ok (FWait n1, s1)
    ∧ _sendAndWait opts type2 payload2 l2 d2 s1 = Ok (FWait n2, s2)
    ∧ n1 ≠ n2
    ∧ ∀ data t p,
        inbound_event opts data = Some (t, p) -> t ∈ l1 -> t ∈ l2 ->
        let s3 := handle opts (WsMessage data) s2 in
        settles_of (FWait n1) (trace s3)
        = [Resolved (if (1 <? length l1)%nat
                     then JObj [(u "type", JStr t); (u "payload", p)] else p)]
        ∧ settles_of (FWait n2) (trace s3)
          = [Resolved (if (1 <? length l2)%nat
                       then JObj [(u "type", JStr t); (u "payload", p)] else p)].
Proof.
  intros Hreach Hopen.
  destruct (sendAndWait_first_wins opts type1 payload1 l1 d1 s Hreach) as [_ H1].
  destruct (H1 Hopen) as (s1 & E1 & _ & L1 & F1 & R1). cbv zeta in *.
  destruct (sendAndWait_calls _ _ _ _ _ _ _ _ E1) as (_ & C1 & O1).
  assert (Hreach1 : reachable opts s1).
  { apply (run_reachable opts [SendAndWaitCall type1 payload1 l1 d1] s s1 Hreach).
    cbn [run enabled handle]. rewrite E1. reflexivity. }
  destruct (sendAndWait_first_wins opts type2 payload2 l2 d2 s1 Hreach1) as [_ H2].
  destruct (H2 ltac:(congruence)) as (s2 & E2 & _ & L2 & _ & R2). cbv zeta in *.
  exists (calls s), s1, (calls s1), s2.
  split; [exact E1 | ]. split; [exact E2 | ]. split; [lia | ].
  assert (Hrun : run opts [SendAndWaitCall type2 payload2 l2 d2] s1 = Some s2).
  { cbn [run enabled handle]. rewrite E2. reflexivity. }
  assert (L12 : wait_live (calls s) (SendAndWait l1) s2).
  { destruct (F1 [] s1 eq_refl) as [_ Hev].
    destruct (Hev (SendAndWaitCall type2 payload2 l2 d2) eq_refl) as [_ Hl].
    specialize (Hl L1). cbn [handle] in Hl. rewrite E2 in Hl. exact Hl. }
  intros data t p Hin Ht1 Ht2.
  destruct (R1 _ s2 Hrun L12) as (_ & Hres1 & _).
  destruct (R2 [] s2 eq_refl L2) as (_ & Hres2 & _).
  split.
  - destruct (Hres1 data t p Hin Ht1) as (_ & _ & Hs & _). exact Hs.
  - destruct (Hres2 data t p Hin Ht2) as (_ & _ & Hs & _). exact Hs.
Qed.

Lemma one_event_resolves_every_waiter_witness :
  let status := frame1 (u "ParticipantsEnrolled") (u "3") in
  reachable enrollment_options open_socket ∧ ws_open open_socket = true
  ∧ ∃ n1 s1 n2 s2,
      run_operation sendStatus JNull open_socket = Ok (FWait n1, s1)
      ∧ run_operation sendStatus JNull s1 = Ok (FWait n2, s2)
      ∧ n1 ≠ n2
      ∧ settles_of (FWait n1) (trace (handle enrollment_options (WsMessage status) s2))
        = [Resolved (tolerant_parse status)]
      ∧ settles_of (FWait n2) (trace (handle enrollment_options (WsMessage status) s2))
        = [Resolved (tolerant_parse status)].
Proof.
  cbv zeta.
  set (status := frame1 (u "ParticipantsEnrolled") (u "3")).
  assert (Hreach : reachable enrollment_options open_socket).
  { exists true, [Connect (Ok ()); WsOpen]. reflexivity. }
  assert (Hopen : ws_open open_socket = true) by reflexivity.
  split; [exact Hreach | ]. split; [exact Hopen | ].
  destruct (one_event_resolves_every_waiter enrollment_options open_socket
              (u "Info_Enrollment") (u "Info_Enrollment") JNull JNull
              [u "ENROLLMENT_STATUS"] [u "ENROLLMENT_STATUS"]
              SENDSTATUS_TIMEOUT SENDSTATUS_TIMEOUT Hreach Hopen)
    as (n1 & s1 & n2 & s2 & E1 & E2 & Hne & Hres).
  exists n1, s1, n2, s2.
  split; [exact E1 | ]. split; [exact E2 | ]. split; [exact Hne | ].
  apply (Hres status (u "ENROLLMENT_STATUS") (tolerant_parse status)).
  - vm_compute. reflexivity.
  - left.
  - left.
Defined.

(** ** The workflow client: status polling *)





Lemma client_run_snoc evs ev c :
  client_run (evs ++ [ev]) c
  = match client_run evs c with
    | Some c' => if client_enabled ev c' then Some (client_handle ev c') else None
    | None => None
    end.
Proof.
  revert c. induction evs as [|e evs IH]; intros c; cbn [client_run app].
  - destruct (client_enabled ev c); reflexivity.
  - destruct (client_enabled e c); [apply IH | reflexivity].
Qed.

(** An invariant of the client holds in every state it reaches. *)
Lemma client_reachable_ind (P : EnrollmentClient -> Prop) :
  (∀ auto, P (new_client auto)) ->
  (∀ ev c, client_reachable c -> P c -> client_enabled ev c = true -> P (client_handle ev c)) ->
  ∀ c, client_reachable c -> P c.
Proof.
  intros H0 Hstep c (auto & evs & Hrun). revert c Hrun.
  induction evs as [|ev evs IH] using rev_ind; intros c Hrun.
  - injection Hrun as <-. apply H0.
  - rewrite client_run_snoc in Hrun.
    destruct (client_run evs (new_client auto)) as [c0|] eqn:E; [ | discriminate ].
    destruct (client_enabled ev c0) eqn:En; [ | discriminate ].
    injection Hrun as <-. apply Hstep; [ | apply IH; reflexivity | exact En ].
    exists auto, evs. exact E.
Qed.


Lemma stopStatusPolling_spec c :
  polling_ok c ->
  intervals (stopStatusPolling c) = [] ∧ _statusTimer (stopStatusPolling c) = None
  ∧ sock (stopStatusPolling c) = sock c ∧ interval_ids (stopStatusPolling c) = interval_ids c.
Proof.
  unfold polling_ok, stopStatusPolling. destruct (_statusTimer c) as [id|].
  - intros (ms & params & H). cbn [intervals clearInterval _statusTimer sock interval_ids].
    rewrite H. cbn [filter list_filter fst]. rewrite decide_False by (intros Hn; apply Hn; reflexivity).
    repeat split.
  - intros H. cbn [intervals _statusTimer sock interval_ids]. repeat split. exact H.
Qed.

Lemma polling_ok_same c c' :
  _statusTimer c' = _statusTimer c -> intervals c' = intervals c ->
  polling_ok c -> polling_ok c'.
Proof. unfold polling_ok. intros -> ->. exact id. Qed.

Lemma client_operation_polling op params c r :
  client_operation op params c = Ok r ->
  _statusTimer r.2 = _statusTimer c ∧ intervals r.2 = intervals c.
Proof.
  unfold client_operation. destruct (run_operation op params (sock c)) as [[f s]|e];
    [ | discriminate ].
  intros H. injection H as <-. destruct op; split; reflexivity.
Qed.

Lemma client_handle_polling_ok ev c :
  polling_ok c -> polling_ok (client_handle ev c).
Proof.
  intros H. destruct ev as [ev|op params|params everyMs| |id]; cbn [client_handle].
  - exact H.
  - destruct (client_operation op params c) as [r|e] eqn:E; [ | exact H ].
    destruct (client_operation_polling _ _ _ _ E) as [H1 H2].
    exact (polling_ok_same _ _ H1 H2 H).
  - destruct (stopStatusPolling_spec c H) as (H1 & _).
    unfold polling_ok, startStatusPolling. cbn [_statusTimer intervals]. rewrite H1. eauto.
  - destruct (stopStatusPolling_spec c H) as (H1 & H2 & _).
    unfold polling_ok. rewrite H2. exact H1.
  - destruct (interval_params id c) as [params|]; [ | exact H ].
    unfold poll_tick. destruct (_connected (sock c)); [ | exact H ].
    destruct (client_operation sendStatus params c) as [[f c']|e] eqn:E; [ | exact H ].
    destruct (client_operation_polling _ _ _ _ E) as [H1 H2].
    exact (polling_ok_same _ _ H1 H2 H).
Qed.

Lemma client_reachable_polling_ok c : client_reachable c -> polling_ok c.
Proof.
  apply (client_reachable_ind polling_ok).
  - intros auto. reflexivity.
  - intros ev c0 _ IH _. apply client_handle_polling_ok, IH.
Qed.

(** The ids of the intervals are handed out in order. *)
Lemma statusTimer_bound c :
  client_reachable c -> ∀ id, _statusTimer c = Some id -> (id <= interval_ids c)%nat.
Proof.
  revert c.
  apply (client_reachable_ind
           (λ c, ∀ id, _statusTimer c = Some id -> (id <= interval_ids c)%nat)).
  - intros auto id H. discriminate.
  - intros ev c _ IH _ id.
    destruct ev as [ev|op params|params everyMs| |j]; cbn [client_handle].
    + apply IH.
    + unfold client_operation.
      destruct (run_operation op params (sock c)) as [[f s]|e]; [ | apply IH ].
      destruct op; apply IH.
    + unfold startStatusPolling, stopStatusPolling.
      destruct (_statusTimer c); cbn [_statusTimer interval_ids clearInterval];
        intros H; injection H as <-; lia.
    + unfold stopStatusPolling. cbn [_statusTimer]. discriminate.
    + destruct (interval_params j c) as [params|]; [ | apply IH ].
      unfold poll_tick. destruct (_connected (sock c)); [ | apply IH ].
      unfold client_operation.
      destruct (run_operation sendStatus params (sock c)) as [[f s]|e]; apply IH.
Qed.

(** X15: the client polls with one interval at most.  In every state a
    client can reach, the interval it remembers in [_statusTimer] is the only
    one that is set, and none is set when it remembers none.  Starting the
    polling again replaces the interval: the one interval then set is new,
    has the period asked for (5000 ms by default) and sends the new
    parameters.  Stopping leaves no interval, and neither call touches the
    socket. *)
Theorem polling_uses_one_interval (c : EnrollmentClient) :
  client_reachable c ->
  match _statusTimer c with
  | Some id => ∃ everyMs params, intervals c = [(id, everyMs, params)]
  | None => intervals c = []
  end
  ∧ (∀ params everyMs,
       let c' := client_handle (StartStatusPolling params everyMs) c in
       let id := S (interval_ids c) in
       _statusTimer c' = Some id
       ∧ intervals c' = [(id, default STATUS_POLLING_INTERVAL everyMs, params)]
       ∧ _statusTimer c ≠ Some id
       ∧ sock c' = sock c)
  ∧ (let c' := client_handle StopStatusPolling c in
     _statusTimer c' = None ∧ intervals c' = [] ∧ sock c' = sock c).
Proof.
  intros Hreach. pose proof (client_reachable_polling_ok c Hreach) as Hok.
  destruct (stopStatusPolling_spec c Hok) as (H1 & H2 & H3 & H4).
  split; [exact Hok | ]. split.
  - intros params everyMs. cbv zeta. cbn [client_handle]. unfold startStatusPolling.
    cbn [_statusTimer intervals sock]. rewrite H1, H3, H4.
    split; [reflexivity | ]. split; [destruct everyMs; reflexivity | ].
    split; [ | reflexivity ].
    intros H. pose proof (statusTimer_bound c Hreach _ H). lia.
  - cbv zeta. cbn [client_handle]. auto.
Qed.

Lemma polling_uses_one_interval_witness :
  let params := JObj [(u "ID", JStr (u "p2"))] in
  client_reachable polling_client
  ∧ intervals polling_client = [(1%nat, 5000%Z, JObj [(u "ID", JStr (u "p1"))])]
  ∧ intervals (client_handle (StartStatusPolling params (Some 1000%Z)) polling_client)
    = [(2%nat, 1000%Z, params)]
  ∧ intervals (client_handle StopStatusPolling polling_client) = [].
Proof.
  cbv zeta.
  assert (Hreach : client_reachable polling_client).
  { exists true, [Transport (Connect (Ok ())); Transport WsOpen;
                  StartStatusPolling (JObj [(u "ID", JStr (u "p1"))]) None].
    vm_compute. reflexivity. }
  destruct (polling_uses_one_interval polling_client Hreach) as (_ & Hstart & Hstop).
  split; [exact Hreach | ]. split; [vm_compute; reflexivity | ]. split.
  - destruct (Hstart (JObj [(u "ID", JStr (u "p2"))]) (Some 1000%Z)) as (_ & H & _). exact H.
  - destruct Hstop as (_ & H & _). exact H.
Defined.


